(** * DrQA document reader: model assembly and forward pass

    Shallow embedding of [src/rc/models/drqa.py] (class [DrQA]).

    - Python objects that are shared and mutated ([nn.Parameter]s: their
      data and their [requires_grad] flag) live in a heap indexed by
      object identity; an [nn.Embedding] holds the location of its weight.
    - [__init__] and [forward] run in a state-and-exception monad; a raised
      exception keeps the state reached so far, as in Python.
    - Tensors are nested lists over an abstract scalar type; the pieces of
      torch used by the file ([torch.cat], [nn.Embedding], [F.relu],
      [F.dropout], broadcasting product, [sum], slice assignment) are
      written out, shape errors included.
    - The classes and functions of [src.layers] are interfaces: the file
      under verification only calls them. A constructor ([LayerInits])
      returns or raises; a forward function ([Layers]) is a computation on
      the state of the call, so it can read the heap of parameters, write
      to it and draw random numbers. What a proof needs of them is a
      hypothesis of the theorem. [nn.Linear] is built by torch, which
      refuses a negative size.
    - Autograd is modelled as far as [__init__] and [forward] depend on it:
      a parameter is a leaf or has a [grad_fn]; [requires_grad] can only be
      assigned on a leaf; in grad mode the in-place write of [forward] is
      refused on a leaf that requires grad, and makes the written parameter
      require grad, with a [grad_fn], when the right-hand side does.
    - [self.training] is one flag for the whole module tree, as
      [train()] and [eval()] set it, and is an argument of [forward]; so is
      the grad mode ([torch.is_grad_enabled()]) the call runs in.
    - A nested list cannot have an axis of size 0 below a non-empty one. *)

From Stdlib Require Import ZArith QArith Qround List String Bool Lia.
From stdpp Require Import base option list gmap strings.

Local Open Scope string_scope.
Local Open Scope list_scope.
Local Open Scope Z_scope.

(** ** Scalars *)

(** The element type of float tensors, with the operations the model uses. *)
Class Scalar (R : Type) : Type := {
  s_zero : R;
  s_one : R;
  s_add : R -> R -> R;
  s_mul : R -> R -> R;
  s_div : R -> R -> R;
  s_exp : R -> R;
  s_relu : R -> R;
  s_of_nat : nat -> R;
  s_of_Q : Q -> R
}.

(** ** Exceptions and the state-and-exception monad *)

Inductive Err : Type :=
  | KeyError (key : string)
  | NotImplementedError (msg : string)
  | AttributeError (attr : string)
  | UnboundLocalError (var : string)
  | IndexError
  | ValueError (msg : string)
  | RuntimeError (msg : string).

Inductive Res (A : Type) : Type :=
  | Ok (a : A)
  | Raise (e : Err).
Arguments Ok {A} a.
Arguments Raise {A} e.

#[global] Instance Res_ret : MRet Res := fun A a => Ok a.

#[global] Instance Res_bind : MBind Res :=
  fun A B f r => match r with Ok a => f a | Raise e => Raise e end.

(** [[f x for x in xs]] for a fallible [f]. *)
Fixpoint map_res {A B} (f : A -> Res B) (xs : list A) : Res (list B) :=
  match xs with
  | [] => Ok []
  | x :: xs' => y ← f x; ys ← map_res f xs'; Ok (y :: ys)
  end.

Definition M (S A : Type) : Type := S -> Res A * S.

#[global] Instance M_ret (S : Type) : MRet (M S) :=
  fun A a s => (Ok a, s).

#[global] Instance M_bind (S : Type) : MBind (M S) :=
  fun A B f m s =>
    match m s with
    | (Ok a, s') => f a s'
    | (Raise e, s') => (Raise e, s')
    end.

Definition raise {S A} (e : Err) : M S A := fun s => (Raise e, s).

(** A pure fallible computation, run inside the monad. *)
Definition lift_res {S A} (r : Res A) : M S A := fun s => (r, s).

(** [for x in xs: body x] *)
Fixpoint for_each {S A} (xs : list A) (body : A -> M S unit) : M S unit :=
  match xs with
  | [] => mret tt
  | x :: xs' => _ ← body x; for_each xs' body
  end.

(** [[f x for x in xs]] with effects, left to right. *)
Fixpoint mapM {S A B} (f : A -> M S B) (xs : list A) : M S (list B) :=
  match xs with
  | [] => mret []
  | x :: xs' => y ← f x; ys ← mapM f xs'; mret (y :: ys)
  end.

(** ** Parameters, heap, embeddings *)

Definition loc : Type := positive.

Section Model.
Context {R : Type} `{Scalar R}.

Definition Tensor2 : Type := list (list R).
Definition Tensor3 : Type := list (list (list R)).
Definition LongTensor2 : Type := list (list Z).
Definition Mask2 : Type := list (list bool).

(** An [nn.Parameter]: a 2-d weight, its [requires_grad] flag, and whether
    it has a [grad_fn], which is to say that it is not a leaf of the
    autograd graph. A parameter is created as a leaf. *)
Record Param : Type := {
  data : Tensor2;
  requires_grad : bool;
  grad_fn : bool
}.

(** An [nn.Embedding] object; [weight] is the identity of its parameter. *)
Record Embedding : Type := {
  num_embeddings : Z;
  embedding_dim : Z;
  weight : loc
}.

(** [nn.Embedding.parameters()] *)
Definition Embedding_parameters (e : Embedding) : list loc := [weight e].

(** [p.requires_grad = b], on a leaf. *)
Definition set_requires_grad (b : bool) (p : Param) : Param :=
  {| data := data p; requires_grad := b; grad_fn := grad_fn p |}.

(** Whether the heap holds a parameter with a [grad_fn] at [l]. *)
Definition not_leaf (h : gmap loc Param) (l : loc) : bool :=
  match h !! l with
  | Some p => grad_fn p
  | None => false
  end.

(** ** Configuration *)

(** The keys of the [config] dict that [DrQA] reads. *)
Record Config : Type := {
  char_embed : Z;
  fix_embeddings : bool;
  char_layer_kind : string;          (* config["char_layer"] *)
  dropout_char : Q;
  variational_dropout : bool;
  filter_height : Z;
  use_qemb : bool;
  num_features : Z;
  resize_rnn_input : bool;
  hidden_size : Z;
  num_layers : Z;
  dropout_rnn : Q;
  dropout_rnn_output : bool;
  concat_rnn_layers : bool;
  rnn_type : string;
  rnn_padding : bool;
  doc_self_attn_flag : bool;         (* config['doc_self_attn'] *)
  question_merge : string;
  span_dependency : bool;
  word_dropout : bool;
  dropout_emb : Q;
  dropout_ff : Q
}.

(** ** Sub-modules: what the constructor builds *)

Inductive RnnClass : Type := nn_LSTM | nn_GRU | nn_RNN.

(** [DrQA._RNN_TYPES] *)
Definition _RNN_TYPES : gmap string RnnClass :=
  {[ "lstm" := nn_LSTM; "gru" := nn_GRU; "rnn" := nn_RNN ]}.

Record CharEmbeddingLayer : Type := {
  cel_char_embedding : option Embedding;
  cel_input_size : Z;
  cel_hidden_size : Z;
  cel_layer_type : string;
  cel_dropout : Q;
  cel_variational_dropout : bool;
  cel_filter_height : Z
}.

Record SeqAttnMatch : Type := { sam_input_size : Z }.

Record Linear : Type := {
  in_features : Z;
  out_features : Z;
  bias : bool
}.

Record StackedBRNN : Type := {
  brnn_input_size : Z;
  brnn_hidden_size : Z;
  brnn_num_layers : Z;
  brnn_dropout_rate : Q;
  brnn_dropout_output : bool;
  brnn_variational_dropout : bool;
  brnn_concat_layers : bool;
  brnn_rnn_type : RnnClass;
  brnn_padding : bool;
  brnn_bidirectional : bool
}.

Record LinearSeqAttn : Type := { lsa_input_size : Z }.

Record BilinearSeqAttn : Type := {
  x_size : Z;
  y_size : Z
}.

Inductive Module : Type :=
  | MEmbedding (m : Embedding)
  | MCharEmbeddingLayer (m : CharEmbeddingLayer)
  | MSeqAttnMatch (m : SeqAttnMatch)
  | MLinear (m : Linear)
  | MStackedBRNN (m : StackedBRNN)
  | MLinearSeqAttn (m : LinearSeqAttn)
  | MBilinearSeqAttn (m : BilinearSeqAttn).

(** The model object. Optional attributes are those set under an [if]. *)
Record DrQA : Type := {
  config : Config;
  w_embedding : Embedding;
  char_layer : option CharEmbeddingLayer;
  qemb_match : option SeqAttnMatch;
  doc_linear : option Linear;
  q_linear : option Linear;
  doc_rnn : StackedBRNN;
  question_rnn : StackedBRNN;
  doc_self_attn : option SeqAttnMatch;
  self_attn : option LinearSeqAttn;
  start_attn : BilinearSeqAttn;
  end_attn : BilinearSeqAttn
}.

(** ** The constructors of the sub-modules *)

(** The constructors of the classes of [src.layers]: each returns, or
    raises. *)
Record LayerInits : Type := {
  CharEmbeddingLayer_init : CharEmbeddingLayer -> Res unit;
  SeqAttnMatch_init : SeqAttnMatch -> Res unit;
  StackedBRNN_init : StackedBRNN -> Res unit;
  LinearSeqAttn_init : LinearSeqAttn -> Res unit;
  BilinearSeqAttn_init : BilinearSeqAttn -> Res unit
}.

Context (Inits : LayerInits).

(** [nn.Linear(in_features, out_features, bias)]: torch allocates a weight
    of shape [(out_features, in_features)] and refuses a negative size. *)
Definition Linear_init (l : Linear) : Res unit :=
  if (in_features l <? 0) || (out_features l <? 0)
  then Raise (RuntimeError "Trying to create tensor with negative dimension")
  else Ok tt.

(** The constructor call for a sub-module. [DrQA] builds no embedding: the
    word embedding is handed to it. *)
Definition construct (m : Module) : Res unit :=
  match m with
  | MEmbedding _ => Ok tt
  | MCharEmbeddingLayer d => CharEmbeddingLayer_init Inits d
  | MSeqAttnMatch d => SeqAttnMatch_init Inits d
  | MLinear d => Linear_init d
  | MStackedBRNN d => StackedBRNN_init Inits d
  | MLinearSeqAttn d => LinearSeqAttn_init Inits d
  | MBilinearSeqAttn d => BilinearSeqAttn_init Inits d
  end.

(** ** [DrQA.__init__] *)

(** State of a running constructor: the heap of parameters it was handed,
    and the sub-modules built so far under their attribute names, oldest
    first. Building a sub-module allocates its weights. *)
Record CtorState : Type := {
  c_heap : gmap loc Param;
  c_built : list (string * Module)
}.

(** [self.<name> = <constructor>(...)]: the attribute is set when the
    constructor has returned. *)
Definition build (name : string) (m : Module) : M CtorState unit :=
  fun s => match construct m with
           | Ok _ => (Ok tt, {| c_heap := c_heap s;
                                c_built := c_built s ++ [(name, m)] |})
           | Raise e => (Raise e, s)
           end.

(** [p.requires_grad = False] on the parameter at [l]: torch lets only
    the flag of a leaf be assigned. *)
Definition freeze (l : loc) : M CtorState unit :=
  fun s => if not_leaf (c_heap s) l
           then (Raise (RuntimeError
                          "you can only change requires_grad flags of leaf variables."),
                 s)
           else (Ok tt, {| c_heap := alter (set_requires_grad false) l (c_heap s);
                           c_built := c_built s |}).

Definition question_merge_supported (qm : string) : bool :=
  bool_decide (qm ∈ ["avg"; "self_attn"]).

Definition DrQA_init (config : Config) (w_embedding : Embedding)
    (c_embedding : option Embedding) : M CtorState DrQA :=
  let input_w_dim := embedding_dim w_embedding + char_embed config in
  let q_input_size := input_w_dim in
  _ ← (if fix_embeddings config
       then for_each (Embedding_parameters w_embedding) freeze
       else mret tt);
  char_layer ←
    (if negb (Z.eqb (char_embed config) 0) then
       let m := {| cel_char_embedding := c_embedding;
                   cel_input_size := char_embed config;
                   cel_hidden_size := char_embed config;
                   cel_layer_type := char_layer_kind config;
                   cel_dropout := dropout_char config;
                   cel_variational_dropout := variational_dropout config;
                   cel_filter_height := filter_height config |} in
       _ ← build "char_layer" (MCharEmbeddingLayer m); mret (Some m)
     else mret None);
  (* Projection for attention weighted question *)
  qemb_match ←
    (if use_qemb config then
       let m := {| sam_input_size := input_w_dim |} in
       _ ← build "qemb_match" (MSeqAttnMatch m); mret (Some m)
     else mret None);
  (* Input size to RNN: word emb + question emb + manual features *)
  let doc_input_size := input_w_dim + num_features config in
  let doc_input_size :=
    if use_qemb config then doc_input_size + input_w_dim else doc_input_size in
  (* Project document and question to the same size as their encoders *)
  '(doc_linear, q_linear, doc_input_size, q_input_size) ←
    (if resize_rnn_input config then
       let dl := {| in_features := doc_input_size;
                    out_features := hidden_size config; bias := true |} in
       let ql := {| in_features := input_w_dim;
                    out_features := hidden_size config; bias := true |} in
       _ ← build "doc_linear" (MLinear dl);
       _ ← build "q_linear" (MLinear ql);
       mret (Some dl, Some ql, hidden_size config, hidden_size config)
     else mret (None, None, doc_input_size, q_input_size));
  (* RNN document encoder *)
  rnn_cls ← match _RNN_TYPES !! rnn_type config with
            | Some c => mret c
            | None => raise (KeyError (rnn_type config))
            end;
  let doc_rnn := {| brnn_input_size := doc_input_size;
                    brnn_hidden_size := hidden_size config;
                    brnn_num_layers := num_layers config;
                    brnn_dropout_rate := dropout_rnn config;
                    brnn_dropout_output := dropout_rnn_output config;
                    brnn_variational_dropout := variational_dropout config;
                    brnn_concat_layers := concat_rnn_layers config;
                    brnn_rnn_type := rnn_cls;
                    brnn_padding := rnn_padding config;
                    brnn_bidirectional := true |} in
  _ ← build "doc_rnn" (MStackedBRNN doc_rnn);
  (* RNN question encoder *)
  rnn_cls ← match _RNN_TYPES !! rnn_type config with
            | Some c => mret c
            | None => raise (KeyError (rnn_type config))
            end;
  let question_rnn := {| brnn_input_size := q_input_size;
                         brnn_hidden_size := hidden_size config;
                         brnn_num_layers := num_layers config;
                         brnn_dropout_rate := dropout_rnn config;
                         brnn_dropout_output := dropout_rnn_output config;
                         brnn_variational_dropout := variational_dropout config;
                         brnn_concat_layers := concat_rnn_layers config;
                         brnn_rnn_type := rnn_cls;
                         brnn_padding := rnn_padding config;
                         brnn_bidirectional := true |} in
  _ ← build "question_rnn" (MStackedBRNN question_rnn);
  (* Output sizes of rnn encoders *)
  let doc_hidden_size := 2 * hidden_size config in
  let question_hidden_size := 2 * hidden_size config in
  let doc_hidden_size :=
    if concat_rnn_layers config then doc_hidden_size * num_layers config
    else doc_hidden_size in
  let question_hidden_size :=
    if concat_rnn_layers config then question_hidden_size * num_layers config
    else question_hidden_size in
  '(doc_self_attn, doc_hidden_size) ←
    (if doc_self_attn_flag config then
       let m := {| sam_input_size := doc_hidden_size |} in
       _ ← build "doc_self_attn" (MSeqAttnMatch m);
       mret (Some m, doc_hidden_size + question_hidden_size)
     else mret (None, doc_hidden_size));
  (* Question merging *)
  _ ← (if negb (question_merge_supported (question_merge config))
       then raise (NotImplementedError
                     (String.append "question_merge = " (question_merge config)))
       else mret tt);
  self_attn ←
    (if String.eqb (question_merge config) "self_attn" then
       let m := {| lsa_input_size := question_hidden_size |} in
       _ ← build "self_attn" (MLinearSeqAttn m); mret (Some m)
     else mret None);
  (* Bilinear attention for span start/end *)
  let start_attn := {| x_size := doc_hidden_size; y_size := question_hidden_size |} in
  _ ← build "start_attn" (MBilinearSeqAttn start_attn);
  let q_rep_size :=
    if span_dependency config then question_hidden_size + doc_hidden_size
    else question_hidden_size in
  let end_attn := {| x_size := doc_hidden_size; y_size := q_rep_size |} in
  _ ← build "end_attn" (MBilinearSeqAttn end_attn);
  mret {| config := config;
          w_embedding := w_embedding;
          char_layer := char_layer;
          qemb_match := qemb_match;
          doc_linear := doc_linear;
          q_linear := q_linear;
          doc_rnn := doc_rnn;
          question_rnn := question_rnn;
          doc_self_attn := doc_self_attn;
          self_attn := self_attn;
          start_attn := start_attn;
          end_attn := end_attn |}.

(** The configuration with one key replaced. *)
Definition with_span_dependency (b : bool) (c : Config) : Config :=
  {| char_embed := char_embed c; fix_embeddings := fix_embeddings c;
     char_layer_kind := char_layer_kind c; dropout_char := dropout_char c;
     variational_dropout := variational_dropout c;
     filter_height := filter_height c; use_qemb := use_qemb c;
     num_features := num_features c; resize_rnn_input := resize_rnn_input c;
     hidden_size := hidden_size c; num_layers := num_layers c;
     dropout_rnn := dropout_rnn c; dropout_rnn_output := dropout_rnn_output c;
     concat_rnn_layers := concat_rnn_layers c; rnn_type := rnn_type c;
     rnn_padding := rnn_padding c; doc_self_attn_flag := doc_self_attn_flag c;
     question_merge := question_merge c; span_dependency := b;
     word_dropout := word_dropout c; dropout_emb := dropout_emb c;
     dropout_ff := dropout_ff c |}.

Definition with_question_merge (qm : string) (c : Config) : Config :=
  {| char_embed := char_embed c; fix_embeddings := fix_embeddings c;
     char_layer_kind := char_layer_kind c; dropout_char := dropout_char c;
     variational_dropout := variational_dropout c;
     filter_height := filter_height c; use_qemb := use_qemb c;
     num_features := num_features c; resize_rnn_input := resize_rnn_input c;
     hidden_size := hidden_size c; num_layers := num_layers c;
     dropout_rnn := dropout_rnn c; dropout_rnn_output := dropout_rnn_output c;
     concat_rnn_layers := concat_rnn_layers c; rnn_type := rnn_type c;
     rnn_padding := rnn_padding c; doc_self_attn_flag := doc_self_attn_flag c;
     question_merge := qm; span_dependency := span_dependency c;
     word_dropout := word_dropout c; dropout_emb := dropout_emb c;
     dropout_ff := dropout_ff c |}.

Definition with_resize_rnn_input (b : bool) (c : Config) : Config :=
  {| char_embed := char_embed c; fix_embeddings := fix_embeddings c;
     char_layer_kind := char_layer_kind c; dropout_char := dropout_char c;
     variational_dropout := variational_dropout c;
     filter_height := filter_height c; use_qemb := use_qemb c;
     num_features := num_features c; resize_rnn_input := b;
     hidden_size := hidden_size c; num_layers := num_layers c;
     dropout_rnn := dropout_rnn c; dropout_rnn_output := dropout_rnn_output c;
     concat_rnn_layers := concat_rnn_layers c; rnn_type := rnn_type c;
     rnn_padding := rnn_padding c; doc_self_attn_flag := doc_self_attn_flag c;
     question_merge := question_merge c; span_dependency := span_dependency c;
     word_dropout := word_dropout c; dropout_emb := dropout_emb c;
     dropout_ff := dropout_ff c |}.

Definition with_rnn_type (k : string) (c : Config) : Config :=
  {| char_embed := char_embed c; fix_embeddings := fix_embeddings c;
     char_layer_kind := char_layer_kind c; dropout_char := dropout_char c;
     variational_dropout := variational_dropout c;
     filter_height := filter_height c; use_qemb := use_qemb c;
     num_features := num_features c; resize_rnn_input := resize_rnn_input c;
     hidden_size := hidden_size c; num_layers := num_layers c;
     dropout_rnn := dropout_rnn c; dropout_rnn_output := dropout_rnn_output c;
     concat_rnn_layers := concat_rnn_layers c; rnn_type := k;
     rnn_padding := rnn_padding c; doc_self_attn_flag := doc_self_attn_flag c;
     question_merge := question_merge c; span_dependency := span_dependency c;
     word_dropout := word_dropout c; dropout_emb := dropout_emb c;
     dropout_ff := dropout_ff c |}.

Definition with_num_features (n : Z) (c : Config) : Config :=
  {| char_embed := char_embed c; fix_embeddings := fix_embeddings c;
     char_layer_kind := char_layer_kind c; dropout_char := dropout_char c;
     variational_dropout := variational_dropout c;
     filter_height := filter_height c; use_qemb := use_qemb c;
     num_features := n; resize_rnn_input := resize_rnn_input c;
     hidden_size := hidden_size c; num_layers := num_layers c;
     dropout_rnn := dropout_rnn c; dropout_rnn_output := dropout_rnn_output c;
     concat_rnn_layers := concat_rnn_layers c; rnn_type := rnn_type c;
     rnn_padding := rnn_padding c; doc_self_attn_flag := doc_self_attn_flag c;
     question_merge := question_merge c; span_dependency := span_dependency c;
     word_dropout := word_dropout c; dropout_emb := dropout_emb c;
     dropout_ff := dropout_ff c |}.

Definition with_dropout_ff (p : Q) (c : Config) : Config :=
  {| char_embed := char_embed c; fix_embeddings := fix_embeddings c;
     char_layer_kind := char_layer_kind c; dropout_char := dropout_char c;
     variational_dropout := variational_dropout c;
     filter_height := filter_height c; use_qemb := use_qemb c;
     num_features := num_features c; resize_rnn_input := resize_rnn_input c;
     hidden_size := hidden_size c; num_layers := num_layers c;
     dropout_rnn := dropout_rnn c; dropout_rnn_output := dropout_rnn_output c;
     concat_rnn_layers := concat_rnn_layers c; rnn_type := rnn_type c;
     rnn_padding := rnn_padding c; doc_self_attn_flag := doc_self_attn_flag c;
     question_merge := question_merge c; span_dependency := span_dependency c;
     word_dropout := word_dropout c; dropout_emb := dropout_emb c;
     dropout_ff := p |}.

Definition with_hidden_size (n : Z) (c : Config) : Config :=
  {| char_embed := char_embed c; fix_embeddings := fix_embeddings c;
     char_layer_kind := char_layer_kind c; dropout_char := dropout_char c;
     variational_dropout := variational_dropout c;
     filter_height := filter_height c; use_qemb := use_qemb c;
     num_features := num_features c; resize_rnn_input := resize_rnn_input c;
     hidden_size := n; num_layers := num_layers c;
     dropout_rnn := dropout_rnn c; dropout_rnn_output := dropout_rnn_output c;
     concat_rnn_layers := concat_rnn_layers c; rnn_type := rnn_type c;
     rnn_padding := rnn_padding c; doc_self_attn_flag := doc_self_attn_flag c;
     question_merge := question_merge c; span_dependency := span_dependency c;
     word_dropout := word_dropout c; dropout_emb := dropout_emb c;
     dropout_ff := dropout_ff c |}.

(** The model with its [config] replaced, sub-modules kept. *)
Definition with_config (c : Config) (self : DrQA) : DrQA :=
  {| config := c; w_embedding := w_embedding self;
     char_layer := char_layer self; qemb_match := qemb_match self;
     doc_linear := doc_linear self; q_linear := q_linear self;
     doc_rnn := doc_rnn self; question_rnn := question_rnn self;
     doc_self_attn := doc_self_attn self; self_attn := self_attn self;
     start_attn := start_attn self; end_attn := end_attn self |}.

(** ** The module tree and its parameters *)

Definition optional_child {A} (name : string) (wrap : A -> Module) (v : option A)
    : list (string * Module) :=
  match v with Some m => [(name, wrap m)] | None => [] end.

(** The sub-modules that [__init__] builds, in the order of their
    registration. *)
Definition built_children (self : DrQA) : list (string * Module) :=
  optional_child "char_layer" MCharEmbeddingLayer (char_layer self)
  ++ optional_child "qemb_match" MSeqAttnMatch (qemb_match self)
  ++ optional_child "doc_linear" MLinear (doc_linear self)
  ++ optional_child "q_linear" MLinear (q_linear self)
  ++ [("doc_rnn", MStackedBRNN (doc_rnn self));
      ("question_rnn", MStackedBRNN (question_rnn self))]
  ++ optional_child "doc_self_attn" MSeqAttnMatch (doc_self_attn self)
  ++ optional_child "self_attn" MLinearSeqAttn (self_attn self)
  ++ [("start_attn", MBilinearSeqAttn (start_attn self));
      ("end_attn", MBilinearSeqAttn (end_attn self))].

(** [self.named_children()]: the word embedding handed to the constructor
    is registered first. *)
Definition named_children (self : DrQA) : list (string * Module) :=
  ("w_embedding", MEmbedding (w_embedding self)) :: built_children self.

(** [self.parameters()], given the parameters each layer of [src.layers]
    owns. *)
Definition DrQA_parameters (layer_parameters : string * Module -> list loc)
    (self : DrQA) : list loc :=
  flat_map (fun nm => match nm.2 with
                      | MEmbedding e => Embedding_parameters e
                      | _ => layer_parameters nm
                      end)
           (named_children self).

(** ** What a constructor call leaves behind *)

(** The heap a constructor call leaves behind. *)
Definition heap_after_init (cfg : Config) (w : Embedding) (h : gmap loc Param)
    : gmap loc Param :=
  if fix_embeddings cfg then alter (set_requires_grad false) (weight w) h else h.

(** A step of the constructor that leaves the heap as it found it. *)
Definition keeps_ctor_heap {A} (c : M CtorState A) : Prop :=
  forall s, c_heap (c s).2 = c_heap s.

(** The freezing of the word embedding goes through: it is not asked
    for, or the weight is a leaf. *)
Definition can_freeze (cfg : Config) (w : Embedding) (h : gmap loc Param) : bool :=
  negb (fix_embeddings cfg && not_leaf h (weight w)).

(** The attributes set before the document encoder is built. *)
Definition names_before_encoders (cfg : Config) : list string :=
  (if negb (Z.eqb (char_embed cfg) 0) then ["char_layer"] else [])
  ++ (if use_qemb cfg then ["qemb_match"] else [])
  ++ (if resize_rnn_input cfg then ["doc_linear"; "q_linear"] else []).


(** What a returned model holds, attribute by attribute, with the widths
    written as the constructor computes them. *)
Definition built_as (cfg : Config) (w : Embedding) (c : option Embedding)
    (cls : RnnClass) (m : DrQA) : Prop :=
  let emb := embedding_dim w + char_embed cfg in
  let doc_in := if use_qemb cfg then emb + num_features cfg + emb
                else emb + num_features cfg in
  let enc := if concat_rnn_layers cfg then 2 * hidden_size cfg * num_layers cfg
             else 2 * hidden_size cfg in
  let doc_w := if doc_self_attn_flag cfg then enc + enc else enc in
  let brnn input :=
    {| brnn_input_size := input;
       brnn_hidden_size := hidden_size cfg;
       brnn_num_layers := num_layers cfg;
       brnn_dropout_rate := dropout_rnn cfg;
       brnn_dropout_output := dropout_rnn_output cfg;
       brnn_variational_dropout := variational_dropout cfg;
       brnn_concat_layers := concat_rnn_layers cfg;
       brnn_rnn_type := cls;
       brnn_padding := rnn_padding cfg;
       brnn_bidirectional := true |} in
  config m = cfg /\ w_embedding m = w /\
  char_layer m =
    (if negb (Z.eqb (char_embed cfg) 0) then
       Some {| cel_char_embedding := c;
               cel_input_size := char_embed cfg;
               cel_hidden_size := char_embed cfg;
               cel_layer_type := char_layer_kind cfg;
               cel_dropout := dropout_char cfg;
               cel_variational_dropout := variational_dropout cfg;
               cel_filter_height := filter_height cfg |}
     else None) /\
  qemb_match m = (if use_qemb cfg then Some {| sam_input_size := emb |} else None) /\
  doc_linear m =
    (if resize_rnn_input cfg
     then Some {| in_features := doc_in; out_features := hidden_size cfg; bias := true |}
     else None) /\
  q_linear m =
    (if resize_rnn_input cfg
     then Some {| in_features := emb; out_features := hidden_size cfg; bias := true |}
     else None) /\
  doc_rnn m = brnn (if resize_rnn_input cfg then hidden_size cfg else doc_in) /\
  question_rnn m = brnn (if resize_rnn_input cfg then hidden_size cfg else emb) /\
  doc_self_attn m =
    (if doc_self_attn_flag cfg then Some {| sam_input_size := enc |} else None) /\
  self_attn m =
    (if String.eqb (question_merge cfg) "self_attn"
     then Some {| lsa_input_size := enc |} else None) /\
  start_attn m = {| x_size := doc_w; y_size := enc |} /\
  end_attn m = {| x_size := doc_w;
                  y_size := if span_dependency cfg then enc + doc_w else enc |}.

(** The sub-modules that a constructor call asks for, each with what its
    constructor is called with. *)
Definition planned_char_layer (cfg : Config) (c : option Embedding)
    : option CharEmbeddingLayer :=
  if negb (Z.eqb (char_embed cfg) 0) then
    Some {| cel_char_embedding := c;
            cel_input_size := char_embed cfg;
            cel_hidden_size := char_embed cfg;
            cel_layer_type := char_layer_kind cfg;
            cel_dropout := dropout_char cfg;
            cel_variational_dropout := variational_dropout cfg;
            cel_filter_height := filter_height cfg |}
  else None.

Definition planned_qemb_match (cfg : Config) (w : Embedding) : option SeqAttnMatch :=
  if use_qemb cfg
  then Some {| sam_input_size := embedding_dim w + char_embed cfg |}
  else None.

Definition planned_doc_input (cfg : Config) (w : Embedding) : Z :=
  let emb := embedding_dim w + char_embed cfg in
  if use_qemb cfg then emb + num_features cfg + emb else emb + num_features cfg.

Definition planned_doc_linear (cfg : Config) (w : Embedding) : option Linear :=
  if resize_rnn_input cfg
  then Some {| in_features := planned_doc_input cfg w;
               out_features := hidden_size cfg; bias := true |}
  else None.

Definition planned_q_linear (cfg : Config) (w : Embedding) : option Linear :=
  if resize_rnn_input cfg
  then Some {| in_features := embedding_dim w + char_embed cfg;
               out_features := hidden_size cfg; bias := true |}
  else None.

Definition planned_brnn (cfg : Config) (cls : RnnClass) (input : Z) : StackedBRNN :=
  {| brnn_input_size := input;
     brnn_hidden_size := hidden_size cfg;
     brnn_num_layers := num_layers cfg;
     brnn_dropout_rate := dropout_rnn cfg;
     brnn_dropout_output := dropout_rnn_output cfg;
     brnn_variational_dropout := variational_dropout cfg;
     brnn_concat_layers := concat_rnn_layers cfg;
     brnn_rnn_type := cls;
     brnn_padding := rnn_padding cfg;
     brnn_bidirectional := true |}.

Definition planned_encoder_output (cfg : Config) : Z :=
  if concat_rnn_layers cfg then 2 * hidden_size cfg * num_layers cfg
  else 2 * hidden_size cfg.

Definition planned_doc_hidden (cfg : Config) : Z :=
  if doc_self_attn_flag cfg
  then planned_encoder_output cfg + planned_encoder_output cfg
  else planned_encoder_output cfg.

(** The model that a constructor call assembles when nothing fails. *)
Definition planned (cfg : Config) (w : Embedding) (c : option Embedding)
    (cls : RnnClass) : DrQA :=
  {| config := cfg;
     w_embedding := w;
     char_layer := planned_char_layer cfg c;
     qemb_match := planned_qemb_match cfg w;
     doc_linear := planned_doc_linear cfg w;
     q_linear := planned_q_linear cfg w;
     doc_rnn := planned_brnn cfg cls (if resize_rnn_input cfg then hidden_size cfg
                                      else planned_doc_input cfg w);
     question_rnn := planned_brnn cfg cls (if resize_rnn_input cfg then hidden_size cfg
                                           else embedding_dim w + char_embed cfg);
     doc_self_attn :=
       (if doc_self_attn_flag cfg
        then Some {| sam_input_size := planned_encoder_output cfg |} else None);
     self_attn :=
       (if String.eqb (question_merge cfg) "self_attn"
        then Some {| lsa_input_size := planned_encoder_output cfg |} else None);
     start_attn := {| x_size := planned_doc_hidden cfg;
                      y_size := planned_encoder_output cfg |};
     end_attn := {| x_size := planned_doc_hidden cfg;
                    y_size := if span_dependency cfg
                              then planned_encoder_output cfg + planned_doc_hidden cfg
                              else planned_encoder_output cfg |} |}.

(** The sub-modules asked for before the document encoder, ... *)
Definition planned_before_encoders (cfg : Config) (w : Embedding)
    (c : option Embedding) : list (string * Module) :=
  optional_child "char_layer" MCharEmbeddingLayer (planned_char_layer cfg c)
  ++ optional_child "qemb_match" MSeqAttnMatch (planned_qemb_match cfg w)
  ++ optional_child "doc_linear" MLinear (planned_doc_linear cfg w)
  ++ optional_child "q_linear" MLinear (planned_q_linear cfg w).

(** ... before the merge policy is checked, ... *)
Definition planned_before_merge_check (cfg : Config) (w : Embedding)
    (c : option Embedding) (cls : RnnClass) : list (string * Module) :=
  planned_before_encoders cfg w c
  ++ [("doc_rnn", MStackedBRNN (doc_rnn (planned cfg w c cls)));
      ("question_rnn", MStackedBRNN (question_rnn (planned cfg w c cls)))]
  ++ optional_child "doc_self_attn" MSeqAttnMatch (doc_self_attn (planned cfg w c cls)).

(** ... and in all. *)
Definition planned_children (cfg : Config) (w : Embedding) (c : option Embedding)
    (cls : RnnClass) : list (string * Module) :=
  built_children (planned cfg w c cls).

(** The constructor of each of these sub-modules returns. *)
Definition constructible (children : list (string * Module)) : Prop :=
  Forall (fun nm => construct nm.2 = Ok tt) children.

(** ** The widths as the specification derives them *)

Definition spec_embedding_width (c : Config) (w : Embedding) : Z :=
  embedding_dim w + char_embed c.

Definition spec_doc_input_width (c : Config) (w : Embedding) : Z :=
  if resize_rnn_input c then hidden_size c
  else spec_embedding_width c w
       + (if use_qemb c then spec_embedding_width c w else 0)
       + num_features c.

Definition spec_question_input_width (c : Config) (w : Embedding) : Z :=
  if resize_rnn_input c then hidden_size c else spec_embedding_width c w.

Definition spec_encoder_output_width (c : Config) : Z :=
  2 * hidden_size c * (if concat_rnn_layers c then num_layers c else 1).

Definition spec_question_width (c : Config) : Z := spec_encoder_output_width c.

Definition spec_doc_width (c : Config) : Z :=
  if doc_self_attn_flag c then spec_encoder_output_width c + spec_question_width c
  else spec_encoder_output_width c.

Definition spec_end_question_width (c : Config) : Z :=
  if span_dependency c then spec_question_width c + spec_doc_width c
  else spec_question_width c.

(** ** The pieces of torch that [forward] uses *)

Definition size_mismatch {A} : Res A :=
  Raise (RuntimeError "The size of tensor a must match the size of tensor b").

(** Combine two tensors along one axis; the sizes must agree. *)
Fixpoint zip_res {A B C} (f : A -> B -> Res C) (xs : list A) (ys : list B)
    : Res (list C) :=
  match xs, ys with
  | [], [] => Ok []
  | x :: xs', y :: ys' => c ← f x y; cs ← zip_res f xs' ys'; Ok (c :: cs)
  | _, _ => size_mismatch
  end.

(** One axis of a broadcasting binary operation: equal sizes, or one of the
    two sizes is 1 and that slice is repeated. *)
Definition broadcast {A B C} (f : A -> B -> Res C) (xs : list A) (ys : list B)
    : Res (list C) :=
  if Nat.eqb (length xs) (length ys) then zip_res f xs ys
  else match xs, ys with
       | [x], _ => map_res (f x) ys
       | _, [y] => map_res (fun x => f x y) xs
       | _, _ => size_mismatch
       end.

(** One axis of an assignment [target[...] = src]: only [src] may be
    repeated. The result has the size of [target]. *)
Definition expand_to {A B C} (f : A -> B -> Res C) (target : list A) (src : list B)
    : Res (list C) :=
  if Nat.eqb (length src) (length target) then zip_res f target src
  else match src with
       | [y] => map_res (fun x => f x y) target
       | _ => size_mismatch
       end.

(** [torch.cat([a, b], 2)] on 3-d tensors. *)
Definition cat2 (a b : Tensor3) : Res Tensor3 :=
  zip_res (zip_res (fun u v => Ok (u ++ v)%list)) a b.

(** [torch.cat([a, b], 1)] on 2-d tensors. *)
Definition cat1 (a b : Tensor2) : Res Tensor2 :=
  zip_res (fun u v => Ok (u ++ v)%list) a b.

(** [F.relu] *)
Definition F_relu (t : Tensor3) : Tensor3 := map (map (map s_relu)) t.

(** [t.exp()] on a 2-d tensor. *)
Definition exp2 (t : Tensor2) : Tensor2 := map (map s_exp) t.

(** [t.unsqueeze(2)] on a 2-d tensor. *)
Definition unsqueeze2 (t : Tensor2) : Tensor3 := map (map (fun x => [x])) t.

(** [a * b] on 3-d tensors, with broadcasting on every axis. *)
Definition mul3 (a b : Tensor3) : Res Tensor3 :=
  broadcast (broadcast (broadcast (fun x y => Ok (s_mul x y)))) a b.

(** Sum of a matrix over its first axis: entry [j] adds up column [j]. *)
Definition sum_axis0 (rows : list (list R)) : list R :=
  match rows with
  | [] => []
  | r :: _ =>
      map (fun j => fold_left s_add (map (fun row => nth j row s_zero) rows) s_zero)
          (seq 0 (length r))
  end.

(** [t.sum(1)] on a 3-d tensor. *)
Definition sum1 (t : Tensor3) : Tensor2 := map sum_axis0 t.

(** Row [i] of an embedding weight. *)
Definition embedding_row (w : Tensor2) (i : Z) : Res (list R) :=
  if i <? 0 then Raise IndexError
  else match w !! Z.to_nat i with
       | Some row => Ok row
       | None => Raise IndexError
       end.

(** [weight[1:, :] = x]: rows 1.. are overwritten, row 0 is kept. *)
Definition assign_rows_from_1 (w x : Tensor2) : Res Tensor2 :=
  rest ← expand_to (expand_to (fun _ v => Ok v)) (drop 1 w) x;
  Ok (take 1 w ++ rest)%list.

(** ** State of a forward call *)

(** The generator of torch's pseudo-random numbers. [bernoulli q g] draws
    one bit that is [true] with probability [q]. *)
Context {Rng : Type} (bernoulli : Q -> Rng -> bool * Rng).

Record FwdState : Type := {
  rng : Rng;
  f_heap : gmap loc Param
}.

(** A computation that may draw random numbers and may raise. *)
Definition Rand (A : Type) : Type := Rng -> Res A * Rng.

Definition lift_rand {A} (c : Rand A) : M FwdState A :=
  fun s => let '(r, g) := c (rng s) in (r, {| rng := g; f_heap := f_heap s |}).

Definition read_param (l : loc) : M FwdState Param :=
  fun s => match f_heap s !! l with
           | Some p => (Ok p, s)
           | None => (Raise (RuntimeError "dangling parameter"), s)
           end.

Definition write_param (l : loc) (p : Param) : M FwdState unit :=
  fun s => (Ok tt, {| rng := rng s; f_heap := <[l := p]> (f_heap s) |}).

(** [e(input)] for an [nn.Embedding] [e]. *)
Definition Embedding_forward (e : Embedding) (input : LongTensor2)
    : M FwdState Tensor3 :=
  p ← read_param (weight e);
  lift_res (map_res (map_res (embedding_row (data p))) input).

(** [e.weight[1:, :] = x], for a right-hand side that requires grad or
    not. The shapes are checked first. In grad mode autograd then refuses
    the write when the weight is a leaf that requires grad, and records it
    when the right-hand side requires grad: the weight gets a [grad_fn] and
    requires grad from then on. *)
Definition Embedding_assign_rows_from_1 (grad_enabled : bool) (e : Embedding)
    (x : Tensor2) (x_requires_grad : bool) : M FwdState unit :=
  p ← read_param (weight e);
  w' ← lift_res (assign_rows_from_1 (data p) x);
  if grad_enabled && requires_grad p && negb (grad_fn p) then
    raise (RuntimeError
             "a view of a leaf Variable that requires grad is being used in an in-place operation.")
  else
    let recorded := grad_enabled && x_requires_grad in
    write_param (weight e) {| data := w';
                              requires_grad := requires_grad p || recorded;
                              grad_fn := grad_fn p || recorded |}.

(** One element of [F.dropout] in training mode: kept with probability
    [1 - p] and rescaled, else zeroed. *)
Definition dropout_elem (p : Q) (x : R) : M FwdState R :=
  keep ← lift_rand (fun g => let '(b, g') := bernoulli (1 - p)%Q g in (Ok b, g'));
  mret (if keep : bool then s_div x (s_of_Q (1 - p)%Q) else s_zero).

(** [F.dropout(input, p, training)] *)
Definition F_dropout (input : Tensor3) (p : Q) (training : bool)
    : M FwdState Tensor3 :=
  if negb (Qle_bool 0 p && Qle_bool p 1) then
    raise (ValueError "dropout probability has to be between 0 and 1")
  else if training then mapM (mapM (mapM (dropout_elem p))) input
  else mret input.

(** The default of [F.dropout]'s parameter [p]. *)
Definition F_dropout_default_p : Q := (1 # 2)%Q.

(** ** The interface of [src.layers] *)

(** Forward functions of the layer classes, the module-level functions
    the model calls, and the forward function of [nn.Linear]. A layer is
    identified by the attribute of the model it is stored in and by what it
    was built with. Each is a computation on the state of the call: its
    weights are in the heap, and it may draw random numbers. A layer takes
    the [training] flag of the module tree. The character layer also takes
    the grad mode, and says whether the encodings it returns require
    grad. *)
Record Layers : Type := {
  layers_dropout : Tensor3 -> Q -> list nat -> bool -> M FwdState Tensor3;
  CharEmbeddingLayer_forward :
    CharEmbeddingLayer -> bool -> bool -> LongTensor2 -> Mask2
    -> M FwdState (Tensor2 * bool);
  SeqAttnMatch_forward :
    string -> SeqAttnMatch -> bool -> Tensor3 -> Tensor3 -> Mask2 -> M FwdState Tensor3;
  StackedBRNN_forward :
    string -> StackedBRNN -> bool -> Tensor3 -> Mask2 -> M FwdState Tensor3;
  LinearSeqAttn_forward :
    LinearSeqAttn -> bool -> Tensor3 -> Mask2 -> M FwdState Tensor2;
  BilinearSeqAttn_forward :
    string -> BilinearSeqAttn -> bool -> Tensor3 -> Tensor2 -> Mask2
    -> M FwdState Tensor2;
  uniform_weights : Tensor3 -> Mask2 -> M FwdState Tensor2;
  weighted_avg : Tensor3 -> Tensor2 -> M FwdState Tensor2;
  Linear_forward : string -> Linear -> Tensor3 -> M FwdState Tensor3
}.

Context (L : Layers).

(** ** [DrQA.forward] *)

(** The example dict [ex]. Keys that are only read under a configuration
    switch are optional; reading an absent key raises [KeyError]. *)
Record Example : Type := {
  xq : LongTensor2;
  xq_mask : Mask2;
  xd : LongTensor2;
  xd_f : option Tensor3;
  xd_mask : Mask2;
  targets : list Z;
  chunk_targets : list Z;
  c_emb : option LongTensor2;
  c_emb_mask : option Mask2;
  c_layer_lookup : option Embedding;
  xqc : option LongTensor2;
  xdc : option LongTensor2
}.

(** The returned dict. *)
Record Output : Type := {
  score_s : Tensor2;
  score_e : Tensor2;
  out_targets : list Z;                (* 'targets' *)
  chunk_target_acc : R;
  chunk_any_acc : R
}.

(** [ex[k]] *)
Definition key {A} (k : string) (v : option A) : M FwdState A :=
  match v with Some a => mret a | None => raise (KeyError k) end.

(** [self.<a>] for an attribute set under an [if] of the constructor. *)
Definition attr {A} (a : string) (v : option A) : M FwdState A :=
  match v with Some x => mret x | None => raise (AttributeError a) end.

(** Lines 124-129: word embeddings of question and document, with dropout. *)
Definition embed_words (self : DrQA) (training : bool) (ex : Example)
    : M FwdState (Tensor3 * Tensor3) :=
  xq_emb ← Embedding_forward (w_embedding self) (xq ex);
  xd_emb ← Embedding_forward (w_embedding self) (xd ex);
  let shared_axes := if word_dropout (config self) then [2%nat] else [] in
  xq_emb ← layers_dropout L xq_emb (dropout_emb (config self)) shared_axes training;
  xd_emb ← layers_dropout L xd_emb (dropout_emb (config self)) shared_axes training;
  mret (xq_emb, xd_emb).

(** Lines 134-141: character embeddings. The encodings of the unique words
    are written into rows 1.. of the lookup embedding of the example, which
    then serves both question and document. *)
Definition embed_chars (self : DrQA) (training grad_enabled : bool) (ex : Example)
    (xq_emb xd_emb : Tensor3) : M FwdState (Tensor3 * Tensor3) :=
  if 0 <? char_embed (config self) then
    cl ← attr "char_layer" (char_layer self);
    ce ← key "c_emb" (c_emb ex);
    cm ← key "c_emb_mask" (c_emb_mask ex);
    '(xc_rep, xc_requires_grad) ←
      CharEmbeddingLayer_forward L cl training grad_enabled ce cm;
    (* Copy weights into lookup nn.embedding (leave index-0 padding-index) *)
    lookup ← key "c_layer_lookup" (c_layer_lookup ex);
    _ ← Embedding_assign_rows_from_1 grad_enabled lookup xc_rep xc_requires_grad;
    lookup ← key "c_layer_lookup" (c_layer_lookup ex);
    qc ← key "xqc" (xqc ex);
    xqc_emb ← Embedding_forward lookup qc;
    lookup ← key "c_layer_lookup" (c_layer_lookup ex);
    dc ← key "xdc" (xdc ex);
    xdc_emb ← Embedding_forward lookup dc;
    xq_emb ← lift_res (cat2 xq_emb xqc_emb);
    xd_emb ← lift_res (cat2 xd_emb xdc_emb);
    mret (xq_emb, xd_emb)
  else mret (xq_emb, xd_emb).

(** Lines 144-151: attention-weighted question representation and manual
    features, appended to each document token. *)
Definition augment_document (self : DrQA) (training : bool) (ex : Example)
    (xq_emb xd_emb : Tensor3) : M FwdState Tensor3 :=
  drnn_input ←
    (if use_qemb (config self) then
       qm ← attr "qemb_match" (qemb_match self);
       xq_weighted_emb ← SeqAttnMatch_forward L "qemb_match" qm training
                                              xd_emb xq_emb (xq_mask ex);
       lift_res (cat2 xd_emb xq_weighted_emb)
     else mret xd_emb);
  if 0 <? num_features (config self) then
    f ← key "xd_f" (xd_f ex);
    lift_res (cat2 drnn_input f)
  else mret drnn_input.

(** Lines 154-159: projection of both inputs to the hidden width. *)
Definition project_inputs (self : DrQA) (training : bool)
    (drnn_input xq_emb : Tensor3) : M FwdState (Tensor3 * Tensor3) :=
  if resize_rnn_input (config self) then
    dl ← attr "doc_linear" (doc_linear self);
    drnn_input ← Linear_forward L "doc_linear" dl drnn_input;
    let drnn_input := F_relu drnn_input in
    ql ← attr "q_linear" (q_linear self);
    xq_emb ← Linear_forward L "q_linear" ql xq_emb;
    let xq_emb := F_relu xq_emb in
    if negb (Qle_bool (dropout_ff (config self)) 0) then
      drnn_input ← F_dropout drnn_input F_dropout_default_p training;
      xq_emb ← F_dropout xq_emb F_dropout_default_p training;
      mret (drnn_input, xq_emb)
    else mret (drnn_input, xq_emb)
  else mret (drnn_input, xq_emb).

(** Lines 162-167: document encoder and document self attention. *)
Definition encode_document (self : DrQA) (training : bool) (ex : Example)
    (drnn_input : Tensor3) : M FwdState Tensor3 :=
  doc_hiddens ← StackedBRNN_forward L "doc_rnn" (doc_rnn self) training
                                     drnn_input (xd_mask ex);
  if doc_self_attn_flag (config self) then
    sa ← attr "doc_self_attn" (doc_self_attn self);
    xd_weighted_emb ← SeqAttnMatch_forward L "doc_self_attn" sa training
                                           doc_hiddens doc_hiddens (xd_mask ex);
    lift_res (cat2 doc_hiddens xd_weighted_emb)
  else mret doc_hiddens.

(** Lines 170-175: question encoder and merge of its hidden states. *)
Definition encode_question (self : DrQA) (training : bool) (ex : Example)
    (xq_emb : Tensor3) : M FwdState Tensor2 :=
  question_hiddens ← StackedBRNN_forward L "question_rnn" (question_rnn self)
                                          training xq_emb (xq_mask ex);
  q_merge_weights ←
    (if String.eqb (question_merge (config self)) "avg" then
       uniform_weights L question_hiddens (xq_mask ex)
     else if String.eqb (question_merge (config self)) "self_attn" then
       sa ← attr "self_attn" (self_attn self);
       LinearSeqAttn_forward L sa training question_hiddens (xq_mask ex)
     else raise (UnboundLocalError "q_merge_weights"));
  weighted_avg L question_hiddens q_merge_weights.

(** Lines 179-180: the question vector handed to the end scorer. *)
Definition end_question_vector (self : DrQA) (doc_hiddens : Tensor3)
    (question_hidden start_scores : Tensor2) : Res Tensor2 :=
  if span_dependency (config self) then
    weighted ← mul3 doc_hiddens (unsqueeze2 (exp2 start_scores));
    cat1 question_hidden (sum1 weighted)
  else Ok question_hidden.

(** Line 183: [(ex['chunk_targets'] >= 0).float().sum() / len(ex['chunk_targets'])] *)
Definition chunk_acc_of (chunk_targets : list Z) : R :=
  s_div (fold_left s_add
           (map (fun t => if 0 <=? t then s_one else s_zero) chunk_targets) s_zero)
        (s_of_nat (length chunk_targets)).

(** Lines 124-178: everything up to and including the start scores. *)
Definition forward_start (self : DrQA) (training grad_enabled : bool) (ex : Example)
    : M FwdState (Tensor3 * Tensor2 * Tensor2) :=
  '(xq_emb, xd_emb) ← embed_words self training ex;
  '(xq_emb, xd_emb) ← embed_chars self training grad_enabled ex xq_emb xd_emb;
  drnn_input ← augment_document self training ex xq_emb xd_emb;
  '(drnn_input, xq_emb) ← project_inputs self training drnn_input xq_emb;
  doc_hiddens ← encode_document self training ex drnn_input;
  question_hidden ← encode_question self training ex xq_emb;
  (* Predict start and end positions *)
  start_scores ← BilinearSeqAttn_forward L "start_attn" (start_attn self)
                                         training doc_hiddens question_hidden (xd_mask ex);
  mret (doc_hiddens, question_hidden, start_scores).

Definition forward (self : DrQA) (training grad_enabled : bool) (ex : Example)
    : M FwdState Output :=
  '(doc_hiddens, question_hidden, start_scores) ←
    forward_start self training grad_enabled ex;
  question_hidden ← lift_res (end_question_vector self doc_hiddens question_hidden
                                                  start_scores);
  end_scores ← BilinearSeqAttn_forward L "end_attn" (end_attn self)
                                       training doc_hiddens question_hidden (xd_mask ex);
  let chunk_acc := chunk_acc_of (chunk_targets ex) in
  mret {| score_s := start_scores;
          score_e := end_scores;
          out_targets := targets ex;
          chunk_target_acc := chunk_acc;
          chunk_any_acc := chunk_acc |}.

(** ** Contracts of the layers, and the specification's notions *)

(** The sizes of the two leading axes of a tensor: one length per row. *)
Definition lengths {A} (t : list (list A)) : list nat := map length t.

Definition shape2 {A} (b l : nat) (t : list (list A)) : Prop :=
  length t = b /\ Forall (fun r => length r = l) t.

Definition shape3 {A} (b l w : nat) (t : list (list (list A))) : Prop :=
  length t = b /\ Forall (shape2 l w) t.

Definition scale (c : R) (v : list R) : list R := map (s_mul c) v.

Definition vadd (u v : list R) : list R := zip_with s_add u v.

(** The expected document vector of one example under its start
    distribution: the sum over positions [i] of [exp(logp_i) * doc_i]. *)
Definition spec_expected_document (width : nat) (doc : list (list R))
    (logp : list R) : list R :=
  fold_left vadd (zip_with (fun p d => scale (s_exp p) d) logp doc)
            (repeat s_zero width).

(** The number of examples whose chunk target is not negative. *)
Definition count_valid (chunk_targets : list Z) : nat :=
  length (List.filter (fun t => 0 <=? t) chunk_targets).

(** Counting in the scalars is exact up to [bound]: adding a one or a zero
    to the image of a natural number below [bound] stays in the image of
    the naturals. In IEEE single precision this holds up to [2^24]. *)
Definition counts_exactly (bound : nat) : Prop :=
  s_of_nat 0 = s_zero /\
  (forall n, (n < bound)%nat -> s_add (s_of_nat n) s_one = s_of_nat (S n)) /\
  (forall n, (n < bound)%nat -> s_add (s_of_nat n) s_zero = s_of_nat n).

(** The layers on the document path return one vector per input position:
    dropout, projection, encoder, and the span scorers one score per
    document position. *)
Definition keeps_lengths : Prop :=
  (forall x p axes tr s y s',
     layers_dropout L x p axes tr s = (Ok y, s') -> lengths y = lengths x) /\
  (forall n l x s y s', Linear_forward L n l x s = (Ok y, s') -> lengths y = lengths x) /\
  (forall n m tr x k s y s',
     StackedBRNN_forward L n m tr x k s = (Ok y, s') -> lengths y = lengths x) /\
  (forall n m tr x q k s y s',
     BilinearSeqAttn_forward L n m tr x q k s = (Ok y, s') -> lengths y = lengths x).

(** [y] is [x] after dropout with keep probability [keep]: every element
    is zeroed, or divided by [keep]. *)
Definition dropped_from (keep : Q) (y x : Tensor3) : Prop :=
  Forall2 (Forall2 (Forall2 (fun b a => b = s_zero \/ b = s_div a (s_of_Q keep)))) y x.

(** Dropout with keep probability [keep] as the words have it: one draw
    of the generator for each element, in the order of the elements; the
    draw is [true] with probability [keep]; the element is then divided by
    [keep], and zeroed otherwise. *)
Definition spec_dropout_elem (keep : Q) (x : R) (g : Rng) : R * Rng :=
  let '(b, g') := bernoulli keep g in
  (if b then s_div x (s_of_Q keep) else s_zero, g').

Fixpoint thread {A B} (f : A -> Rng -> B * Rng) (xs : list A) (g : Rng)
    : list B * Rng :=
  match xs with
  | [] => ([], g)
  | x :: xs' =>
      let '(y, g1) := f x g in
      let '(ys, g2) := thread f xs' g1 in
      (y :: ys, g2)
  end.

Definition spec_dropout (keep : Q) (t : Tensor3) (g : Rng) : Tensor3 * Rng :=
  thread (thread (thread (spec_dropout_elem keep))) t g.

(** A computation that leaves the heap as it found it. *)
Definition keeps_heap {A} (c : M FwdState A) : Prop :=
  forall s, f_heap (c s).2 = f_heap s.

(** No layer writes to a parameter in its forward pass. *)
Definition layers_write_nothing : Prop :=
  (forall x p axes tr, keeps_heap (layers_dropout L x p axes tr)) /\
  (forall cl tr gr ce cm, keeps_heap (CharEmbeddingLayer_forward L cl tr gr ce cm)) /\
  (forall n m tr x y k, keeps_heap (SeqAttnMatch_forward L n m tr x y k)) /\
  (forall n m tr x k, keeps_heap (StackedBRNN_forward L n m tr x k)) /\
  (forall m tr x k, keeps_heap (LinearSeqAttn_forward L m tr x k)) /\
  (forall n m tr x y k, keeps_heap (BilinearSeqAttn_forward L n m tr x y k)) /\
  (forall x k, keeps_heap (uniform_weights L x k)) /\
  (forall x ws, keeps_heap (weighted_avg L x ws)) /\
  (forall n l x, keeps_heap (Linear_forward L n l x)).

(** Two heaps that differ at most at [lk], and there in rows 1.. of the
    data, in content only, not in shape; the flags of the parameter at [lk]
    are the same in both or, in grad mode only, [h'] has it require grad
    and gives it a [grad_fn]. *)
Definition heap_sim (grad_enabled : bool) (lk : loc) (h h' : gmap loc Param) : Prop :=
  (forall l, l <> lk -> h' !! l = h !! l) /\
  match h !! lk, h' !! lk with
  | Some p, Some p' =>
      ((requires_grad p' = requires_grad p /\ grad_fn p' = grad_fn p) \/
       (grad_enabled = true /\ requires_grad p' = true /\ grad_fn p' = true)) /\
      take 1 (data p') = take 1 (data p) /\
      lengths (drop 1 (data p')) = lengths (drop 1 (data p))
  | None, None => True
  | _, _ => False
  end.

(** A computation whose outcome and final heap depend on the heap it
    starts from only, not on the generator. *)
Definition rng_independent {A} (c : M FwdState A) : Prop :=
  forall s1 s2, f_heap s1 = f_heap s2 ->
    (c s1).1 = (c s2).1 /\ f_heap (c s1).2 = f_heap (c s2).2.

(** Evaluation mode: with [training] off no layer of [src.layers] uses
    random numbers for what it returns or writes; the module-level
    functions and [nn.Linear] never do. *)
Definition eval_deterministic : Prop :=
  (forall x p axes, rng_independent (layers_dropout L x p axes false)) /\
  (forall cl gr ce cm,
     rng_independent (CharEmbeddingLayer_forward L cl false gr ce cm)) /\
  (forall n m x y k, rng_independent (SeqAttnMatch_forward L n m false x y k)) /\
  (forall n m x k, rng_independent (StackedBRNN_forward L n m false x k)) /\
  (forall m x k, rng_independent (LinearSeqAttn_forward L m false x k)) /\
  (forall n m x y k, rng_independent (BilinearSeqAttn_forward L n m false x y k)) /\
  (forall x k, rng_independent (uniform_weights L x k)) /\
  (forall x ws, rng_independent (weighted_avg L x ws)) /\
  (forall n l x, rng_independent (Linear_forward L n l x)).

(** ** Notions for the properties beyond the claims *)

(** The exceptions of a model whose attributes do not fit its
    configuration: a sub-module that [forward] wants and [__init__] did not
    build, or a merge policy that [forward] does not know. *)
Definition structural_error (e : Err) : bool :=
  match e with
  | AttributeError _ | UnboundLocalError _ => true
  | _ => false
  end.

Definition res_avoids {A} (r : Res A) : Prop :=
  forall e, r = Raise e -> structural_error e = false.

Definition avoids {A} (c : M FwdState A) : Prop :=
  forall s e s', c s = (Raise e, s') -> structural_error e = false.

(** The layers raise no such exception of their own. *)
Definition layers_avoid_structural_errors : Prop :=
  (forall x p axes tr, avoids (layers_dropout L x p axes tr)) /\
  (forall cl tr gr ce cm, avoids (CharEmbeddingLayer_forward L cl tr gr ce cm)) /\
  (forall n m tr x y k, avoids (SeqAttnMatch_forward L n m tr x y k)) /\
  (forall n m tr x k, avoids (StackedBRNN_forward L n m tr x k)) /\
  (forall m tr x k, avoids (LinearSeqAttn_forward L m tr x k)) /\
  (forall n m tr x y k, avoids (BilinearSeqAttn_forward L n m tr x y k)) /\
  (forall x k, avoids (uniform_weights L x k)) /\
  (forall x ws, avoids (weighted_avg L x ws)) /\
  (forall n l x, avoids (Linear_forward L n l x)).

(** Two examples that agree on every key that [forward] reads under the
    configuration [c]: the features count only when [num_features] is
    positive, the character keys only when [char_embed] is. *)
Definition same_read_keys (c : Config) (ex ex' : Example) : Prop :=
  xq ex' = xq ex /\ xq_mask ex' = xq_mask ex /\
  xd ex' = xd ex /\ xd_mask ex' = xd_mask ex /\
  targets ex' = targets ex /\ chunk_targets ex' = chunk_targets ex /\
  (0 < num_features c -> xd_f ex' = xd_f ex) /\
  (0 < char_embed c ->
   c_emb ex' = c_emb ex /\ c_emb_mask ex' = c_emb_mask ex /\
   c_layer_lookup ex' = c_layer_lookup ex /\
   xqc ex' = xqc ex /\ xdc ex' = xdc ex).

(** A computation whose final heap is related to its initial heap,
    whatever its outcome. *)
Definition runs_within {A} (rel : gmap loc Param -> gmap loc Param -> Prop)
    (c : M FwdState A) : Prop :=
  forall s, rel (f_heap s) (f_heap (c s).2).

(** Every vector of the tensor has [w] entries. *)
Definition width2 (w : Z) (t : Tensor2) : Prop :=
  Forall (fun v => Z.of_nat (length v) = w) t.

Definition width3 (w : Z) (t : Tensor3) : Prop := Forall (width2 w) t.

(** The widths the layers return: dropout keeps the width of its input,
    the attention matcher returns vectors of the width it was built for,
    the projection vectors of its output width. *)
Definition layer_widths : Prop :=
  (forall x p axes tr s y s' w,
     layers_dropout L x p axes tr s = (Ok y, s') -> width3 w x -> width3 w y) /\
  (forall n m tr x y k s z s',
     SeqAttnMatch_forward L n m tr x y k s = (Ok z, s') ->
     width3 (sam_input_size m) z) /\
  (forall n l x s y s',
     Linear_forward L n l x s = (Ok y, s') -> width3 (out_features l) y).

(** The outcome of a computation does not depend on the parameter at
    [lk], nor on the generator. *)
Definition reads_not {A} (lk : loc) (c : M FwdState A) : Prop :=
  forall s1 s2, (forall l, l <> lk -> f_heap s1 !! l = f_heap s2 !! l) ->
    (c s1).1 = (c s2).1.

End Model.

(** ** A small instance of the interfaces

    Rational scalars, a generator that reads its bits from a list, and
    layers that respect the shapes and widths of the real ones. The
    instance is used to run the model on concrete examples. *)

#[global] Instance Q_scalar : Scalar Q := {|
  s_zero := 0%Q;
  s_one := 1%Q;
  s_add := Qplus;
  s_mul := Qmult;
  s_div := Qdiv;
  s_exp := fun x => Qpower (2 # 1) (Qfloor x);
  s_relu := fun x => if Qle_bool 0 x then x else 0%Q;
  s_of_nat := fun n => inject_Z (Z.of_nat n);
  s_of_Q := fun q => q
|}.

Definition toy_bernoulli (q : Q) (g : list bool) : bool * list bool :=
  match g with
  | b :: g' => (b, g')
  | [] => (true, [])
  end.

Definition vsum (v : list Q) : Q := fold_left Qplus v 0%Q.

Definition width_is (n : Z) (t : list (list (list Q))) : bool :=
  forallb (forallb (fun v => Z.of_nat (length v) =? n)) t.

Definition width_error {A} : Res A :=
  Raise (RuntimeError "input has the wrong number of features").

(** In training mode one bit decides whether the whole tensor is dropped. *)
Definition toy_dropout (x : list (list (list Q))) (p : Q) (shared_axes : list nat)
    (training : bool) : Rand (Rng:=list bool) (list (list (list Q))) :=
  fun g =>
    if training then
      let '(keep, g') := toy_bernoulli (1 - p)%Q g in
      (Ok (if keep then x else map (map (map (fun _ => 0%Q))) x), g')
    else (Ok x, g).

(** The character layer looks the characters of each word up in its
    character embedding and adds them up. Its encodings require grad when
    the character embedding does, in grad mode. *)
Definition toy_char_layer (cl : CharEmbeddingLayer) (training grad_enabled : bool)
    (c_emb : list (list Z)) (c_emb_mask : list (list bool))
    : M (FwdState (R:=Q) (Rng:=list bool)) (list (list Q) * bool) :=
  match cel_char_embedding cl with
  | Some e =>
      p ← read_param (weight e);
      chars ← lift_res (map_res (map_res (embedding_row (data p))) c_emb);
      mret (map (fun word => repeat (vsum (concat word))
                                    (Z.to_nat (cel_hidden_size cl))) chars,
            grad_enabled && requires_grad p)
  | None => raise (ValueError "no character embedding")
  end.

Definition toy_seq_attn_match (name : string) (m : SeqAttnMatch) (training : bool)
    (x y : list (list (list Q))) (y_mask : list (list bool))
    : Rand (Rng:=list bool) (list (list (list Q))) :=
  fun g =>
    (if width_is (sam_input_size m) x && width_is (sam_input_size m) y
     then zip_res (fun xb yb => Ok (map (fun _ => sum_axis0 yb) xb)) x y
     else width_error, g).

Definition toy_brnn (name : string) (m : StackedBRNN) (training : bool)
    (x : list (list (list Q))) (x_mask : list (list bool))
    : Rand (Rng:=list bool) (list (list (list Q))) :=
  fun g =>
    let width := 2 * brnn_hidden_size m
                 * (if brnn_concat_layers m then brnn_num_layers m else 1) in
    (if width_is (brnn_input_size m) x
     then Ok (map (map (fun v => repeat (vsum v) (Z.to_nat width))) x)
     else width_error, g).

Definition toy_linear_seq_attn (m : LinearSeqAttn) (training : bool)
    (x : list (list (list Q))) (x_mask : list (list bool))
    : Rand (Rng:=list bool) (list (list Q)) :=
  fun g =>
    (if width_is (lsa_input_size m) x
     then Ok (map (map (fun _ => 1%Q)) x)
     else width_error, g).

Definition toy_bilinear_seq_attn (name : string) (m : BilinearSeqAttn)
    (training : bool) (x : list (list (list Q))) (y : list (list Q))
    (x_mask : list (list bool)) : Rand (Rng:=list bool) (list (list Q)) :=
  fun g =>
    (if width_is (x_size m) x && forallb (fun v => Z.of_nat (length v) =? y_size m) y
     then zip_res (fun xb yb =>
                     Ok (map (fun xv => inject_Z (- (Qfloor (vsum xv * vsum yb) mod 3)))
                             xb)) x y
     else width_error, g).

Definition toy_uniform_weights (x : list (list (list Q))) (x_mask : list (list bool))
    : Res (list (list Q)) :=
  Ok (map (map (fun _ => 1%Q)) x).

Definition toy_weighted_avg (x : list (list (list Q))) (weights : list (list Q))
    : Res (list (list Q)) :=
  zip_res (fun xb wb =>
             rows ← zip_res (fun xv wi => Ok (map (Qmult wi) xv)) xb wb;
             Ok (sum_axis0 rows)) x weights.

Definition toy_linear (name : string) (l : Linear) (x : list (list (list Q)))
    : Res (list (list (list Q))) :=
  if width_is (in_features l) x
  then Ok (map (map (fun v => repeat (vsum v) (Z.to_nat (out_features l)))) x)
  else width_error.

Definition toy_layers : Layers (R:=Q) (Rng:=list bool) := {|
  layers_dropout := fun x p axes tr => lift_rand (toy_dropout x p axes tr);
  CharEmbeddingLayer_forward := toy_char_layer;
  SeqAttnMatch_forward := fun n m tr x y k => lift_rand (toy_seq_attn_match n m tr x y k);
  StackedBRNN_forward := fun n m tr x k => lift_rand (toy_brnn n m tr x k);
  LinearSeqAttn_forward := fun m tr x k => lift_rand (toy_linear_seq_attn m tr x k);
  BilinearSeqAttn_forward :=
    fun n m tr x y k => lift_rand (toy_bilinear_seq_attn n m tr x y k);
  uniform_weights := fun x k => lift_res (toy_uniform_weights x k);
  weighted_avg := fun x ws => lift_res (toy_weighted_avg x ws);
  Linear_forward := fun n l x => lift_res (toy_linear n l x)
|}.

(** Constructors that refuse a negative size. *)
Definition toy_size_check (sizes : list Z) : Res unit :=
  if forallb (fun n => 0 <=? n) sizes then Ok tt
  else Raise (ValueError "negative size").

Definition toy_inits : LayerInits := {|
  CharEmbeddingLayer_init := fun d => toy_size_check [cel_input_size d; cel_hidden_size d];
  SeqAttnMatch_init := fun d => toy_size_check [sam_input_size d];
  StackedBRNN_init :=
    fun d => toy_size_check [brnn_input_size d; brnn_hidden_size d; brnn_num_layers d];
  LinearSeqAttn_init := fun d => toy_size_check [lsa_input_size d];
  BilinearSeqAttn_init := fun d => toy_size_check [x_size d; y_size d]
|}.

(** A configuration with every optional stage switched on. *)
Definition toy_config : Config := {|
  char_embed := 1;
  fix_embeddings := true;
  char_layer_kind := "cnn";
  dropout_char := 0%Q;
  variational_dropout := false;
  filter_height := 3;
  use_qemb := true;
  num_features := 1;
  resize_rnn_input := true;
  hidden_size := 2;
  num_layers := 1;
  dropout_rnn := 0%Q;
  dropout_rnn_output := false;
  concat_rnn_layers := true;
  rnn_type := "lstm";
  rnn_padding := false;
  doc_self_attn_flag := true;
  question_merge := "avg";
  span_dependency := true;
  word_dropout := false;
  dropout_emb := (3 # 10)%Q;
  dropout_ff := (3 # 10)%Q
|}.

(** Word embedding of three words of width 2 at location 1, character
    embedding at location 2, per-call lookup table at location 3. *)
Definition toy_w_embedding : Embedding :=
  {| num_embeddings := 3; embedding_dim := 2; weight := 1%positive |}.

Definition toy_c_embedding : Embedding :=
  {| num_embeddings := 4; embedding_dim := 1; weight := 2%positive |}.

Definition toy_lookup : Embedding :=
  {| num_embeddings := 3; embedding_dim := 1; weight := 3%positive |}.

Definition toy_heap : gmap loc (Param (R:=Q)) :=
  {[ 1%positive := {| data := [[0; 0]; [1; 2]; [3; 4]]%Q; requires_grad := true;
                      grad_fn := false |};
     2%positive := {| data := [[0]; [1]; [2]; [3]]%Q; requires_grad := true;
                      grad_fn := false |};
     3%positive := {| data := [[0]; [9]; [9]]%Q; requires_grad := false;
                      grad_fn := false |} ]}.

Definition toy_ctor_state : CtorState (R:=Q) :=
  {| c_heap := toy_heap; c_built := [] |}.

(** Two examples: documents of four tokens, questions of two. *)
Definition toy_example : Example (R:=Q) := {|
  xq := [[1; 2]; [2; 2]];
  xq_mask := [[false; false]; [false; false]];
  xd := [[1; 2; 1; 0]; [2; 1; 2; 2]];
  xd_f := Some [[[1]; [0]; [1]; [0]]; [[0]; [0]; [1]; [1]]]%Q;
  xd_mask := [[false; false; false; true]; [false; false; false; false]];
  targets := [1; 3];
  chunk_targets := [0; -1];
  c_emb := Some [[1; 2]; [3; 0]];
  c_emb_mask := Some [[false; false]; [false; true]];
  c_layer_lookup := Some toy_lookup;
  xqc := Some [[1; 2]; [2; 2]];
  xdc := Some [[1; 2; 1; 0]; [2; 1; 2; 2]]
|}.

(** An optimiser step on the toy heap: every trainable weight gets one more
    row; frozen ones are skipped. *)
Definition toy_update (h : gmap loc (Param (R:=Q))) : gmap loc (Param (R:=Q)) :=
  (fun p => if requires_grad p
            then {| data := [] :: data p; requires_grad := true; grad_fn := grad_fn p |}
            else p) <$> h.

(** The model that [toy_config] yields. *)
Definition toy_brnn_desc : StackedBRNN :=
  {| brnn_input_size := 2; brnn_hidden_size := 2; brnn_num_layers := 1;
     brnn_dropout_rate := 0%Q; brnn_dropout_output := false;
     brnn_variational_dropout := false; brnn_concat_layers := true;
     brnn_rnn_type := nn_LSTM; brnn_padding := false;
     brnn_bidirectional := true |}.

Definition toy_model : DrQA := {|
  config := toy_config;
  w_embedding := toy_w_embedding;
  char_layer :=
    Some {| cel_char_embedding := Some toy_c_embedding; cel_input_size := 1;
            cel_hidden_size := 1; cel_layer_type := "cnn"; cel_dropout := 0%Q;
            cel_variational_dropout := false; cel_filter_height := 3 |};
  qemb_match := Some {| sam_input_size := 3 |};
  doc_linear := Some {| in_features := 7; out_features := 2; bias := true |};
  q_linear := Some {| in_features := 3; out_features := 2; bias := true |};
  doc_rnn := toy_brnn_desc;
  question_rnn := toy_brnn_desc;
  doc_self_attn := Some {| sam_input_size := 4 |};
  self_attn := None;
  start_attn := {| x_size := 8; y_size := 4 |};
  end_attn := {| x_size := 8; y_size := 12 |}
|}.

Definition toy_model_of (c : Config) : Res DrQA :=
  (DrQA_init toy_inits c toy_w_embedding (Some toy_c_embedding) toy_ctor_state).1.

Definition toy_fwd_state (g : list bool) : FwdState (R:=Q) (Rng:=list bool) :=
  {| rng := g;
     f_heap := (DrQA_init toy_inits toy_config toy_w_embedding (Some toy_c_embedding)
                          toy_ctor_state).2.(c_heap) |}.

(** The state the toy model is run from, and the outcome of a run in
    evaluation mode, with grad mode on. *)
Definition toy_state : FwdState (R:=Q) (Rng:=list bool) := toy_fwd_state [].

Definition toy_output : Output (R:=Q) :=
  Eval vm_compute in
    match (forward toy_bernoulli toy_layers toy_model false true toy_example
                   toy_state).1 with
    | Ok out => out
    | Raise _ => {| score_s := []; score_e := []; out_targets := [];
                    chunk_target_acc := 0%Q; chunk_any_acc := 0%Q |}
    end.

Definition toy_final_state : FwdState (R:=Q) (Rng:=list bool) :=
  (forward toy_bernoulli toy_layers toy_model false true toy_example toy_state).2.

(** The same with span dependency switched off. *)
Definition toy_model_no_sd : DrQA :=
  Eval vm_compute in
    match toy_model_of (with_span_dependency false toy_config) with
    | Ok m => m
    | Raise _ => toy_model
    end.

Definition toy_output_no_sd : Output (R:=Q) :=
  Eval vm_compute in
    match (forward toy_bernoulli toy_layers toy_model_no_sd false true toy_example
                   toy_state).1 with
    | Ok out => out
    | Raise _ => toy_output
    end.

(** The example without its features. *)
Definition toy_example_no_features : Example (R:=Q) := {|
  xq := xq toy_example;
  xq_mask := xq_mask toy_example;
  xd := xd toy_example;
  xd_f := None;
  xd_mask := xd_mask toy_example;
  targets := targets toy_example;
  chunk_targets := chunk_targets toy_example;
  c_emb := c_emb toy_example;
  c_emb_mask := c_emb_mask toy_example;
  c_layer_lookup := c_layer_lookup toy_example;
  xqc := xqc toy_example;
  xdc := xdc toy_example
|}.

(** Layers that also check the width of what they return. *)
Definition toy_seq_attn_match_strict (name : string) (m : SeqAttnMatch)
    (training : bool) (x y : list (list (list Q))) (y_mask : list (list bool))
    : Rand (Rng:=list bool) (list (list (list Q))) :=
  fun g =>
    match toy_seq_attn_match name m training x y y_mask g with
    | (Ok z, g') => (if width_is (sam_input_size m) z then Ok z else width_error, g')
    | (Raise e, g') => (Raise e, g')
    end.

Definition toy_linear_strict (name : string) (l : Linear) (x : list (list (list Q)))
    : Res (list (list (list Q))) :=
  match toy_linear name l x with
  | Ok y => if width_is (out_features l) y then Ok y else width_error
  | Raise e => Raise e
  end.

Definition toy_layers_strict : Layers (R:=Q) (Rng:=list bool) := {|
  layers_dropout := layers_dropout toy_layers;
  CharEmbeddingLayer_forward := CharEmbeddingLayer_forward toy_layers;
  SeqAttnMatch_forward :=
    fun n m tr x y k => lift_rand (toy_seq_attn_match_strict n m tr x y k);
  StackedBRNN_forward := StackedBRNN_forward toy_layers;
  LinearSeqAttn_forward := LinearSeqAttn_forward toy_layers;
  BilinearSeqAttn_forward := BilinearSeqAttn_forward toy_layers;
  uniform_weights := uniform_weights toy_layers;
  weighted_avg := weighted_avg toy_layers;
  Linear_forward := fun n l x => lift_res (toy_linear_strict n l x)
|}.

(** The document representation, question summary and start scores of the
    toy run, and the question vector for its end scorer. *)
Definition toy_start : list (list (list Q)) * list (list Q) * list (list Q) :=
  Eval vm_compute in
    match (forward_start toy_bernoulli toy_layers toy_model false true toy_example
                         toy_state).1 with
    | Ok r => r
    | Raise _ => ([], [], [])
    end.

Definition toy_end_vector : list (list Q) :=
  Eval vm_compute in
    match end_question_vector toy_model toy_start.1.1 toy_start.1.2 toy_start.2 with
    | Ok q => q
    | Raise _ => []
    end.

(** The state of the toy run, but with a lookup table whose weight is a
    trainable leaf, as [nn.Embedding] creates it. *)
Definition toy_state_trainable_lookup : FwdState (R:=Q) (Rng:=list bool) :=
  {| rng := [];
     f_heap := <[weight toy_lookup :=
                   {| data := [[0]; [9]; [9]]%Q; requires_grad := true;
                      grad_fn := false |}]> (f_heap toy_state) |}.

(** An example of three unique words whose lookup table is the character
    embedding of the model itself. *)
Definition toy_example_aliased : Example (R:=Q) := {|
  xq := xq toy_example;
  xq_mask := xq_mask toy_example;
  xd := xd toy_example;
  xd_f := xd_f toy_example;
  xd_mask := xd_mask toy_example;
  targets := targets toy_example;
  chunk_targets := chunk_targets toy_example;
  c_emb := Some [[1; 2]; [3; 0]; [1; 1]];
  c_emb_mask := Some [[false; false]; [false; true]; [false; false]];
  c_layer_lookup := Some toy_c_embedding;
  xqc := xqc toy_example;
  xdc := xdc toy_example
|}.

(** * Properties *)

(** ** The monad *)

Lemma bind_run {S A B} (c : M S A) (f : A -> M S B) (s : S) :
  (c ≫= f) s = match c s with
               | (Ok a, s1) => f a s1
               | (Raise e, s1) => (Raise e, s1)
               end.
Proof. reflexivity. Qed.

Lemma bind_ok_inv {S A B} (c : M S A) (f : A -> M S B) (s s2 : S) (b : B) :
  (c ≫= f) s = (Ok b, s2) ->
  exists a s1, c s = (Ok a, s1) /\ f a s1 = (Ok b, s2).
Proof.
  rewrite bind_run. destruct (c s) as [[a|e] s1]; [eauto | discriminate].
Qed.

Lemma ret_ok_inv {S A} (a b : A) (s s' : S) :
  mret (M := M S) a s = (Ok b, s') -> b = a /\ s' = s.
Proof. intros [= -> ->]. auto. Qed.

(** ** The constructor *)

(** The configuration, key by key. *)
Ltac init_flags cfg :=
  destruct cfg as [ce fe clk dc vd fh uq nf rs hs nl dr dro cat rt rp dsa qm sd wd de dff];
  cbn [char_embed fix_embeddings char_layer_kind dropout_char variational_dropout
       filter_height use_qemb num_features resize_rnn_input hidden_size num_layers
       dropout_rnn dropout_rnn_output concat_rnn_layers rnn_type rnn_padding
       doc_self_attn_flag question_merge span_dependency word_dropout dropout_emb
       dropout_ff] in *.

(** One step of the constructor in a hypothesis: the freezing of the word
    embedding or the constructor call of a sub-module, whichever comes
    first, has returned. *)
Ltac init_step H :=
  match type of H with
  | context [not_leaf ?h ?l] => destruct (not_leaf h l) eqn:?
  | context [construct ?I ?m] => destruct (construct I m) as [[]|?] eqn:?
  end;
  cbv beta iota delta [c_heap c_built] in H; try discriminate H.

Ltac init_run H :=
  cbv [mbind mret M_bind M_ret raise build for_each Embedding_parameters freeze negb
       c_heap c_built] in H;
  repeat init_step H; try discriminate H.

Section ConstructorRuns.
Context {R : Type} `{Scalar R} (Inits : LayerInits).
Implicit Types (cfg : Config) (w : Embedding) (c : option Embedding).
Implicit Types (s : CtorState (R:=R)) (m : DrQA).

Lemma built_as_planned cfg w c cls m :
  built_as cfg w c cls m <-> m = planned cfg w c cls.
Proof.
  unfold built_as, planned, planned_char_layer, planned_qemb_match, planned_doc_linear,
    planned_q_linear, planned_brnn, planned_doc_input, planned_encoder_output,
    planned_doc_hidden.
  split.
  - destruct m. cbn.
    intros (-> & -> & -> & -> & -> & -> & -> & -> & -> & -> & -> & ->). reflexivity.
  - intros ->. cbn. repeat split.
Qed.

(** Inversion of a successful construction. *)
Lemma DrQA_init_ok cfg w c s m s' :
  DrQA_init Inits cfg w c s = (Ok m, s') ->
  exists cls, _RNN_TYPES !! rnn_type cfg = Some cls /\
              question_merge_supported (question_merge cfg) = true /\
              can_freeze cfg w (c_heap s) = true /\
              c_heap s' = heap_after_init cfg w (c_heap s) /\
              c_built s' = c_built s ++ built_children m /\
              built_as cfg w c cls m /\
              constructible Inits (built_children m).
Proof.
  intros Hi. unfold DrQA_init, can_freeze, heap_after_init, built_as in *.
  destruct s as [h0 b0]. init_flags cfg.
  destruct (_RNN_TYPES !! rt) as [cls|] eqn:Hrt;
    [|destruct fe, (Z.eqb ce 0), uq, rs; init_run Hi].
  exists cls. split; [reflexivity|].
  destruct (question_merge_supported qm) eqn:Hqm;
    [|destruct fe, (Z.eqb ce 0), uq, rs, dsa; init_run Hi].
  split; [reflexivity|].
  destruct fe, (Z.eqb ce 0) eqn:Hce, uq, rs, dsa, (String.eqb qm "self_attn") eqn:Hsa;
    init_run Hi.
  all: injection Hi as <- <-; cbn.
  all: split;
    [try match goal with Hn : not_leaf _ _ = false |- _ => rewrite Hn end; reflexivity|].
  all: split; [reflexivity|].
  all: split; [rewrite <- ?app_assoc; reflexivity|].
  all: split; [auto 20|].
  all: unfold constructible; cbn; repeat (constructor; [assumption|]); constructor.
Qed.

(** The constructor, run: when the word embedding can be frozen and the
    constructors of the sub-modules on the way return, a [KeyError] for an
    unknown cell kind, else [NotImplementedError] for an unsupported merge
    policy, else the model; with the heap and the sub-modules built in each
    case. *)
Lemma DrQA_init_run cfg w c s :
  can_freeze cfg w (c_heap s) = true ->
  match _RNN_TYPES !! rnn_type cfg with
  | None =>
      constructible Inits (planned_before_encoders cfg w c) ->
      DrQA_init Inits cfg w c s
      = (Raise (KeyError (rnn_type cfg)),
         {| c_heap := heap_after_init cfg w (c_heap s);
            c_built := c_built s ++ planned_before_encoders cfg w c |})
  | Some cls =>
      if question_merge_supported (question_merge cfg) then
        constructible Inits (planned_children cfg w c cls) ->
        DrQA_init Inits cfg w c s
        = (Ok (planned cfg w c cls),
           {| c_heap := heap_after_init cfg w (c_heap s);
              c_built := c_built s ++ planned_children cfg w c cls |})
      else
        constructible Inits (planned_before_merge_check cfg w c cls) ->
        DrQA_init Inits cfg w c s
        = (Raise (NotImplementedError
                    (String.append "question_merge = " (question_merge cfg))),
           {| c_heap := heap_after_init cfg w (c_heap s);
              c_built := c_built s ++ planned_before_merge_check cfg w c cls |})
  end.
Proof.
  destruct s as [h0 b0].
  unfold DrQA_init, can_freeze, heap_after_init, constructible, planned_children,
    planned_before_merge_check, planned_before_encoders, built_children, planned,
    planned_char_layer, planned_qemb_match, planned_doc_linear, planned_q_linear,
    planned_brnn, planned_doc_input, planned_doc_hidden, planned_encoder_output.
  init_flags cfg.
  cbn [c_heap c_built config w_embedding char_layer qemb_match doc_linear q_linear
       doc_rnn question_rnn doc_self_attn self_attn start_attn end_attn].
  intros Hfz.
  destruct (_RNN_TYPES !! rt) as [cls|] eqn:Hrt;
    [destruct (question_merge_supported qm) eqn:Hqm;
     [destruct (String.eqb qm "self_attn") eqn:Hsa|]; destruct dsa|];
    destruct fe, (Z.eqb ce 0) eqn:Hce, uq, rs; cbn [negb andb] in Hfz;
    try (apply negb_true_iff in Hfz);
    cbn [optional_child app negb]; intros Hcon;
    repeat match goal with
      | Hc : Forall _ (_ :: _) |- _ => apply Forall_cons in Hc as [? Hc]; cbn [snd] in *
      end;
    cbv [mbind mret M_bind M_ret raise build for_each Embedding_parameters freeze negb
         c_heap c_built];
    rewrite ?Hfz;
    repeat match goal with
      | Hq : construct _ _ = Ok tt |- _ => rewrite Hq; clear Hq
      end;
    cbv beta iota; rewrite ?app_nil_r, <- ?app_assoc; reflexivity.
Qed.

End ConstructorRuns.

Section Constructor.
Context {R : Type} `{Scalar R} (Inits : LayerInits).
Implicit Types (cfg : Config) (w : Embedding) (c : option Embedding).
Implicit Types (s : CtorState (R:=R)) (m : DrQA).

Lemma keeps_ctor_ret {A} (a : A) : keeps_ctor_heap (R:=R) (mret a).
Proof. intros s. reflexivity. Qed.

Lemma keeps_ctor_raise {A} (e : Err) : keeps_ctor_heap (R:=R) (raise (A := A) e).
Proof. intros s. reflexivity. Qed.

Lemma keeps_ctor_bind {A B} (c : M (CtorState (R:=R)) A) (f : A -> M CtorState B) :
  keeps_ctor_heap c -> (forall a, keeps_ctor_heap (f a)) -> keeps_ctor_heap (c ≫= f).
Proof.
  intros Hc Hf s. rewrite bind_run. specialize (Hc s).
  destruct (c s) as [[a|e] s1]; cbn in *; [|exact Hc].
  rewrite Hf. exact Hc.
Qed.

Lemma keeps_ctor_build name (md : Module) : keeps_ctor_heap (R:=R) (build Inits name md).
Proof. intros s. unfold build. destruct (construct Inits md); reflexivity. Qed.

Ltac keeps_ctor_step :=
  first
    [ apply keeps_ctor_ret | apply keeps_ctor_raise | apply keeps_ctor_build
    | apply keeps_ctor_bind; [|intros ?]
    | match goal with
      | |- keeps_ctor_heap (if ?b then _ else _) => destruct b
      | |- keeps_ctor_heap (match ?p with pair _ _ => _ end) => destruct p
      | |- keeps_ctor_heap (match ?o with Some _ => _ | None => _ end) => destruct o
      end ].

(** The heap after a constructor call, whatever its outcome: when the
    word embedding cannot be frozen the call raises at once; otherwise
    nothing but the freezing has touched the heap. *)
Lemma DrQA_init_heap cfg w c s :
  if can_freeze cfg w (c_heap s)
  then c_heap (DrQA_init Inits cfg w c s).2 = heap_after_init cfg w (c_heap s)
  else DrQA_init Inits cfg w c s
       = (Raise (RuntimeError
                   "you can only change requires_grad flags of leaf variables."), s).
Proof.
  unfold DrQA_init, can_freeze, heap_after_init. cbv zeta.
  lazymatch goal with
  | |- context [(_ ≫= ?F) s] =>
      assert (Hk : forall u, keeps_ctor_heap (F u)) by (intros u; repeat keeps_ctor_step)
  end.
  rewrite !bind_run.
  destruct (fix_embeddings cfg); cbn [andb negb].
  - cbn [for_each Embedding_parameters]. rewrite !bind_run. unfold freeze.
    destruct (not_leaf (c_heap s) (weight w)); cbn [negb]; [reflexivity|].
    cbn [mret M_ret]. rewrite (Hk tt). reflexivity.
  - cbn [mret M_ret]. apply (Hk tt).
Qed.


(** The widths of the sub-modules of a returned model. *)
Lemma DrQA_init_ok_widths cfg w c s m s' :
  DrQA_init Inits cfg w c s = (Ok m, s') ->
  sam_input_size <$> qemb_match m =
    (if use_qemb cfg then Some (spec_embedding_width cfg w) else None) /\
  in_features <$> q_linear m =
    (if resize_rnn_input cfg then Some (spec_embedding_width cfg w) else None) /\
  in_features <$> doc_linear m =
    (if resize_rnn_input cfg
     then Some (spec_doc_input_width (with_resize_rnn_input false cfg) w)
     else None) /\
  out_features <$> doc_linear m =
    (if resize_rnn_input cfg then Some (hidden_size cfg) else None) /\
  out_features <$> q_linear m =
    (if resize_rnn_input cfg then Some (hidden_size cfg) else None) /\
  brnn_input_size (doc_rnn m) = spec_doc_input_width cfg w /\
  brnn_input_size (question_rnn m) = spec_question_input_width cfg w /\
  sam_input_size <$> doc_self_attn m =
    (if doc_self_attn_flag cfg then Some (spec_encoder_output_width cfg) else None) /\
  lsa_input_size <$> self_attn m =
    (if String.eqb (question_merge cfg) "self_attn"
     then Some (spec_question_width cfg) else None) /\
  x_size (start_attn m) = spec_doc_width cfg /\
  y_size (start_attn m) = spec_question_width cfg /\
  x_size (end_attn m) = spec_doc_width cfg /\
  y_size (end_attn m) = spec_end_question_width cfg.
Proof.
  intros Hi.
  apply DrQA_init_ok in Hi as (cls & _ & _ & _ & _ & _ & Hm & _).
  destruct Hm as (_ & _ & _ & -> & -> & -> & -> & -> & -> & -> & -> & ->).
  unfold spec_doc_input_width, spec_question_input_width, spec_end_question_width,
    spec_doc_width, spec_question_width, spec_encoder_output_width,
    spec_embedding_width, with_resize_rnn_input.
  cbn.
  destruct (use_qemb cfg), (resize_rnn_input cfg), (doc_self_attn_flag cfg),
    (concat_rnn_layers cfg), (span_dependency cfg),
    (String.eqb (question_merge cfg) "self_attn");
    cbn; repeat split; try reflexivity; try (f_equal; lia); lia.
Qed.

(** C2. For a supported merge policy and a known cell kind the constructor
    returns a model, when the word embedding can be frozen and the
    constructors of the sub-modules return on the widths they are called
    with; and the widths it hands to the sub-modules are those the
    specification derives: the per-token embedding width goes to the
    question matcher and to the input sides of both projections, the
    encoder input widths to the two encoders, the encoder output width to
    the self attentions, and the document, question and end-question
    widths to the two span scorers. The constructor being a function, every
    model it returns is this one. *)
Theorem DrQA_init_widths cfg w c s cls :
  _RNN_TYPES !! rnn_type cfg = Some cls ->
  question_merge_supported (question_merge cfg) = true ->
  can_freeze cfg w (c_heap s) = true ->
  constructible Inits (planned_children cfg w c cls) ->
  exists m s',
    DrQA_init Inits cfg w c s = (Ok m, s') /\
    sam_input_size <$> qemb_match m =
      (if use_qemb cfg then Some (spec_embedding_width cfg w) else None) /\
    in_features <$> q_linear m =
      (if resize_rnn_input cfg then Some (spec_embedding_width cfg w) else None) /\
    in_features <$> doc_linear m =
      (if resize_rnn_input cfg
       then Some (spec_doc_input_width (with_resize_rnn_input false cfg) w)
       else None) /\
    out_features <$> doc_linear m =
      (if resize_rnn_input cfg then Some (hidden_size cfg) else None) /\
    out_features <$> q_linear m =
      (if resize_rnn_input cfg then Some (hidden_size cfg) else None) /\
    brnn_input_size (doc_rnn m) = spec_doc_input_width cfg w /\
    brnn_input_size (question_rnn m) = spec_question_input_width cfg w /\
    sam_input_size <$> doc_self_attn m =
      (if doc_self_attn_flag cfg then Some (spec_encoder_output_width cfg) else None) /\
    lsa_input_size <$> self_attn m =
      (if String.eqb (question_merge cfg) "self_attn"
       then Some (spec_question_width cfg) else None) /\
    x_size (start_attn m) = spec_doc_width cfg /\
    y_size (start_attn m) = spec_question_width cfg /\
    x_size (end_attn m) = spec_doc_width cfg /\
    y_size (end_attn m) = spec_end_question_width cfg.
Proof.
  intros Hc Hs Hfz Hcon.
  pose proof (DrQA_init_run Inits cfg w c s Hfz) as Hrun.
  rewrite Hc, Hs in Hrun. specialize (Hrun Hcon).
  eexists _, _. split; [exact Hrun|].
  exact (DrQA_init_ok_widths _ _ _ _ _ _ Hrun).
Qed.

(** C6. A returned model always has the word embedding's weight among its
    parameters. With [fix_embeddings] the constructor clears the weight's
    [requires_grad] and leaves its data alone, so an update step that only
    touches trainable parameters leaves it as it is. Without
    [fix_embeddings] the constructor leaves the heap alone, and a weight
    that was trainable can be changed by such a step. *)
Theorem fix_embeddings_excludes_word_embedding cfg w c s m s'
    (layer_parameters : string * Module -> list loc)
    (update : gmap loc (Param (R:=R)) -> gmap loc (Param (R:=R))) :
  DrQA_init Inits cfg w c s = (Ok m, s') ->
  (forall h l p, h !! l = Some p -> requires_grad p = false -> update h !! l = Some p) ->
  (forall l, l ∈ Embedding_parameters w -> l ∈ DrQA_parameters layer_parameters m) /\
  (fix_embeddings cfg = true ->
   forall l p, l ∈ Embedding_parameters w -> c_heap s !! l = Some p ->
     c_heap s' !! l = Some (set_requires_grad false p) /\
     update (c_heap s') !! l = Some (set_requires_grad false p)) /\
  (fix_embeddings cfg = false ->
   c_heap s' = c_heap s /\
   forall l p, l ∈ Embedding_parameters w -> c_heap s !! l = Some p ->
     requires_grad p = true ->
     exists update' : gmap loc (Param (R:=R)) -> gmap loc (Param (R:=R)),
       (forall h l p, h !! l = Some p -> requires_grad p = false ->
                      update' h !! l = Some p) /\
       exists p', update' (c_heap s') !! l = Some p' /\ data p' <> data p).
Proof.
  intros Hi Hupd.
  destruct (DrQA_init_ok _ _ _ _ _ _ _ Hi) as (cls & _ & _ & _ & Hh & _ & Hm & _).
  destruct Hm as (_ & Hw & _).
  unfold heap_after_init in Hh. split; [|split].
  - intros l Hl. apply list_elem_of_singleton in Hl as ->.
    unfold DrQA_parameters, named_children. cbn. rewrite Hw.
    apply elem_of_cons. left. reflexivity.
  - intros Hf l p Hl Hp. apply list_elem_of_singleton in Hl as ->.
    rewrite Hf in Hh.
    assert (Hl' : c_heap s' !! weight w = Some (set_requires_grad false p)).
    { rewrite Hh, lookup_alter_eq, Hp. reflexivity. }
    split; [exact Hl'|]. apply Hupd; [exact Hl' | reflexivity].
  - intros Hf. rewrite Hf in Hh. split; [exact Hh|].
    intros l p Hl Hp Hg.
    exists (fmap (fun q => if requires_grad q
                           then {| data := [] :: data q; requires_grad := true;
                                   grad_fn := grad_fn q |}
                           else q)).
    split.
    + intros h l0 p0 Hl0 Hg0. rewrite lookup_fmap, Hl0. cbn. rewrite Hg0. reflexivity.
    + eexists. rewrite Hh, lookup_fmap, Hp. cbn. rewrite Hg.
      split; [reflexivity|]. cbn. intros E.
      apply (f_equal (@length _)) in E. cbn in E. lia.
Qed.

(** C9. With [fix_embeddings] the constructor clears [requires_grad] on
    the parameters of the word embedding and on nothing else: every other
    parameter in the heap is as it was. In particular the character
    embedding, which goes into the character layer as it was handed over,
    keeps its flag when it is not the word embedding itself. *)
Theorem fix_embeddings_freezes_only_word_embedding cfg w c s m s' :
  DrQA_init Inits cfg w c s = (Ok m, s') ->
  fix_embeddings cfg = true ->
  (forall l p, l ∈ Embedding_parameters w -> c_heap s' !! l = Some p ->
               requires_grad p = false) /\
  (forall l, l ∉ Embedding_parameters w -> c_heap s' !! l = c_heap s !! l) /\
  (char_embed cfg <> 0 ->
   exists cl, char_layer m = Some cl /\ cel_char_embedding cl = c /\
     forall ce p, c = Some ce -> weight ce <> weight w ->
       c_heap s !! weight ce = Some p -> requires_grad p = true ->
       c_heap s' !! weight ce = Some p).
Proof.
  intros Hi Hf.
  destruct (DrQA_init_ok _ _ _ _ _ _ _ Hi) as (cls & _ & _ & _ & Hh & _ & Hm & _).
  destruct Hm as (_ & _ & Hc & _).
  unfold heap_after_init in Hh. rewrite Hf in Hh.
  assert (Hframe : forall l, l ∉ Embedding_parameters w ->
                             c_heap s' !! l = c_heap s !! l).
  { intros l Hl. rewrite Hh. apply lookup_alter_ne.
    intros <-. apply Hl. apply list_elem_of_singleton. reflexivity. }
  split; [|split]; [|exact Hframe|].
  - intros l p Hl Hp. apply list_elem_of_singleton in Hl as ->.
    rewrite Hh, lookup_alter_eq in Hp.
    destruct (c_heap s !! weight w); cbn in Hp; [|discriminate].
    injection Hp as <-. reflexivity.
  - intros Hce. apply Z.eqb_neq in Hce. rewrite Hce in Hc. cbn in Hc.
    eexists. split; [exact Hc|]. split; [reflexivity|].
    intros ce p _ Hne Hp _. rewrite Hframe; [exact Hp|].
    intros Hin. apply list_elem_of_singleton in Hin. contradiction.
Qed.

(** *** More on the constructor *)

Lemma rnn_types_known (k : string) :
  is_Some (_RNN_TYPES !! k) <-> k ∈ ["lstm"; "gru"; "rnn"].
Proof.
  unfold _RNN_TYPES. rewrite !elem_of_cons, elem_of_nil.
  destruct (decide (k = "lstm")) as [->|]; [split; eauto|].
  destruct (decide (k = "gru")) as [->|]; [split; eauto|].
  destruct (decide (k = "rnn")) as [->|]; [split; eauto|].
  rewrite !lookup_insert_ne, lookup_singleton_ne by done.
  split; [intros [? [=]] | intros [|[|[|[]]]]; contradiction].
Qed.

Lemma question_merge_supported_spec (qm : string) :
  question_merge_supported qm = true <-> qm ∈ ["avg"; "self_attn"].
Proof. unfold question_merge_supported. apply bool_decide_eq_true. Qed.

(** X1. The constructor returns a model exactly when four things hold:
    the word embedding can be frozen (it is not asked for, or the weight is
    a leaf), [question_merge] is one of the two supported policies,
    [rnn_type] is a key of the cell-kind table, and the constructor of every
    sub-module that the configuration asks for returns on what it is called
    with. The code of [__init__] has no other way to raise. *)
Theorem DrQA_init_returns_iff cfg w c s :
  (exists m s', DrQA_init Inits cfg w c s = (Ok m, s')) <->
  can_freeze cfg w (c_heap s) = true /\
  question_merge cfg ∈ ["avg"; "self_attn"] /\
  exists cls, _RNN_TYPES !! rnn_type cfg = Some cls /\
              constructible Inits (planned_children cfg w c cls).
Proof.
  rewrite <- question_merge_supported_spec. split.
  - intros (m & s' & Hi).
    destruct (DrQA_init_ok _ _ _ _ _ _ _ Hi) as (cls & Hc & Hs & Hfz & _ & _ & Hm & Hcon).
    split; [exact Hfz|]. split; [exact Hs|]. exists cls. split; [exact Hc|].
    apply built_as_planned in Hm. subst m. exact Hcon.
  - intros (Hfz & Hs & cls & Hc & Hcon).
    pose proof (DrQA_init_run Inits cfg w c s Hfz) as Hrun.
    rewrite Hc, Hs in Hrun. eauto.
Qed.

(** X2. With an [rnn_type] that is not in the cell-kind table the
    constructor never returns a model, whatever [question_merge] is. When
    the word embedding can be frozen and the constructors of the
    sub-modules built before the encoders return, the exception is
    [KeyError(rnn_type)]; it comes when the document encoder is about to be
    built: the character layer, the question matcher and the two
    projections (each if enabled) exist by then, no encoder does. *)
Theorem DrQA_init_unknown_rnn_type cfg w c s :
  (rnn_type cfg ∉ ["lstm"; "gru"; "rnn"]) ->
  (exists e s', DrQA_init Inits cfg w c s = (Raise e, s')) /\
  (can_freeze cfg w (c_heap s) = true ->
   constructible Inits (planned_before_encoders cfg w c) ->
   exists s',
     DrQA_init Inits cfg w c s = (Raise (KeyError (rnn_type cfg)), s') /\
     c_built s' = c_built s ++ planned_before_encoders cfg w c /\
     map fst (c_built s') = map fst (c_built s) ++ names_before_encoders cfg /\
     ("doc_rnn" ∉ names_before_encoders cfg) /\
     ("question_rnn" ∉ names_before_encoders cfg)).
Proof.
  intros Hk. rewrite <- rnn_types_known in Hk.
  assert (Hn : _RNN_TYPES !! rnn_type cfg = None).
  { destruct (_RNN_TYPES !! rnn_type cfg); [exfalso; apply Hk; eauto | reflexivity]. }
  split.
  - destruct (DrQA_init Inits cfg w c s) as [[m|e] s'] eqn:Hi; [|eauto].
    apply DrQA_init_ok in Hi as (cls & Hc & _). congruence.
  - intros Hfz Hcon.
    pose proof (DrQA_init_run Inits cfg w c s Hfz) as Hrun. rewrite Hn in Hrun.
    eexists. split; [exact (Hrun Hcon)|]. cbn [c_built]. split; [reflexivity|].
    unfold planned_before_encoders, names_before_encoders, planned_char_layer,
      planned_qemb_match, planned_doc_linear, planned_q_linear.
    rewrite map_app.
    destruct (negb _), (use_qemb cfg), (resize_rnn_input cfg); cbn;
      (split; [reflexivity|]);
      split; intros Hin; repeat (apply elem_of_cons in Hin as [? | Hin]; [discriminate|]);
      apply elem_of_nil in Hin; exact Hin.
Qed.

(** X3. The structure of a returned model is fixed by the flags: each
    optional sub-module is there exactly when its switch is on (the
    character layer when [char_embed] is not 0, the question self attention
    when the merge policy is ["self_attn"]), the sub-modules were built in
    the order of the attributes, and the two encoders are built alike but
    for their input width. *)
Theorem DrQA_init_structure cfg w c s m s' :
  DrQA_init Inits cfg w c s = (Ok m, s') ->
  config m = cfg /\ w_embedding m = w /\
  c_built s' = c_built s ++ built_children m /\
  (is_Some (char_layer m) <-> char_embed cfg <> 0) /\
  (is_Some (qemb_match m) <-> use_qemb cfg = true) /\
  (is_Some (doc_linear m) <-> resize_rnn_input cfg = true) /\
  (is_Some (q_linear m) <-> resize_rnn_input cfg = true) /\
  (is_Some (doc_self_attn m) <-> doc_self_attn_flag cfg = true) /\
  (is_Some (self_attn m) <-> question_merge cfg = "self_attn") /\
  brnn_bidirectional (doc_rnn m) = true /\
  question_rnn m
    = {| brnn_input_size := brnn_input_size (question_rnn m);
         brnn_hidden_size := brnn_hidden_size (doc_rnn m);
         brnn_num_layers := brnn_num_layers (doc_rnn m);
         brnn_dropout_rate := brnn_dropout_rate (doc_rnn m);
         brnn_dropout_output := brnn_dropout_output (doc_rnn m);
         brnn_variational_dropout := brnn_variational_dropout (doc_rnn m);
         brnn_concat_layers := brnn_concat_layers (doc_rnn m);
         brnn_rnn_type := brnn_rnn_type (doc_rnn m);
         brnn_padding := brnn_padding (doc_rnn m);
         brnn_bidirectional := brnn_bidirectional (doc_rnn m) |}.
Proof.
  intros Hi.
  destruct (DrQA_init_ok _ _ _ _ _ _ _ Hi) as (cls & _ & _ & _ & _ & Hb & Hm & _).
  destruct Hm as (Hc & Hw & Hcl & Hq & Hdl & Hql & Hdr & Hqr & Hds & Hsa & _ & _).
  split; [exact Hc|]. split; [exact Hw|]. split; [exact Hb|].
  rewrite Hcl, Hq, Hdl, Hql, Hds, Hsa, Hdr, Hqr. cbn.
  repeat split.
  - intros Hs E. rewrite E in Hs. cbn in Hs. destruct Hs as [? [=]].
  - intros Hne. apply Z.eqb_neq in Hne. rewrite Hne. cbn. eauto.
  - destruct (use_qemb cfg); [auto | intros [? [=]]].
  - intros ->. eauto.
  - destruct (resize_rnn_input cfg); [auto | intros [? [=]]].
  - intros ->. eauto.
  - destruct (resize_rnn_input cfg); [auto | intros [? [=]]].
  - intros ->. eauto.
  - destruct (doc_self_attn_flag cfg); [auto | intros [? [=]]].
  - intros ->. eauto.
  - destruct (String.eqb_spec (question_merge cfg) "self_attn");
      [auto | intros [? [=]]].
  - intros ->. cbn. eauto.
Qed.

(** X4. The freezing of the word embedding comes before any sub-module is
    built. When the constructor raises, with [fix_embeddings], no parameter
    but the weight of the word embedding has changed; and that weight has
    lost its [requires_grad], unless it is not a leaf: then the exception is
    that of the freezing itself, and nothing has changed at all. *)
Theorem DrQA_init_raise_has_frozen cfg w c s e s' :
  DrQA_init Inits cfg w c s = (Raise e, s') ->
  fix_embeddings cfg = true ->
  (forall l, l <> weight w -> c_heap s' !! l = c_heap s !! l) /\
  (not_leaf (c_heap s) (weight w) = false ->
   c_heap s' !! weight w = set_requires_grad false <$> c_heap s !! weight w) /\
  (not_leaf (c_heap s) (weight w) = true ->
   e = RuntimeError "you can only change requires_grad flags of leaf variables." /\
   s' = s).
Proof.
  intros Hi Hf. pose proof (DrQA_init_heap cfg w c s) as Hh.
  unfold can_freeze, heap_after_init in Hh. rewrite Hi, Hf in Hh. cbn [andb snd] in Hh.
  destruct (not_leaf (c_heap s) (weight w)); cbn [negb] in Hh.
  - injection Hh as -> ->. split; [reflexivity|]. split; [discriminate | auto].
  - rewrite Hh. split; [|split; [|discriminate]].
    + intros l Hl. apply lookup_alter_ne. auto.
    + intros _. apply lookup_alter_eq.
Qed.

End Constructor.

(** ** The forward pass *)

Section Forward.
Context {R : Type} `{Scalar R} {Rng : Type}.
Context (Inits : LayerInits).
Context (bernoulli : Q -> Rng -> bool * Rng) (L : Layers (R:=R) (Rng:=Rng)).
Abbreviation St := (FwdState (R:=R) (Rng:=Rng)).
Abbreviation keeps A := (keeps_heap (R:=R) (Rng:=Rng) (A:=A)).

Lemma bind_ret_l {A B} (a : A) (f : A -> M St B) : mret a ≫= f = f a.
Proof. reflexivity. Qed.

Lemma bind_raise_l {A B} (e : Err) (f : A -> M St B) : raise e ≫= f = raise e.
Proof. reflexivity. Qed.

(** *** Computations that keep the heap *)

Lemma keeps_heap_ret {A} (a : A) : keeps _ (mret (M := M St) a).
Proof. intros s. reflexivity. Qed.

Lemma keeps_heap_raise {A} (e : Err) : keeps _ (raise (S := St) (A := A) e).
Proof. intros s. reflexivity. Qed.

Lemma keeps_heap_bind {A B} (c : M St A) (f : A -> M St B) :
  keeps _ c -> (forall a, keeps _ (f a)) -> keeps _ (c ≫= f).
Proof.
  intros Hc Hf s. rewrite bind_run. specialize (Hc s).
  destruct (c s) as [[a|e] s1]; cbn in *; [|exact Hc].
  rewrite Hf. exact Hc.
Qed.

Lemma keeps_heap_lift_res {A} (r : Res A) : keeps _ (lift_res (S := St) r).
Proof. intros s. reflexivity. Qed.

Lemma keeps_heap_lift_rand {A} (c : Rand A) : keeps _ (lift_rand (R := R) c).
Proof. intros s. unfold lift_rand. destruct (c (rng s)). reflexivity. Qed.

Lemma keeps_heap_key {A} k (v : option A) : keeps _ (key (R := R) (Rng := Rng) k v).
Proof. destruct v; [apply keeps_heap_ret | apply keeps_heap_raise]. Qed.

Lemma keeps_heap_attr {A} k (v : option A) : keeps _ (attr (R := R) (Rng := Rng) k v).
Proof. destruct v; [apply keeps_heap_ret | apply keeps_heap_raise]. Qed.

Lemma keeps_heap_read_param l : keeps _ (read_param (Rng := Rng) l).
Proof. intros s. unfold read_param. destruct (f_heap s !! l); reflexivity. Qed.

Lemma keeps_heap_mapM {A B} (f : A -> M St B) (xs : list A) :
  (forall x, keeps _ (f x)) -> keeps _ (mapM f xs).
Proof.
  intros Hf. induction xs as [|x xs IH]; cbn [mapM].
  - apply keeps_heap_ret.
  - apply keeps_heap_bind; [apply Hf|]. intros y.
    apply keeps_heap_bind; [exact IH|]. intros ys. apply keeps_heap_ret.
Qed.

Lemma keeps_heap_Embedding_forward e input :
  keeps _ (Embedding_forward (Rng := Rng) e input).
Proof.
  apply keeps_heap_bind; [apply keeps_heap_read_param|].
  intros p. apply keeps_heap_lift_res.
Qed.

Lemma keeps_heap_F_dropout x p training :
  keeps _ (F_dropout bernoulli x p training).
Proof.
  unfold F_dropout. destruct (negb _); [apply keeps_heap_raise|].
  destruct training; [|apply keeps_heap_ret].
  repeat (apply keeps_heap_mapM; intros ?).
  apply keeps_heap_bind; [apply keeps_heap_lift_rand|].
  intros keep. apply keeps_heap_ret.
Qed.

Lemma keeps_heap_run {A} (c : M St A) r (s s' : St) :
  keeps _ c -> c s = (r, s') -> f_heap s' = f_heap s.
Proof. intros Hk Hc. specialize (Hk s). rewrite Hc in Hk. exact Hk. Qed.

(** *** Inversion of successful steps *)

Lemma attr_ok_inv {A} k (v : option A) (a : A) (s s' : St) :
  attr k v s = (Ok a, s') -> v = Some a /\ s' = s.
Proof. destruct v; cbn; intros [= <- <-]; auto. Qed.

Lemma key_ok_inv {A} k (v : option A) (a : A) (s s' : St) :
  key k v s = (Ok a, s') -> v = Some a /\ s' = s.
Proof. destruct v; cbn; intros [= <- <-]; auto. Qed.

Lemma lift_res_ok_inv {A} (r : Res A) (a : A) (s s' : St) :
  lift_res r s = (Ok a, s') -> r = Ok a /\ s' = s.
Proof. unfold lift_res. intros [= -> <-]. auto. Qed.

Lemma lift_rand_ok_inv {A} (c : Rand A) (a : A) (s s' : St) :
  lift_rand c s = (Ok a, s') ->
  c (rng s) = (Ok a, rng s') /\ f_heap s' = f_heap s.
Proof.
  unfold lift_rand. destruct (c (rng s)) as [r g]. intros [= -> <-]. auto.
Qed.

Lemma read_param_ok_inv l p (s s' : St) :
  read_param l s = (Ok p, s') -> f_heap s !! l = Some p /\ s' = s.
Proof.
  unfold read_param. destruct (f_heap s !! l); intros [= <- <-]; auto.
Qed.

Ltac monad_inv H :=
  repeat
    (first
       [ apply bind_ok_inv in H as (? & ? & ? & H)
       | match type of H with
         | context [match ?p with pair _ _ => _ end] => destruct p
         end ];
     cbn beta iota in H);
  repeat match goal with
    | H' : attr _ _ _ = (Ok _, _) |- _ => apply attr_ok_inv in H' as [? ->]
    | H' : key _ _ _ = (Ok _, _) |- _ => apply key_ok_inv in H' as [? ->]
    | H' : lift_res _ _ = (Ok _, _) |- _ => apply lift_res_ok_inv in H' as [? ->]
    end.

(** *** Slice assignment *)

Lemma expand_to_row_exact (t r z : list R) :
  length r = length t ->
  expand_to (fun _ v => Ok v) t r = Ok z -> z = r.
Proof.
  intros Hl. unfold expand_to. rewrite Hl, Nat.eqb_refl. clear Hl.
  revert r z. induction t as [|x t IH]; intros [|y r] z; cbn; try discriminate.
  - intros [= <-]. reflexivity.
  - destruct (zip_res _ t r) as [zs|e] eqn:Hz; cbn; [|discriminate].
    intros [= <-]. f_equal. apply IH. exact Hz.
Qed.

(** When the right-hand side has the shape of the slice, the slice
    becomes the right-hand side. *)
Lemma expand_to_exact (target src rest : list (list R)) :
  lengths src = lengths target ->
  expand_to (expand_to (fun _ v => Ok v)) target src = Ok rest -> rest = src.
Proof.
  intros Hl. unfold expand_to at 1.
  assert (Hlen : length src = length target).
  { apply (f_equal (@length _)) in Hl. unfold lengths in Hl.
    rewrite !length_map in Hl. exact Hl. }
  rewrite Hlen, Nat.eqb_refl. clear Hlen.
  revert src rest Hl. induction target as [|t target IH]; intros [|r src] rest;
    cbn; try discriminate.
  - intros _ [= <-]. reflexivity.
  - intros [= Hr Hl].
    destruct (expand_to _ t r) as [z|e] eqn:Hz; cbn; [|discriminate].
    destruct (zip_res _ target src) as [zs|e] eqn:Hzs; cbn; [|discriminate].
    intros [= <-]. f_equal.
    + eapply expand_to_row_exact; eauto.
    + apply IH; auto.
Qed.

(** The parameter that [e.weight[1:, :] = x] leaves at the weight of [e],
    for the old parameter [p] and the rows [rest] that were written. *)
Lemma Embedding_assign_run gr e x xg (s : St) :
  Embedding_assign_rows_from_1 gr e x xg s
  = match f_heap s !! weight e with
    | None => (Raise (RuntimeError "dangling parameter"), s)
    | Some p =>
        match expand_to (expand_to (fun _ v => Ok v)) (drop 1 (data p)) x with
        | Raise err => (Raise err, s)
        | Ok rest =>
            if gr && requires_grad p && negb (grad_fn p)
            then (Raise (RuntimeError
                           "a view of a leaf Variable that requires grad is being used in an in-place operation."),
                  s)
            else (Ok tt,
                  {| rng := rng s;
                     f_heap := <[weight e :=
                                   {| data := take 1 (data p) ++ rest;
                                      requires_grad := requires_grad p || gr && xg;
                                      grad_fn := grad_fn p || gr && xg |}]> (f_heap s) |})
        end
    end.
Proof.
  unfold Embedding_assign_rows_from_1, read_param, assign_rows_from_1, lift_res,
    write_param, raise.
  rewrite !bind_run. destruct (f_heap s !! weight e) as [p|]; [|reflexivity].
  rewrite !bind_run.
  destruct (expand_to _ (drop 1 (data p)) x) as [rest|err]; cbn; [|reflexivity].
  destruct (gr && requires_grad p && negb (grad_fn p)); reflexivity.
Qed.

(** What a successful [e.weight[1:, :] = x] does to the heap. *)
Lemma Embedding_assign_ok_inv gr e x xg (s s' : St) :
  Embedding_assign_rows_from_1 gr e x xg s = (Ok tt, s') ->
  exists p rest,
    f_heap s !! weight e = Some p /\
    expand_to (expand_to (fun _ v => Ok v)) (drop 1 (data p)) x = Ok rest /\
    gr && requires_grad p && negb (grad_fn p) = false /\
    f_heap s' = <[weight e := {| data := take 1 (data p) ++ rest;
                                 requires_grad := requires_grad p || gr && xg;
                                 grad_fn := grad_fn p || gr && xg |}]> (f_heap s).
Proof.
  rewrite Embedding_assign_run.
  destruct (f_heap s !! weight e) as [p|]; [|discriminate].
  destruct (expand_to _ (drop 1 (data p)) x) as [rest|err] eqn:He; [|discriminate].
  destruct (gr && requires_grad p && negb (grad_fn p)) eqn:Hchk; [discriminate|].
  intros [= <-]. exists p, rest. repeat split; assumption.
Qed.

(** *** The stages of a successful call *)

(** The stages of [forward] up to the start scores, one after the other. *)
Lemma forward_start_ok_inv self training gr ex dh qh ss (s s1 : St) :
  forward_start bernoulli L self training gr ex s = (Ok (dh, qh, ss), s1) ->
  exists xq0 xd0 sa xq1 xd1 sb drnn0 sc drnn1 xq2 sd se sf,
    embed_words L self training ex s = (Ok (xq0, xd0), sa) /\
    embed_chars L self training gr ex xq0 xd0 sa = (Ok (xq1, xd1), sb) /\
    augment_document L self training ex xq1 xd1 sb = (Ok drnn0, sc) /\
    project_inputs bernoulli L self training drnn0 xq1 sc = (Ok (drnn1, xq2), sd) /\
    encode_document L self training ex drnn1 sd = (Ok dh, se) /\
    encode_question L self training ex xq2 se = (Ok qh, sf) /\
    BilinearSeqAttn_forward L "start_attn" (start_attn self) training dh qh
                            (xd_mask ex) sf = (Ok ss, s1).
Proof.
  unfold forward_start. intros Hr.
  apply bind_ok_inv in Hr as ([xq0 xd0] & sa & H1 & Hr).
  apply bind_ok_inv in Hr as ([xq1 xd1] & sb & H2 & Hr).
  apply bind_ok_inv in Hr as (drnn0 & sc & H3 & Hr).
  apply bind_ok_inv in Hr as ([drnn1 xq2] & sd & H4 & Hr).
  apply bind_ok_inv in Hr as (dh' & se & H5 & Hr).
  apply bind_ok_inv in Hr as (qh' & sf & H6 & Hr).
  apply bind_ok_inv in Hr as (ss' & sg & H7 & Hr).
  apply ret_ok_inv in Hr as [[= -> -> ->] ->].
  exists xq0, xd0, sa, xq1, xd1, sb, drnn0, sc, drnn1, xq2, sd, se, sf.
  repeat split; assumption.
Qed.

(** The end of [forward]: the question vector for the end scorer, the end
    scores, and the returned dict. *)
Lemma forward_ok_inv self training gr ex out (s s' : St) :
  forward bernoulli L self training gr ex s = (Ok out, s') ->
  exists dh qh ss s1 q se,
    forward_start bernoulli L self training gr ex s = (Ok (dh, qh, ss), s1) /\
    end_question_vector self dh qh ss = Ok q /\
    BilinearSeqAttn_forward L "end_attn" (end_attn self) training dh q
                            (xd_mask ex) s1 = (Ok se, s') /\
    out = {| score_s := ss; score_e := se; out_targets := targets ex;
             chunk_target_acc := chunk_acc_of (chunk_targets ex);
             chunk_any_acc := chunk_acc_of (chunk_targets ex) |}.
Proof.
  unfold forward. intros Hr.
  apply bind_ok_inv in Hr as ([[dh qh] ss] & s1 & H1 & Hr).
  apply bind_ok_inv in Hr as (q & s2 & H2 & Hr).
  apply lift_res_ok_inv in H2 as [H2 ->].
  apply bind_ok_inv in Hr as (se & s3 & H3 & Hr).
  apply ret_ok_inv in Hr as [-> ->].
  exists dh, qh, ss, s1, q, se. repeat split; assumption.
Qed.

(** All the stages of a successful call, from the word embeddings to the
    end scores. *)
Lemma forward_stages self training gr ex out (s s' : St) :
  forward bernoulli L self training gr ex s = (Ok out, s') ->
  exists xq0 xd0 sa xq1 xd1 sb drnn0 sc drnn1 xq2 sd dh se qh sf s1 q,
    embed_words L self training ex s = (Ok (xq0, xd0), sa) /\
    embed_chars L self training gr ex xq0 xd0 sa = (Ok (xq1, xd1), sb) /\
    augment_document L self training ex xq1 xd1 sb = (Ok drnn0, sc) /\
    project_inputs bernoulli L self training drnn0 xq1 sc = (Ok (drnn1, xq2), sd) /\
    encode_document L self training ex drnn1 sd = (Ok dh, se) /\
    encode_question L self training ex xq2 se = (Ok qh, sf) /\
    BilinearSeqAttn_forward L "start_attn" (start_attn self) training dh qh
                            (xd_mask ex) sf = (Ok (score_s out), s1) /\
    end_question_vector self dh qh (score_s out) = Ok q /\
    BilinearSeqAttn_forward L "end_attn" (end_attn self) training dh q
                            (xd_mask ex) s1 = (Ok (score_e out), s') /\
    out_targets out = targets ex /\
    chunk_target_acc out = chunk_acc_of (chunk_targets ex) /\
    chunk_any_acc out = chunk_acc_of (chunk_targets ex).
Proof.
  intros Hr.
  apply forward_ok_inv in Hr as (dh & qh & ss & s1 & q & se & Hs & Hq & He & ->).
  apply forward_start_ok_inv in Hs
    as (xq0 & xd0 & sa & xq1 & xd1 & sb & drnn0 & sc & drnn1 & xq2 & sd & se' & sf
        & H1 & H2 & H3 & H4 & H5 & H6 & H7).
  exists xq0, xd0, sa, xq1, xd1, sb, drnn0, sc, drnn1, xq2, sd, dh, se', qh, sf, s1, q.
  cbn. repeat split; assumption.
Qed.

(** What [forward] does after the character embeddings, and after the
    start scores. *)
Abbreviation after_chars self training ex xq_emb xd_emb :=
  (drnn_input ← augment_document L self training ex xq_emb xd_emb;
   '(drnn_input, xq_emb') ← project_inputs bernoulli L self training drnn_input xq_emb;
   doc_hiddens ← encode_document L self training ex drnn_input;
   question_hidden ← encode_question L self training ex xq_emb';
   start_scores ← BilinearSeqAttn_forward L "start_attn" (start_attn self)
                    training doc_hiddens question_hidden (xd_mask ex);
   mret (doc_hiddens, question_hidden, start_scores)).

Abbreviation after_start self training ex dh qh ss :=
  (question_hidden ← lift_res (end_question_vector self dh qh ss);
   end_scores ← BilinearSeqAttn_forward L "end_attn" (end_attn self)
                  training dh question_hidden (xd_mask ex);
   mret {| score_s := ss;
           score_e := end_scores;
           out_targets := targets ex;
           chunk_target_acc := chunk_acc_of (chunk_targets ex);
           chunk_any_acc := chunk_acc_of (chunk_targets ex) |}).

Lemma forward_after_chars self training gr ex xq0 xd0 xq1 xd1 (s sa sb : St) :
  embed_words L self training ex s = (Ok (xq0, xd0), sa) ->
  embed_chars L self training gr ex xq0 xd0 sa = (Ok (xq1, xd1), sb) ->
  forward bernoulli L self training gr ex s
  = (after_chars self training ex xq1 xd1
     ≫= fun '(dh, qh, ss) => after_start self training ex dh qh ss) sb.
Proof.
  intros H1 H2. unfold forward, forward_start.
  rewrite (bind_run (_ ≫= _)), (bind_run (embed_words _ _ _ _)), H1.
  cbv beta iota. rewrite (bind_run (embed_chars _ _ _ _ _ _ _)), H2.
  cbv beta iota. rewrite (bind_run (_ ≫= _)). reflexivity.
Qed.

(** *** The heap across a call, when the layers write to no parameter *)

Section Frame.
Hypothesis HF : layers_write_nothing L.

Ltac keeps_heap_step :=
  first
    [ apply keeps_heap_ret | apply keeps_heap_raise | apply keeps_heap_lift_res
    | apply keeps_heap_lift_rand | apply keeps_heap_key | apply keeps_heap_attr
    | apply keeps_heap_read_param | apply keeps_heap_Embedding_forward
    | apply keeps_heap_F_dropout | apply HF
    | apply keeps_heap_bind; [|intros ?]
    | match goal with
      | |- keeps_heap (if ?b then _ else _) => destruct b
      | |- keeps_heap (match ?p with pair _ _ => _ end) => destruct p
      end ].

Lemma keeps_heap_scorer n m tr x y k :
  keeps _ (BilinearSeqAttn_forward L n m tr x y k).
Proof. apply HF. Qed.

Lemma keeps_heap_embed_words self training ex :
  keeps _ (embed_words L self training ex).
Proof. unfold embed_words. repeat keeps_heap_step. Qed.

Lemma keeps_heap_augment_document self training ex xq_emb xd_emb :
  keeps _ (augment_document L self training ex xq_emb xd_emb).
Proof. unfold augment_document. repeat keeps_heap_step. Qed.

Lemma keeps_heap_project_inputs self training drnn_input xq_emb :
  keeps _ (project_inputs bernoulli L self training drnn_input xq_emb).
Proof. unfold project_inputs. repeat keeps_heap_step. Qed.

Lemma keeps_heap_encode_document self training ex drnn_input :
  keeps _ (encode_document L self training ex drnn_input).
Proof. unfold encode_document. repeat keeps_heap_step. Qed.

Lemma keeps_heap_encode_question self training ex xq_emb :
  keeps _ (encode_question L self training ex xq_emb).
Proof. unfold encode_question. repeat keeps_heap_step. Qed.

(** Without character embeddings nothing in [forward] writes to the heap. *)
Lemma keeps_heap_embed_chars_off self training gr ex xq_emb xd_emb :
  (0 <? char_embed (config self)) = false ->
  keeps _ (embed_chars L self training gr ex xq_emb xd_emb).
Proof. intros Hc. unfold embed_chars. rewrite Hc. apply keeps_heap_ret. Qed.

(** The character stage, when it is on and succeeds. *)
Lemma keeps_heap_forward_tail self training (ex : Example (R:=R)) (xq1 xd1 : Tensor3) :
  keeps _ (after_chars self training ex xq1 xd1
           ≫= fun '(dh, qh, ss) => after_start self training ex dh qh ss).
Proof.
  unfold augment_document, project_inputs, encode_document, encode_question.
  repeat keeps_heap_step.
Qed.

Lemma keeps_heap_forward_off self training gr ex :
  (0 <? char_embed (config self)) = false ->
  keeps _ (forward bernoulli L self training gr ex).
Proof.
  intros Hc. unfold forward, forward_start.
  apply keeps_heap_bind; [|intros [[dh qh] ss]; repeat keeps_heap_step].
  apply keeps_heap_bind; [apply keeps_heap_embed_words|]. intros [xq0 xd0].
  apply keeps_heap_bind; [apply keeps_heap_embed_chars_off, Hc|]. intros [xq1 xd1].
  unfold augment_document, project_inputs, encode_document, encode_question.
  repeat keeps_heap_step.
Qed.

Lemma embed_chars_ok_inv self training gr ex xq_emb xd_emb r (s s' : St) :
  (0 <? char_embed (config self)) = true ->
  embed_chars L self training gr ex xq_emb xd_emb s = (Ok r, s') ->
  exists cl ce cm lookup xc_rep xg s1 p rest,
    char_layer self = Some cl /\ c_emb ex = Some ce /\
    c_emb_mask ex = Some cm /\ c_layer_lookup ex = Some lookup /\
    CharEmbeddingLayer_forward L cl training gr ce cm s = (Ok (xc_rep, xg), s1) /\
    f_heap s !! weight lookup = Some p /\
    expand_to (expand_to (fun _ v => Ok v)) (drop 1 (data p)) xc_rep = Ok rest /\
    gr && requires_grad p && negb (grad_fn p) = false /\
    f_heap s' = <[weight lookup := {| data := take 1 (data p) ++ rest;
                                      requires_grad := requires_grad p || gr && xg;
                                      grad_fn := grad_fn p || gr && xg |}]> (f_heap s).
Proof.
  intros Hc. unfold embed_chars. rewrite Hc. intros Hr.
  apply bind_ok_inv in Hr as (cl & s1 & Hcl & Hr).
  apply attr_ok_inv in Hcl as [Hcl ->].
  apply bind_ok_inv in Hr as (ce & s1 & Hce & Hr).
  apply key_ok_inv in Hce as [Hce ->].
  apply bind_ok_inv in Hr as (cm & s1 & Hcm & Hr).
  apply key_ok_inv in Hcm as [Hcm ->].
  apply bind_ok_inv in Hr as ([xc_rep xg] & s1 & Hx & Hr).
  assert (Hh1 : f_heap s1 = f_heap s)
    by (eapply keeps_heap_run; [|exact Hx]; apply HF).
  apply bind_ok_inv in Hr as (lookup & s2 & Hlk & Hr).
  apply key_ok_inv in Hlk as [Hlk ->].
  apply bind_ok_inv in Hr as ([] & s2 & Hw & Hr).
  apply Embedding_assign_ok_inv in Hw as (p & rest & Hp & He & Hchk & Hs2).
  rewrite Hlk in Hr. cbn [key mret M_ret] in Hr.
  assert (Hk : f_heap s' = f_heap s2).
  { eapply (keeps_heap_run _ _ _ _ _ Hr). Unshelve.
    repeat keeps_heap_step. }
  exists cl, ce, cm, lookup, xc_rep, xg, s1, p, rest.
  rewrite Hk, Hs2. rewrite Hh1 in Hp. rewrite Hh1. repeat split; auto.
Qed.

(** The heap across a successful call: only the character stage can have
    written to it. *)
Lemma forward_ok_heap self training gr ex out (s s' : St) :
  forward bernoulli L self training gr ex s = (Ok out, s') ->
  exists xq0 xd0 sa r sb,
    embed_words L self training ex s = (Ok (xq0, xd0), sa) /\
    embed_chars L self training gr ex xq0 xd0 sa = (Ok r, sb) /\
    f_heap sa = f_heap s /\ f_heap s' = f_heap sb.
Proof.
  intros Hr.
  apply forward_stages in Hr
    as (xq0 & xd0 & sa & xq1 & xd1 & sb & drnn0 & sc & drnn1 & xq2 & sd & dh & se & qh
        & sf & s1 & q & H1 & H2 & H3 & H4 & H5 & H6 & H7 & _ & H8 & _).
  exists xq0, xd0, sa, (xq1, xd1), sb. repeat split; try assumption.
  - exact (keeps_heap_run _ _ _ _ (keeps_heap_embed_words _ _ _) H1).
  - rewrite (keeps_heap_run _ _ _ _ (keeps_heap_scorer _ _ _ _ _ _) H8).
    rewrite (keeps_heap_run _ _ _ _ (keeps_heap_scorer _ _ _ _ _ _) H7).
    rewrite (keeps_heap_run _ _ _ _ (keeps_heap_encode_question _ _ _ _) H6).
    rewrite (keeps_heap_run _ _ _ _ (keeps_heap_encode_document _ _ _ _) H5).
    rewrite (keeps_heap_run _ _ _ _ (keeps_heap_project_inputs _ _ _ _) H4).
    exact (keeps_heap_run _ _ _ _ (keeps_heap_augment_document _ _ _ _ _) H3).
Qed.

(** C4 (as the code has it). Without character embeddings a call leaves
    the heap of parameters as it found it. With character embeddings every
    successful call runs the character layer on the unique words of the
    example and writes the result into rows 1.. of the weight of the
    example's lookup embedding, in place: row 0 is kept, every other
    parameter is untouched, and when the encodings have the shape of rows
    1.. those rows become the encodings. The write goes through autograd:
    in grad mode the weight was not a leaf that requires grad, or the call
    would have raised, and when the encodings require grad the weight
    requires grad from then on and has a [grad_fn]; in every other case
    its flags are kept. The layers are taken to write to no parameter. *)
Theorem forward_writes_lookup_weight self training gr ex out (s s' : St) :
  forward bernoulli L self training gr ex s = (Ok out, s') ->
  (char_embed (config self) <= 0 -> f_heap s' = f_heap s) /\
  (0 < char_embed (config self) ->
   exists cl ce cm lookup xq0 xd0 sa xc_rep xg sb p rest,
     char_layer self = Some cl /\ c_emb ex = Some ce /\
     c_emb_mask ex = Some cm /\ c_layer_lookup ex = Some lookup /\
     embed_words L self training ex s = (Ok (xq0, xd0), sa) /\
     CharEmbeddingLayer_forward L cl training gr ce cm sa = (Ok (xc_rep, xg), sb) /\
     f_heap s !! weight lookup = Some p /\
     expand_to (expand_to (fun _ v => Ok v)) (drop 1 (data p)) xc_rep = Ok rest /\
     (lengths xc_rep = lengths (drop 1 (data p)) -> rest = xc_rep) /\
     (gr = true -> requires_grad p = true -> grad_fn p = true) /\
     f_heap s' !! weight lookup
       = Some {| data := take 1 (data p) ++ rest;
                 requires_grad := requires_grad p || gr && xg;
                 grad_fn := grad_fn p || gr && xg |} /\
     (forall l, l <> weight lookup -> f_heap s' !! l = f_heap s !! l)).
Proof.
  intros Hr.
  apply forward_ok_heap in Hr as (xq0 & xd0 & sa & r & sb & H1 & H2 & Ha & Hb).
  split.
  - intros Hc. rewrite Hb, <- Ha.
    apply (keeps_heap_run _ _ _ _ (keeps_heap_embed_chars_off _ _ _ _ _ _
             ltac:(apply Z.ltb_ge; exact Hc)) H2).
  - intros Hc. apply Z.ltb_lt in Hc.
    apply (embed_chars_ok_inv _ _ _ _ _ _ _ _ _ Hc) in H2
      as (cl & ce & cm & lookup & xc_rep & xg & s1 & p & rest
          & Hcl & Hce & Hcm & Hlk & Hx & Hp & He & Hchk & Hs').
    exists cl, ce, cm, lookup, xq0, xd0, sa, xc_rep, xg, s1, p, rest.
    rewrite Hb, Hs', <- Ha. repeat split; try assumption.
    + intros Hl. eapply expand_to_exact; eauto.
    + intros -> Hg. rewrite Hg in Hchk. cbn in Hchk.
      apply negb_false_iff in Hchk. exact Hchk.
    + apply lookup_insert_eq.
    + intros l Hl. apply lookup_insert_ne. auto.
Qed.

End Frame.

(** *** The returned dict *)

Lemma count_indicators (l : list Z) (n bound : nat) :
  counts_exactly bound -> (n + length l <= bound)%nat ->
  fold_left s_add (map (fun t => if 0 <=? t then s_one else s_zero) l) (s_of_nat n)
  = s_of_nat (n + count_valid l).
Proof.
  intros (_ & H1 & H0). revert n. unfold count_valid.
  induction l as [|t l IH]; intros n Hn; cbn in *.
  - f_equal. lia.
  - destruct (0 <=? t); cbn.
    + rewrite H1, IH by lia. f_equal. lia.
    + rewrite H0, IH by lia. reflexivity.
Qed.

(** The statistic is the fraction of valid chunk targets. *)
Lemma chunk_acc_of_fraction (l : list Z) :
  counts_exactly (length l) ->
  chunk_acc_of l = s_div (s_of_nat (count_valid l)) (s_of_nat (length l)).
Proof.
  intros Hc. pose proof (count_indicators l 0 (length l) Hc (Nat.le_refl _)) as Hi.
  destruct Hc as (E0 & _). rewrite E0 in Hi.
  unfold chunk_acc_of. rewrite Hi. reflexivity.
Qed.

(** C5. The dict of a successful call holds the example's [targets] as
    they came and, under both [chunk_target_acc] and [chunk_any_acc], the
    fraction of chunk targets that are not negative (counting in the
    scalars being exact up to the number of chunk targets). Its [score_s]
    is what the start scorer returned for the document representation and
    the question summary that this call computed, stage by stage, from the
    example; its [score_e] is what the end scorer returned for the same
    document representation and the question vector made from that
    summary. *)
Theorem forward_returns self training gr ex out (s s' : St) :
  counts_exactly (length (chunk_targets ex)) ->
  forward bernoulli L self training gr ex s = (Ok out, s') ->
  out_targets out = targets ex /\
  chunk_target_acc out
    = s_div (s_of_nat (count_valid (chunk_targets ex)))
            (s_of_nat (length (chunk_targets ex))) /\
  chunk_any_acc out = chunk_target_acc out /\
  exists xq0 xd0 sa xq1 xd1 sb drnn0 sc drnn1 xq2 sd dh se qh sf s1 q,
    embed_words L self training ex s = (Ok (xq0, xd0), sa) /\
    embed_chars L self training gr ex xq0 xd0 sa = (Ok (xq1, xd1), sb) /\
    augment_document L self training ex xq1 xd1 sb = (Ok drnn0, sc) /\
    project_inputs bernoulli L self training drnn0 xq1 sc = (Ok (drnn1, xq2), sd) /\
    encode_document L self training ex drnn1 sd = (Ok dh, se) /\
    encode_question L self training ex xq2 se = (Ok qh, sf) /\
    BilinearSeqAttn_forward L "start_attn" (start_attn self) training dh qh
                            (xd_mask ex) sf = (Ok (score_s out), s1) /\
    end_question_vector self dh qh (score_s out) = Ok q /\
    BilinearSeqAttn_forward L "end_attn" (end_attn self) training dh q
                            (xd_mask ex) s1 = (Ok (score_e out), s').
Proof.
  intros Hc Hr.
  apply forward_stages in Hr
    as (xq0 & xd0 & sa & xq1 & xd1 & sb & drnn0 & sc & drnn1 & xq2 & sd & dh & se & qh
        & sf & s1 & q & H1 & H2 & H3 & H4 & H5 & H6 & H7 & Hq & H8 & Ht & Ha & Hb).
  rewrite Ht, Ha, Hb, (chunk_acc_of_fraction _ Hc). repeat (split; [reflexivity|]).
  exists xq0, xd0, sa, xq1, xd1, sb, drnn0, sc, drnn1, xq2, sd, dh, se, qh, sf, s1, q.
  repeat split; assumption.
Qed.

(** *** The question vector of the end scorer *)

Lemma zip_res_Forall2 {A B C} (f : A -> B -> Res C) (g : A -> B -> C) xs ys :
  Forall2 (fun x y => f x y = Ok (g x y)) xs ys ->
  zip_res f xs ys = Ok (zip_with g xs ys).
Proof.
  induction 1 as [|x y xs ys Hxy _ IH]; cbn; [reflexivity|].
  rewrite Hxy, IH. reflexivity.
Qed.

Lemma zip_res_ok_length {A B C} (f : A -> B -> Res C) xs ys zs :
  zip_res f xs ys = Ok zs -> length xs = length ys /\ length zs = length xs.
Proof.
  revert ys zs. induction xs as [|x xs IH]; intros [|y ys] zs; cbn; try discriminate.
  - intros [= <-]. auto.
  - destruct (f x y); cbn; [|discriminate].
    destruct (zip_res f xs ys) as [cs|] eqn:Hz; cbn; [|discriminate].
    intros [= <-]. destruct (IH _ _ Hz). cbn. auto.
Qed.

Lemma Forall2_of_Forall {A B} (P : A -> Prop) (Q : B -> Prop) xs ys :
  length xs = length ys -> Forall P xs -> Forall Q ys ->
  Forall2 (fun x y => P x /\ Q y) xs ys.
Proof.
  intros Hl Hx. revert ys Hl. induction Hx as [|x xs Hx _ IH]; intros [|y ys];
    cbn; try discriminate; intros Hl Hy; constructor.
  - inversion Hy; auto.
  - apply IH; [lia | inversion Hy; auto].
Qed.

Lemma map_res_pure {A B} (g : A -> B) (xs : list A) :
  map_res (fun x => Ok (g x)) xs = Ok (map g xs).
Proof.
  induction xs as [|x xs IH]; cbn; [reflexivity|]. rewrite IH. reflexivity.
Qed.

(** A vector times a one-element vector: the element is repeated. *)
Lemma broadcast_scalar (d : list R) (e : R) :
  broadcast (fun x y => Ok (s_mul x y)) d [e] = Ok (map (fun x => s_mul x e) d).
Proof.
  unfold broadcast. destruct d as [|x [|x' d]]; cbn [length Nat.eqb].
  - reflexivity.
  - reflexivity.
  - apply (map_res_pure (fun x => s_mul x e)).
Qed.

Lemma broadcast_same_length {A B C} (f : A -> B -> Res C) xs ys :
  length xs = length ys -> broadcast f xs ys = zip_res f xs ys.
Proof. intros Hl. unfold broadcast. rewrite Hl, Nat.eqb_refl. reflexivity. Qed.

(** The product of the document with the exponentiated start scores, for
    tensors of matching shape: position [i] of the document is multiplied
    by [exp] of score [i]. *)
Lemma zip_res_map_r {A B B' C} (f : A -> B -> Res C) (h : B' -> B) xs ys :
  zip_res f xs (map h ys) = zip_res (fun x y => f x (h y)) xs ys.
Proof.
  revert ys. induction xs as [|x xs IH]; intros [|y ys]; cbn; try reflexivity.
  rewrite IH. reflexivity.
Qed.

Lemma mul3_unsqueeze_ok b l w (dh : list (list (list R))) (ss : list (list R)) :
  shape3 b l w dh -> shape2 b l ss ->
  mul3 dh (unsqueeze2 (exp2 ss))
  = Ok (zip_with (zip_with (fun d p => map (fun x => s_mul x (s_exp p)) d)) dh ss).
Proof.
  intros [Hb Hd] [Hb' Hs]. unfold mul3, unsqueeze2, exp2.
  rewrite broadcast_same_length by (rewrite !length_map; lia).
  rewrite !zip_res_map_r.
  apply zip_res_Forall2.
  eapply Forall2_impl; [apply Forall2_of_Forall; [|exact Hd|exact Hs]; lia|].
  cbn. intros doc ps [[Hl _] Hp].
  rewrite broadcast_same_length by (rewrite !length_map; lia).
  rewrite !zip_res_map_r.
  apply zip_res_Forall2. apply Forall2_true; [|lia].
  intros d p. apply broadcast_scalar.
Qed.

Lemma nth_zip_with {A} (f : A -> A -> A) (u v : list A) (j : nat) (d : A) :
  (j < length u)%nat -> (j < length v)%nat ->
  nth j (zip_with f u v) d = f (nth j u d) (nth j v d).
Proof.
  revert v j. induction u as [|x u IH]; intros [|y v] [|j]; cbn; try lia; auto.
  intros. apply IH; lia.
Qed.

Lemma map_nth_seq {A} (v : list A) (d : A) :
  map (fun j => nth j v d) (seq 0 (length v)) = v.
Proof.
  induction v as [|x v IH]; cbn; [reflexivity|].
  f_equal. rewrite <- seq_shift, map_map. exact IH.
Qed.

(** Adding up vectors of one width, column by column. *)
Lemma fold_vadd_columns (w : nat) (rows : list (list R)) (acc : list R) :
  Forall (fun r => length r = w) rows -> length acc = w ->
  fold_left vadd rows acc
  = map (fun j => fold_left s_add (map (fun r => nth j r s_zero) rows)
                            (nth j acc s_zero))
        (seq 0 w).
Proof.
  intros Hr. revert acc. induction Hr as [|r rows Hl _ IH]; intros acc Ha; cbn.
  - rewrite <- Ha. symmetry. apply map_nth_seq.
  - rewrite IH by (unfold vadd; rewrite length_zip_with; lia).
    apply map_ext_in. intros j Hj. apply in_seq in Hj.
    unfold vadd. rewrite nth_zip_with by lia. reflexivity.
Qed.

(** [sum(0)] of a non-empty matrix adds its rows to the zero vector. *)
Lemma sum_axis0_fold (w : nat) (rows : list (list R)) :
  rows <> [] -> Forall (fun r => length r = w) rows ->
  sum_axis0 rows = fold_left vadd rows (repeat s_zero w).
Proof.
  intros Hne Hr. rewrite (fold_vadd_columns w) by (auto using repeat_length).
  destruct rows as [|r rows]; [contradiction|]. unfold sum_axis0.
  inversion Hr as [|? ? Hl _]; subst. apply map_ext_in. intros j Hj.
  apply in_seq in Hj. f_equal. rewrite nth_repeat. reflexivity.
Qed.

Lemma map_zip_with_Forall2 {A B C D} (h : C -> D) (g : A -> B -> C)
    (g' : A -> B -> D) xs ys :
  Forall2 (fun x y => h (g x y) = g' x y) xs ys ->
  map h (zip_with g xs ys) = zip_with g' xs ys.
Proof. induction 1; cbn; congruence. Qed.

Lemma zip_with_comm_ext {A B C} (f : A -> B -> C) (g : B -> A -> C) xs ys :
  (forall x y, f x y = g y x) -> zip_with f xs ys = zip_with g ys xs.
Proof.
  intros Hfg. revert ys. induction xs as [|x xs IH]; intros [|y ys]; cbn;
    try reflexivity. rewrite Hfg, IH. reflexivity.
Qed.

Lemma Forall_zip_with_l {A B C} (P : A -> Prop) (Q : C -> Prop)
    (f : A -> B -> C) xs ys :
  (forall x y, P x -> Q (f x y)) -> Forall P xs -> Forall Q (zip_with f xs ys).
Proof.
  intros Hf Hx. revert ys. induction Hx as [|x xs Hx _ IH]; intros [|y ys]; cbn;
    constructor; auto.
Qed.

(** The expected document vector as the code computes it. *)
Lemma sum1_expected_document b l w (dh : list (list (list R))) (ss : list (list R)) :
  (forall x y, s_mul x y = s_mul y x) ->
  shape3 b l w dh -> shape2 b l ss -> (0 < l)%nat ->
  sum1 (zip_with (zip_with (fun d p => map (fun x => s_mul x (s_exp p)) d)) dh ss)
  = zip_with (spec_expected_document w) dh ss.
Proof.
  intros Hcomm [Hb Hd] [Hb' Hs] Hl. unfold sum1.
  apply map_zip_with_Forall2.
  eapply Forall2_impl; [apply Forall2_of_Forall; [|exact Hd|exact Hs]; lia|].
  cbn. intros doc ps [[Hdl Hdw] Hp]. unfold spec_expected_document.
  rewrite (zip_with_comm_ext _ (fun d p => map (fun x => s_mul x (s_exp p)) d))
    by (intros p d; unfold scale; apply map_ext; intros x; apply Hcomm).
  apply sum_axis0_fold.
  - destruct doc, ps; cbn in *; try lia. discriminate.
  - apply (Forall_zip_with_l (fun r => length r = w)); [|exact Hdw].
    intros d p Hd'. rewrite length_map. exact Hd'.
Qed.

(** The question vector of the end scorer, for tensors of matching shape. *)
Lemma end_question_vector_spec self b l w dh qh ss q :
  (forall x y, s_mul x y = s_mul y x) ->
  end_question_vector self dh qh ss = Ok q ->
  (span_dependency (config self) = false -> q = qh) /\
  (span_dependency (config self) = true ->
   shape3 b l w dh -> shape2 b l ss -> (0 < l)%nat ->
   q = zip_with app qh (zip_with (spec_expected_document w) dh ss)).
Proof.
  intros Hcomm. unfold end_question_vector.
  destruct (span_dependency (config self)).
  - intros Hq. split; [discriminate|]. intros _ Hd Hs Hl.
    rewrite (mul3_unsqueeze_ok b l w) in Hq by assumption. cbn in Hq.
    rewrite (sum1_expected_document b l w) in Hq by assumption.
    unfold cat1 in Hq. destruct (zip_res_ok_length _ _ _ _ Hq) as [Hlen _].
    rewrite (zip_res_Forall2 _ app) in Hq
      by (apply Forall2_true; [reflexivity | exact Hlen]).
    injection Hq as <-. reflexivity.
  - intros [= <-]. split; [reflexivity | discriminate].
Qed.

(** C3. In a successful call the start scorer is run on the document
    representation and the merged question summary that the call computed,
    stage by stage, from the example. The end scorer is run on the same
    document representation and, without span dependency, on the same
    summary; with span dependency, for every example on the summary
    followed by the expected document vector under the start distribution,
    the sum over positions [i] of [exp(start_score_i) * document_i]. *)
Theorem end_scorer_question_vector self training gr ex out (s s' : St) :
  (forall x y, s_mul x y = s_mul y x) ->
  forward bernoulli L self training gr ex s = (Ok out, s') ->
  exists xq0 xd0 sa xq1 xd1 sb drnn0 sc drnn1 xq2 sd dh se qh sf s1 q,
    embed_words L self training ex s = (Ok (xq0, xd0), sa) /\
    embed_chars L self training gr ex xq0 xd0 sa = (Ok (xq1, xd1), sb) /\
    augment_document L self training ex xq1 xd1 sb = (Ok drnn0, sc) /\
    project_inputs bernoulli L self training drnn0 xq1 sc = (Ok (drnn1, xq2), sd) /\
    encode_document L self training ex drnn1 sd = (Ok dh, se) /\
    encode_question L self training ex xq2 se = (Ok qh, sf) /\
    BilinearSeqAttn_forward L "start_attn" (start_attn self) training dh qh
                            (xd_mask ex) sf = (Ok (score_s out), s1) /\
    BilinearSeqAttn_forward L "end_attn" (end_attn self) training dh q
                            (xd_mask ex) s1 = (Ok (score_e out), s') /\
    (span_dependency (config self) = false -> q = qh) /\
    (span_dependency (config self) = true ->
     forall b l w,
       shape3 b l w dh -> shape2 b l (score_s out) -> (0 < l)%nat ->
       q = zip_with app qh
             (zip_with (spec_expected_document w) dh (score_s out))).
Proof.
  intros Hcomm Hr.
  apply forward_stages in Hr
    as (xq0 & xd0 & sa & xq1 & xd1 & sb & drnn0 & sc & drnn1 & xq2 & sd & dh & se & qh
        & sf & s1 & q & H1 & H2 & H3 & H4 & H5 & H6 & H7 & Hq & H8 & _).
  exists xq0, xd0, sa, xq1, xd1, sb, drnn0, sc, drnn1, xq2, sd, dh, se, qh, sf, s1, q.
  repeat (split; [assumption|]). split.
  - apply (end_question_vector_spec self 0 0 0 dh qh _ q Hcomm Hq).
  - intros Hsd b l w. apply (end_question_vector_spec self b l w dh qh _ q Hcomm Hq).
    exact Hsd.
Qed.

(** *** Shapes along the document path *)

(** [F.dropout] with [training] off hands its input back. *)
Lemma F_dropout_eval x p :
  F_dropout bernoulli x p false
  = if negb (Qle_bool 0 p && Qle_bool p 1)
    then raise (ValueError "dropout probability has to be between 0 and 1")
    else mret x.
Proof. reflexivity. Qed.

Lemma map_res_ok_Forall2 {A B} (P : B -> A -> Prop) (f : A -> Res B) xs ys :
  (forall x y, f x = Ok y -> P y x) ->
  map_res f xs = Ok ys -> Forall2 P ys xs.
Proof.
  intros Hf. revert ys. induction xs as [|x xs IH]; intros ys; cbn.
  - intros [= <-]. constructor.
  - destruct (f x) as [y|] eqn:Hy; cbn; [|discriminate].
    destruct (map_res f xs) as [ys'|]; cbn; [|discriminate].
    intros [= <-]. constructor; auto.
Qed.

Lemma zip_res_ok_Forall2 {A B C} (P : C -> A -> Prop) (f : A -> B -> Res C) xs ys zs :
  (forall x y z, f x y = Ok z -> P z x) ->
  zip_res f xs ys = Ok zs -> Forall2 P zs xs.
Proof.
  intros Hf. revert ys zs. induction xs as [|x xs IH]; intros [|y ys] zs; cbn;
    try discriminate.
  - intros [= <-]. constructor.
  - destruct (f x y) as [z|] eqn:Hz; cbn; [|discriminate].
    destruct (zip_res f xs ys) as [zs'|] eqn:Hzs; cbn; [|discriminate].
    intros [= <-]. constructor; eauto.
Qed.

Lemma mapM_ok_Forall2 {A B} (P : B -> A -> Prop) (f : A -> M St B) xs ys (s s' : St) :
  (forall x y t t', f x t = (Ok y, t') -> P y x) ->
  mapM f xs s = (Ok ys, s') -> Forall2 P ys xs.
Proof.
  intros Hf. revert ys s s'. induction xs as [|x xs IH]; intros ys s s'; cbn [mapM].
  - intros Hr. apply ret_ok_inv in Hr as [-> _]. constructor.
  - intros Hr. apply bind_ok_inv in Hr as (y & s1 & Hy & Hr).
    apply bind_ok_inv in Hr as (ys' & s2 & Hys & Hr).
    apply ret_ok_inv in Hr as [-> _].
    constructor; [eapply Hf; exact Hy | eapply IH; exact Hys].
Qed.

Lemma Forall2_lengths {A B} (ys : list (list B)) (xs : list (list A)) :
  Forall2 (fun y x => length y = length x) ys xs -> lengths ys = lengths xs.
Proof. unfold lengths. induction 1; cbn; congruence. Qed.

Lemma lengths_shape2 {A B} b l (ys : list (list B)) (xs : list (list A)) :
  lengths ys = lengths xs -> shape2 b l xs -> shape2 b l ys.
Proof.
  unfold lengths, shape2. intros Hl [Hb Hx]. split.
  - apply (f_equal (@length _)) in Hl. rewrite !length_map in Hl. lia.
  - clear Hb. revert xs Hl Hx. induction ys as [|y ys IH]; intros [|x xs]; cbn;
      try discriminate; constructor.
    + injection Hl as Hy _. inversion Hx; subst. lia.
    + injection Hl as _ Hl. inversion Hx; subst. eauto.
Qed.

Lemma lengths_Embedding_forward e input t (s s' : St) :
  Embedding_forward e input s = (Ok t, s') -> lengths t = lengths input.
Proof.
  unfold Embedding_forward. intros Hr.
  apply bind_ok_inv in Hr as (p & s1 & _ & Hr).
  apply lift_res_ok_inv in Hr as [Hr _].
  apply Forall2_lengths.
  eapply map_res_ok_Forall2; [|exact Hr]. cbn. intros x y Hy.
  apply Forall2_length with (P := fun _ _ => True).
  eapply map_res_ok_Forall2; [|exact Hy]. auto.
Qed.

Lemma lengths_cat2 (a b t : list (list (list R))) :
  cat2 a b = Ok t -> lengths t = lengths a.
Proof.
  unfold cat2. intros Hr. apply Forall2_lengths.
  eapply zip_res_ok_Forall2; [|exact Hr]. cbn. intros x y z Hz.
  destruct (zip_res_ok_length _ _ _ _ Hz). assumption.
Qed.

Lemma lengths_F_relu (t : list (list (list R))) : lengths (F_relu t) = lengths t.
Proof.
  unfold F_relu, lengths. rewrite map_map. apply map_ext. intros r.
  apply length_map.
Qed.

(** [F.dropout] in training mode zeroes or rescales each element. *)
Lemma F_dropout_train_ok x p y (s s' : St) :
  F_dropout bernoulli x p true s = (Ok y, s') -> dropped_from (1 - p)%Q y x.
Proof.
  unfold F_dropout. destruct (negb _); [discriminate|].
  intros Hr. unfold dropped_from.
  eapply mapM_ok_Forall2; [|exact Hr]. cbn. intros x1 y1 t1 t1' H1.
  eapply mapM_ok_Forall2; [|exact H1]. cbn. intros x2 y2 t2 t2' H2.
  eapply mapM_ok_Forall2; [|exact H2]. cbn. intros a b t3 t3' H3.
  unfold dropout_elem in H3.
  apply bind_ok_inv in H3 as (keep & t4 & _ & H3).
  apply ret_ok_inv in H3 as [-> _]. destruct keep; auto.
Qed.

Lemma dropped_from_lengths keep y x : dropped_from keep y x -> lengths y = lengths x.
Proof.
  intros Hd. apply Forall2_lengths. eapply Forall2_impl; [exact Hd|].
  cbn. intros a b Hab. eapply Forall2_length; eauto.
Qed.

Lemma lengths_F_dropout x p training y (s s' : St) :
  F_dropout bernoulli x p training s = (Ok y, s') -> lengths y = lengths x.
Proof.
  destruct training.
  - intros Hr. eapply dropped_from_lengths, F_dropout_train_ok, Hr.
  - rewrite F_dropout_eval. destruct (negb _); [discriminate|].
    intros Hr. apply ret_ok_inv in Hr as [-> _]. reflexivity.
Qed.

Section Shapes.
Hypothesis HK : keeps_lengths L.

Lemma lengths_embed_words self training ex xq0 xd0 (s sa : St) :
  embed_words L self training ex s = (Ok (xq0, xd0), sa) ->
  lengths xd0 = lengths (xd ex).
Proof.
  destruct HK as (Hdrop & _). unfold embed_words. intros Hr.
  apply bind_ok_inv in Hr as (q0 & s1 & _ & Hr).
  apply bind_ok_inv in Hr as (d0 & s2 & Hd0 & Hr).
  apply bind_ok_inv in Hr as (q1 & s3 & _ & Hr).
  apply bind_ok_inv in Hr as (d1 & s4 & Hd1 & Hr).
  apply ret_ok_inv in Hr as [[= -> ->] _].
  rewrite (Hdrop _ _ _ _ _ _ _ Hd1).
  exact (lengths_Embedding_forward _ _ _ _ _ Hd0).
Qed.

Lemma lengths_embed_chars self training gr ex xq0 xd0 xq1 xd1 (s s' : St) :
  embed_chars L self training gr ex xq0 xd0 s = (Ok (xq1, xd1), s') ->
  lengths xd1 = lengths xd0.
Proof.
  unfold embed_chars. destruct (0 <? _).
  - intros Hr. monad_inv Hr. apply ret_ok_inv in Hr as [[= -> ->] _].
    eapply lengths_cat2; eassumption.
  - intros Hr. apply ret_ok_inv in Hr as [[= -> ->] _]. reflexivity.
Qed.

Lemma lengths_augment_document self training ex xq1 xd1 drnn (s s' : St) :
  augment_document L self training ex xq1 xd1 s = (Ok drnn, s') ->
  lengths drnn = lengths xd1.
Proof.
  unfold augment_document. intros Hr.
  apply bind_ok_inv in Hr as (d0 & s1 & H1 & Hr).
  assert (Hd0 : lengths d0 = lengths xd1).
  { destruct (use_qemb _).
    - monad_inv H1. eapply lengths_cat2; eassumption.
    - apply ret_ok_inv in H1 as [-> _]. reflexivity. }
  rewrite <- Hd0. destruct (0 <? _).
  - monad_inv Hr. eapply lengths_cat2; eassumption.
  - apply ret_ok_inv in Hr as [-> _]. reflexivity.
Qed.

Lemma lengths_project_inputs self training drnn0 xq1 drnn1 xq2 (s s' : St) :
  project_inputs bernoulli L self training drnn0 xq1 s = (Ok (drnn1, xq2), s') ->
  lengths drnn1 = lengths drnn0.
Proof.
  destruct HK as (_ & Hlin & _). unfold project_inputs.
  destruct (resize_rnn_input _).
  - intros Hr.
    apply bind_ok_inv in Hr as (dl & s1 & H1 & Hr).
    apply bind_ok_inv in Hr as (d & s2 & H2 & Hr).
    apply bind_ok_inv in Hr as (ql & s3 & H3 & Hr).
    apply bind_ok_inv in Hr as (q & s4 & H4 & Hr).
    rewrite <- (Hlin _ _ _ _ _ _ H2), <- (lengths_F_relu d).
    revert Hr. destruct (negb _); intros Hr.
    + apply bind_ok_inv in Hr as (d' & s5 & H5 & Hr).
      apply bind_ok_inv in Hr as (q' & s6 & H6 & Hr).
      apply ret_ok_inv in Hr as [E _]. injection E as E1 E2. subst drnn1.
      eapply lengths_F_dropout; eassumption.
    + apply ret_ok_inv in Hr as [E _]. injection E as E1 E2. subst drnn1.
      reflexivity.
  - intros Hr. apply ret_ok_inv in Hr as [[= -> ->] _]. reflexivity.
Qed.

Lemma lengths_encode_document self training ex drnn1 dh (s s' : St) :
  encode_document L self training ex drnn1 s = (Ok dh, s') ->
  lengths dh = lengths drnn1.
Proof.
  destruct HK as (_ & _ & Hrnn & _). unfold encode_document. intros Hr.
  apply bind_ok_inv in Hr as (h & s1 & H1 & Hr).
  rewrite <- (Hrnn _ _ _ _ _ _ _ _ H1).
  destruct (doc_self_attn_flag _).
  - monad_inv Hr. eapply lengths_cat2; eassumption.
  - apply ret_ok_inv in Hr as [-> _]. reflexivity.
Qed.

(** The document representation and the start scores have one entry per
    document token. *)
Lemma lengths_forward_start self training gr ex dh qh ss (s s1 : St) :
  forward_start bernoulli L self training gr ex s = (Ok (dh, qh, ss), s1) ->
  lengths dh = lengths (xd ex) /\ lengths ss = lengths (xd ex).
Proof.
  intros Hs. apply forward_start_ok_inv in Hs
    as (xq0 & xd0 & sa & xq1 & xd1 & sb & drnn0 & sc & drnn1 & xq2 & sd & se' & sf
        & H1 & H2 & H3 & H4 & H5 & H6 & Hst).
  assert (Hd : lengths dh = lengths (xd ex)).
  { rewrite (lengths_encode_document _ _ _ _ _ _ _ H5).
    rewrite (lengths_project_inputs _ _ _ _ _ _ _ _ H4).
    rewrite (lengths_augment_document _ _ _ _ _ _ _ _ H3).
    rewrite (lengths_embed_chars _ _ _ _ _ _ _ _ _ _ H2).
    exact (lengths_embed_words _ _ _ _ _ _ _ H1). }
  split; [exact Hd|]. destruct HK as (_ & _ & _ & Hbil).
  rewrite (Hbil _ _ _ _ _ _ _ _ _ Hst). exact Hd.
Qed.

(** The scores of a successful call have the shape of the document. *)
Lemma forward_score_shapes self training gr ex out (s s' : St) b l :
  forward bernoulli L self training gr ex s = (Ok out, s') ->
  shape2 b l (xd ex) ->
  shape2 b l (score_s out) /\ shape2 b l (score_e out).
Proof.
  intros Hr Hx.
  apply forward_ok_inv in Hr as (dh & qh & ss & s1 & q & se & Hs & _ & He & ->).
  destruct (lengths_forward_start _ _ _ _ _ _ _ _ _ Hs) as [Hd Hss]. cbn.
  split; [exact (lengths_shape2 _ _ _ _ Hss Hx)|].
  destruct HK as (_ & _ & _ & Hbil).
  eapply lengths_shape2; [|exact Hx].
  rewrite (Hbil _ _ _ _ _ _ _ _ _ He). exact Hd.
Qed.

(** Two models built alike but for [span_dependency] compute the same
    start scores, step for step. *)
Lemma forward_start_span_dependency cfg w c cls m1 m2 training gr ex :
  built_as (with_span_dependency true cfg) w c cls m1 ->
  built_as (with_span_dependency false cfg) w c cls m2 ->
  forward_start bernoulli L m1 training gr ex
  = forward_start bernoulli L m2 training gr ex.
Proof.
  destruct m1, m2. unfold built_as. cbn.
  intros (-> & -> & -> & -> & -> & -> & -> & -> & -> & -> & -> & ->)
         (-> & -> & -> & -> & -> & -> & -> & -> & -> & -> & -> & ->).
  reflexivity.
Qed.

(** C8. Take a configuration with span dependency switched on and the same
    configuration with it switched off, the two models built from them, and
    one example. The computation up to and including the start scores is
    the same for both, so the start scores agree; the example's targets
    and the chunk statistic agree; and for a document batch of shape
    [(b, l)] all four score tensors have shape [(b, l)]. *)
Theorem span_dependency_keeps_shapes cfg w c (s0 : CtorState (R:=R)) m1 m2 c1 c2
    training gr ex (s : St) o1 o2 t1 t2 b l :
  DrQA_init Inits (with_span_dependency true cfg) w c s0 = (Ok m1, c1) ->
  DrQA_init Inits (with_span_dependency false cfg) w c s0 = (Ok m2, c2) ->
  forward bernoulli L m1 training gr ex s = (Ok o1, t1) ->
  forward bernoulli L m2 training gr ex s = (Ok o2, t2) ->
  shape2 b l (xd ex) ->
  forward_start bernoulli L m1 training gr ex s
    = forward_start bernoulli L m2 training gr ex s /\
  score_s o1 = score_s o2 /\
  out_targets o1 = out_targets o2 /\
  chunk_target_acc o1 = chunk_target_acc o2 /\
  chunk_any_acc o1 = chunk_any_acc o2 /\
  shape2 b l (score_s o1) /\ shape2 b l (score_e o1) /\
  shape2 b l (score_s o2) /\ shape2 b l (score_e o2).
Proof.
  intros Hi1 Hi2 Hf1 Hf2 Hx.
  apply DrQA_init_ok in Hi1 as (cls1 & Hc1 & _ & _ & _ & _ & Hm1 & _).
  apply DrQA_init_ok in Hi2 as (cls2 & Hc2 & _ & _ & _ & _ & Hm2 & _).
  cbn in Hc1, Hc2. rewrite Hc1 in Hc2. injection Hc2 as <-.
  pose proof (forward_start_span_dependency _ _ _ _ _ _ training gr ex Hm1 Hm2) as Hs.
  destruct (forward_score_shapes _ _ _ _ _ _ _ b l Hf1 Hx) as [Hs1 He1].
  destruct (forward_score_shapes _ _ _ _ _ _ _ b l Hf2 Hx) as [Hs2 He2].
  apply forward_ok_inv in Hf1 as (dh1 & qh1 & ss1 & u1 & q1 & se1 & Hst1 & _ & _ & ->).
  apply forward_ok_inv in Hf2 as (dh2 & qh2 & ss2 & u2 & q2 & se2 & Hst2 & _ & _ & ->).
  rewrite Hs, Hst2 in Hst1. injection Hst1 as <- <- <- <-.
  cbn in *. rewrite Hs. do 5 (split; [reflexivity|]). auto.
Qed.

End Shapes.

(** *** The dropout after the projection *)

(** A traversal that draws from the generator and touches nothing else. *)
Lemma mapM_thread {A B} (f : A -> M St B) (g : A -> Rng -> B * Rng) xs (s : St) :
  (forall x t, f x t = (Ok (g x (rng t)).1,
                        {| rng := (g x (rng t)).2; f_heap := f_heap t |})) ->
  mapM f xs s = (Ok (thread g xs (rng s)).1,
                 {| rng := (thread g xs (rng s)).2; f_heap := f_heap s |}).
Proof.
  intros Hf. revert s. induction xs as [|x xs IH]; intros s; cbn [mapM thread].
  - destruct s. reflexivity.
  - rewrite bind_run, Hf, bind_run, IH. cbn [rng f_heap].
    destruct (g x (rng s)) as [y g1]. cbn [fst snd].
    destruct (thread g xs g1) as [ys g2]. reflexivity.
Qed.

Lemma dropout_elem_run p x (s : St) :
  dropout_elem bernoulli p x s
  = (Ok (spec_dropout_elem bernoulli (1 - p) x (rng s)).1,
     {| rng := (spec_dropout_elem bernoulli (1 - p) x (rng s)).2;
        f_heap := f_heap s |}).
Proof.
  unfold dropout_elem, spec_dropout_elem, lift_rand. rewrite bind_run.
  destruct (bernoulli (1 - p)%Q (rng s)) as [b g']. reflexivity.
Qed.

(** [F.dropout] in training mode is dropout as the words have it, with keep
    probability [1 - p]. *)
Lemma F_dropout_train_run x p (s : St) :
  Qle_bool 0 p && Qle_bool p 1 = true ->
  F_dropout bernoulli x p true s
  = (Ok (spec_dropout bernoulli (1 - p) x (rng s)).1,
     {| rng := (spec_dropout bernoulli (1 - p) x (rng s)).2; f_heap := f_heap s |}).
Proof.
  intros Hp. unfold F_dropout, spec_dropout. rewrite Hp. cbn [negb].
  apply mapM_thread. intros x1 t1.
  apply mapM_thread. intros x2 t2.
  apply mapM_thread. intros x3 t3.
  apply dropout_elem_run.
Qed.

(** C10. With the projection on: if [dropout_ff] is positive the stage
    does not depend on its value. In training mode it then is dropout with
    keep probability 1/2, the complement of the default [p = 0.5], on the
    projected and rectified document and then on the question: one draw
    that is [true] with probability 1/2 for each element, in order; the
    element is divided by 1/2 when the draw is [true] and zeroed when it is
    not. In evaluation mode, and whenever [dropout_ff] is not positive, the
    stage returns the rectified projections and draws no random number. *)
Theorem projection_dropout_uses_default_p self training drnn_input xq_emb :
  resize_rnn_input (config self) = true ->
  (Qle_bool (dropout_ff (config self)) 0 = false ->
   forall p, Qle_bool p 0 = false ->
     project_inputs bernoulli L
       (with_config (with_dropout_ff p (config self)) self) training drnn_input xq_emb
     = project_inputs bernoulli L self training drnn_input xq_emb) /\
  (forall (s s' : St) d' q',
     project_inputs bernoulli L self training drnn_input xq_emb s = (Ok (d', q'), s') ->
     exists dl ql d s1 q s2,
       doc_linear self = Some dl /\ q_linear self = Some ql /\
       Linear_forward L "doc_linear" dl drnn_input s = (Ok d, s1) /\
       Linear_forward L "q_linear" ql xq_emb s1 = (Ok q, s2) /\
       (if negb (Qle_bool (dropout_ff (config self)) 0) && training
        then
          let doc := spec_dropout bernoulli (1 # 2) (F_relu d) (rng s2) in
          let question := spec_dropout bernoulli (1 # 2) (F_relu q) doc.2 in
          d' = doc.1 /\ q' = question.1 /\
          rng s' = question.2 /\ f_heap s' = f_heap s2 /\
          dropped_from (1 # 2) d' (F_relu d) /\ dropped_from (1 # 2) q' (F_relu q)
        else d' = F_relu d /\ q' = F_relu q /\ s' = s2)).
Proof.
  intros Hres. split.
  - intros Hpos p Hp. unfold project_inputs. cbn. rewrite Hres, Hpos, Hp. reflexivity.
  - intros s s' d' q'. unfold project_inputs. rewrite Hres. intros Hr.
    apply bind_ok_inv in Hr as (dl & s0 & H1 & Hr).
    apply attr_ok_inv in H1 as [H1 ->].
    apply bind_ok_inv in Hr as (d & s1 & H2 & Hr).
    apply bind_ok_inv in Hr as (ql & s1' & H3 & Hr).
    apply attr_ok_inv in H3 as [H3 ->].
    apply bind_ok_inv in Hr as (q & s2 & H4 & Hr).
    exists dl, ql, d, s1, q, s2. repeat (split; [assumption|]).
    revert Hr. destruct (negb _); cbn [andb]; intros Hr.
    + apply bind_ok_inv in Hr as (d1 & t1 & H5 & Hr).
      apply bind_ok_inv in Hr as (q1 & t2 & H6 & Hr).
      apply ret_ok_inv in Hr as [E Es]. injection E as -> ->. subst s'.
      destruct training.
      * pose proof (F_dropout_train_ok _ _ _ _ _ H5) as D5.
        pose proof (F_dropout_train_ok _ _ _ _ _ H6) as D6.
        rewrite F_dropout_train_run in H5, H6 by reflexivity.
        injection H5 as <- <-. injection H6 as <- <-. cbn [rng f_heap].
        repeat split; assumption.
      * rewrite F_dropout_eval in H5, H6. cbn in H5, H6.
        apply ret_ok_inv in H5 as [-> ->]. apply ret_ok_inv in H6 as [-> ->].
        auto.
    + apply ret_ok_inv in Hr as [E Es]. injection E as -> ->. auto.
Qed.

(** *** Computations that do not depend on the generator *)

Abbreviation indep A := (rng_independent (R:=R) (Rng:=Rng) (A:=A)).

Lemma indep_ret {A} (a : A) : indep _ (mret (M := M St) a).
Proof. intros s1 s2 Hh. auto. Qed.

Lemma indep_raise {A} (e : Err) : indep _ (raise (S := St) (A := A) e).
Proof. intros s1 s2 Hh. auto. Qed.

Lemma indep_lift_res {A} (r : Res A) : indep _ (lift_res (S := St) r).
Proof. intros s1 s2 Hh. auto. Qed.

Lemma indep_bind {A B} (c : M St A) (f : A -> M St B) :
  indep _ c -> (forall a, indep _ (f a)) -> indep _ (c ≫= f).
Proof.
  intros Hc Hf s1 s2 Hh. rewrite !bind_run.
  destruct (Hc s1 s2 Hh) as [Hr Hh'].
  destruct (c s1) as [r1 t1], (c s2) as [r2 t2]. cbn in Hr, Hh'. subst r2.
  destruct r1 as [a|e]; [apply Hf; exact Hh' | auto].
Qed.

Lemma indep_key {A} k (v : option A) : indep _ (key (R := R) (Rng := Rng) k v).
Proof. destruct v; [apply indep_ret | apply indep_raise]. Qed.

Lemma indep_attr {A} k (v : option A) : indep _ (attr (R := R) (Rng := Rng) k v).
Proof. destruct v; [apply indep_ret | apply indep_raise]. Qed.

Lemma indep_read_param l : indep _ (read_param (Rng := Rng) l).
Proof.
  intros s1 s2 Hh. unfold read_param. rewrite Hh.
  destruct (f_heap s2 !! l); auto.
Qed.

Lemma indep_Embedding_forward e input :
  indep _ (Embedding_forward (Rng := Rng) e input).
Proof.
  apply indep_bind; [apply indep_read_param|]. intros p. apply indep_lift_res.
Qed.

Lemma indep_Embedding_assign gr e x xg :
  indep _ (Embedding_assign_rows_from_1 (Rng := Rng) gr e x xg).
Proof.
  intros s1 s2 Hh. rewrite !Embedding_assign_run, Hh.
  destruct (f_heap s2 !! weight e) as [p|]; [|auto].
  destruct (expand_to _ (drop 1 (data p)) x); [|auto].
  destruct (gr && requires_grad p && negb (grad_fn p)); auto.
Qed.

Lemma indep_F_dropout_eval x p : indep _ (F_dropout bernoulli x p false).
Proof.
  rewrite F_dropout_eval. destruct (negb _); [apply indep_raise | apply indep_ret].
Qed.

Section Eval.
Hypothesis HL : eval_deterministic L.

Ltac indep_step :=
  first
    [ apply indep_ret | apply indep_raise | apply indep_lift_res
    | apply indep_key | apply indep_attr | apply indep_read_param
    | apply indep_Embedding_forward | apply indep_Embedding_assign
    | apply indep_F_dropout_eval | apply HL
    | apply indep_bind; [|intros ?]
    | match goal with
      | |- rng_independent (if ?b then _ else _) => destruct b
      | |- rng_independent (match ?p with pair _ _ => _ end) => destruct p
      end ].

Lemma indep_embed_words self ex : indep _ (embed_words L self false ex).
Proof. unfold embed_words. repeat indep_step. Qed.

Lemma indep_embed_chars self gr ex xq_emb xd_emb :
  indep _ (embed_chars L self false gr ex xq_emb xd_emb).
Proof. unfold embed_chars. repeat indep_step. Qed.

(** The stages after the character embeddings, in evaluation mode. *)
Lemma indep_after_chars self (ex : Example (R:=R)) (xq1 xd1 : Tensor3) :
  indep _ (drnn_input ← augment_document L self false ex xq1 xd1;
           '(drnn_input, xq_emb) ← project_inputs bernoulli L self false drnn_input xq1;
           doc_hiddens ← encode_document L self false ex drnn_input;
           question_hidden ← encode_question L self false ex xq_emb;
           start_scores ← BilinearSeqAttn_forward L "start_attn" (start_attn self)
                            false doc_hiddens question_hidden (xd_mask ex);
           mret (doc_hiddens, question_hidden, start_scores)).
Proof.
  unfold augment_document, project_inputs, encode_document, encode_question.
  repeat indep_step.
Qed.

Lemma indep_forward_start self gr ex :
  indep _ (forward_start bernoulli L self false gr ex).
Proof.
  unfold forward_start.
  apply indep_bind; [apply indep_embed_words|]. intros [xq0 xd0].
  apply indep_bind; [apply indep_embed_chars|]. intros [xq1 xd1].
  apply indep_after_chars.
Qed.

(** The end of [forward], in evaluation mode. *)
Lemma indep_forward_end self (ex : Example (R:=R)) (dh : Tensor3) (qh ss : Tensor2) :
  indep _ (question_hidden ← lift_res (end_question_vector self dh qh ss);
           end_scores ← BilinearSeqAttn_forward L "end_attn" (end_attn self)
                          false dh question_hidden (xd_mask ex);
           let chunk_acc := chunk_acc_of (chunk_targets ex) in
           mret {| score_s := ss;
                   score_e := end_scores;
                   out_targets := targets ex;
                   chunk_target_acc := chunk_acc;
                   chunk_any_acc := chunk_acc |}).
Proof. repeat indep_step. Qed.

Lemma indep_forward self gr ex : indep _ (forward bernoulli L self false gr ex).
Proof.
  unfold forward.
  apply indep_bind; [apply indep_forward_start|]. intros [[dh qh] ss].
  apply indep_forward_end.
Qed.

(** C7. In evaluation mode the outcome of [forward] (the returned dict, or
    the exception) is a function of the model, the example, the grad mode
    and the heap of weights: two calls that start from equal heaps agree,
    whatever the states of the random generator, and they leave equal
    heaps. It rests on the evaluation-mode contract of the layers; the
    [F.dropout] calls of [forward] itself are switched off by
    [training]. *)
Theorem forward_eval_deterministic self gr ex (s1 s2 : St) :
  f_heap s1 = f_heap s2 ->
  (forward bernoulli L self false gr ex s1).1
    = (forward bernoulli L self false gr ex s2).1 /\
  f_heap (forward bernoulli L self false gr ex s1).2
    = f_heap (forward bernoulli L self false gr ex s2).2.
Proof. apply indep_forward. Qed.

End Eval.

(** *** No missing sub-module *)

Abbreviation safe A := (avoids (R:=R) (Rng:=Rng) (A:=A)).

Lemma res_avoids_ok {A} (a : A) : res_avoids (Ok a).
Proof. intros e [=]. Qed.

Lemma res_avoids_size_mismatch {A} : res_avoids (size_mismatch (A := A)).
Proof. intros e [= <-]. reflexivity. Qed.

Lemma res_avoids_bind {A B} (r : Res A) (f : A -> Res B) :
  res_avoids r -> (forall a, res_avoids (f a)) -> res_avoids (r ≫= f).
Proof.
  intros Hr Hf e. destruct r as [a|e0]; cbn; [apply Hf|].
  intros [= <-]. apply Hr. reflexivity.
Qed.

Lemma res_avoids_map_res {A B} (f : A -> Res B) xs :
  (forall x, res_avoids (f x)) -> res_avoids (map_res f xs).
Proof.
  intros Hf. induction xs as [|x xs IH]; cbn [map_res]; [apply res_avoids_ok|].
  apply res_avoids_bind; [apply Hf|]. intros y.
  apply res_avoids_bind; [exact IH|]. intros ys. apply res_avoids_ok.
Qed.

Lemma res_avoids_zip_res {A B C} (f : A -> B -> Res C) xs ys :
  (forall x y, res_avoids (f x y)) -> res_avoids (zip_res f xs ys).
Proof.
  intros Hf. revert ys. induction xs as [|x xs IH]; intros [|y ys]; cbn [zip_res];
    try apply res_avoids_ok; try apply res_avoids_size_mismatch.
  apply res_avoids_bind; [apply Hf|]. intros z.
  apply res_avoids_bind; [apply IH|]. intros zs. apply res_avoids_ok.
Qed.

Lemma res_avoids_broadcast {A B C} (f : A -> B -> Res C) xs ys :
  (forall x y, res_avoids (f x y)) -> res_avoids (broadcast f xs ys).
Proof.
  intros Hf. unfold broadcast.
  destruct (Nat.eqb _ _); [apply res_avoids_zip_res, Hf|].
  destruct xs as [|x [|]], ys as [|y [|]];
    try apply res_avoids_size_mismatch;
    apply res_avoids_map_res; intros ?; apply Hf.
Qed.

Lemma res_avoids_expand_to {A B C} (f : A -> B -> Res C) xs ys :
  (forall x y, res_avoids (f x y)) -> res_avoids (expand_to f xs ys).
Proof.
  intros Hf. unfold expand_to.
  destruct (Nat.eqb _ _); [apply res_avoids_zip_res, Hf|].
  destruct ys as [|y [|]]; try apply res_avoids_size_mismatch.
  apply res_avoids_map_res. intros ?. apply Hf.
Qed.

Lemma res_avoids_cat2 (a b : list (list (list R))) : res_avoids (cat2 a b).
Proof.
  unfold cat2. apply res_avoids_zip_res. intros x y.
  apply res_avoids_zip_res. intros u v. apply res_avoids_ok.
Qed.

Lemma res_avoids_end_question_vector self dh qh ss :
  res_avoids (end_question_vector self dh qh ss).
Proof.
  unfold end_question_vector. destruct (span_dependency _); [|apply res_avoids_ok].
  apply res_avoids_bind.
  - unfold mul3. repeat (apply res_avoids_broadcast; intros ? ?).
    apply res_avoids_ok.
  - intros t. unfold cat1. apply res_avoids_zip_res. intros u v. apply res_avoids_ok.
Qed.

Lemma avoids_ret {A} (a : A) : safe _ (mret (M := M St) a).
Proof. intros s e s' [=]. Qed.

Lemma avoids_raise {A} (e : Err) :
  structural_error e = false -> safe _ (raise (S := St) (A := A) e).
Proof. intros He s e' s' [= <- _]. exact He. Qed.

Lemma avoids_bind {A B} (c : M St A) (f : A -> M St B) :
  safe _ c -> (forall a, safe _ (f a)) -> safe _ (c ≫= f).
Proof.
  intros Hc Hf s e s'. rewrite bind_run.
  destruct (c s) as [[a|e0] s1] eqn:Hcs; [apply Hf|].
  intros [= <- _]. exact (Hc _ _ _ Hcs).
Qed.

Lemma avoids_lift_res {A} (r : Res A) : res_avoids r -> safe _ (lift_res (S := St) r).
Proof. intros Hr s e s' [= -> _]. apply Hr. reflexivity. Qed.

Lemma avoids_key {A} k (v : option A) : safe _ (key (R := R) (Rng := Rng) k v).
Proof. destruct v; [apply avoids_ret | apply avoids_raise; reflexivity]. Qed.

(** Reading an attribute that is there. *)
Lemma avoids_attr {A} k (v : option A) :
  is_Some v -> safe _ (attr (R := R) (Rng := Rng) k v).
Proof. intros [a ->]. apply avoids_ret. Qed.

Lemma avoids_read_param l : safe _ (read_param (Rng := Rng) l).
Proof.
  intros s e s'. unfold read_param. destruct (f_heap s !! l); intros [= <- _].
  reflexivity.
Qed.

Lemma avoids_mapM {A B} (f : A -> M St B) (xs : list A) :
  (forall x, safe _ (f x)) -> safe _ (mapM f xs).
Proof.
  intros Hf. induction xs as [|x xs IH]; cbn [mapM]; [apply avoids_ret|].
  apply avoids_bind; [apply Hf|]. intros y.
  apply avoids_bind; [exact IH|]. intros ys. apply avoids_ret.
Qed.

Lemma avoids_Embedding_forward e input :
  safe _ (Embedding_forward (Rng := Rng) e input).
Proof.
  apply avoids_bind; [apply avoids_read_param|]. intros p.
  apply avoids_lift_res. repeat (apply res_avoids_map_res; intros ?).
  unfold embedding_row. destruct (_ <? _); [intros ? [= <-]; reflexivity|].
  destruct (_ !! _); [apply res_avoids_ok | intros ? [= <-]; reflexivity].
Qed.

Lemma avoids_Embedding_assign gr e x xg :
  safe _ (Embedding_assign_rows_from_1 (Rng := Rng) gr e x xg).
Proof.
  apply avoids_bind; [apply avoids_read_param|]. intros p.
  apply avoids_bind.
  - apply avoids_lift_res. unfold assign_rows_from_1.
    apply res_avoids_bind; [|intros ?; apply res_avoids_ok].
    repeat (apply res_avoids_expand_to; intros ? ?). apply res_avoids_ok.
  - intros w'. destruct (_ && _); [apply avoids_raise; reflexivity|].
    intros s e0 s' [=].
Qed.

Lemma avoids_F_dropout x p training : safe _ (F_dropout bernoulli x p training).
Proof.
  unfold F_dropout. destruct (negb _); [apply avoids_raise; reflexivity|].
  destruct training; [|apply avoids_ret].
  repeat (apply avoids_mapM; intros ?).
  apply avoids_bind; [|intros ?; apply avoids_ret].
  intros s e s'. unfold lift_rand. destruct (bernoulli _ _). intros [=].
Qed.

Section Safe.
Hypothesis HS : layers_avoid_structural_errors L.

Ltac avoids_step :=
  first
    [ apply avoids_ret | apply avoids_key | apply avoids_read_param
    | apply avoids_Embedding_forward | apply avoids_Embedding_assign
    | apply avoids_F_dropout | apply HS
    | apply avoids_lift_res; first [ apply res_avoids_cat2
                                   | apply res_avoids_end_question_vector ]
    | apply avoids_bind; [|intros ?]
    | match goal with
      | |- avoids (match ?p with pair _ _ => _ end) => destruct p
      end ].

Lemma avoids_embed_words self training ex : safe _ (embed_words L self training ex).
Proof. unfold embed_words. repeat avoids_step. Qed.

Lemma avoids_embed_chars self training gr ex xq_emb xd_emb :
  (0 < char_embed (config self) -> is_Some (char_layer self)) ->
  safe _ (embed_chars L self training gr ex xq_emb xd_emb).
Proof.
  intros Hc. unfold embed_chars.
  destruct (0 <? _) eqn:E; [|apply avoids_ret].
  apply avoids_bind; [apply avoids_attr, Hc, Z.ltb_lt, E|]. intros cl.
  repeat avoids_step.
Qed.

Lemma avoids_augment_document self training ex xq_emb xd_emb :
  (use_qemb (config self) = true -> is_Some (qemb_match self)) ->
  safe _ (augment_document L self training ex xq_emb xd_emb).
Proof.
  intros Hq. unfold augment_document.
  apply avoids_bind.
  - destruct (use_qemb _); [|apply avoids_ret].
    apply avoids_bind; [apply avoids_attr; auto|]. intros qm.
    repeat avoids_step.
  - intros d. destruct (0 <? _); repeat avoids_step.
Qed.

Lemma avoids_project_inputs self training drnn_input xq_emb :
  (resize_rnn_input (config self) = true ->
   is_Some (doc_linear self) /\ is_Some (q_linear self)) ->
  safe _ (project_inputs bernoulli L self training drnn_input xq_emb).
Proof.
  intros Hr.
  unfold project_inputs. destruct (resize_rnn_input _); [|apply avoids_ret].
  destruct (Hr eq_refl) as [Hd Hq].
  apply avoids_bind; [apply avoids_attr, Hd|]. intros dl.
  apply avoids_bind; [apply HS|]. intros d.
  apply avoids_bind; [apply avoids_attr, Hq|]. intros ql.
  apply avoids_bind; [apply HS|]. intros q.
  destruct (negb _); repeat avoids_step.
Qed.

Lemma avoids_encode_document self training ex drnn_input :
  (doc_self_attn_flag (config self) = true -> is_Some (doc_self_attn self)) ->
  safe _ (encode_document L self training ex drnn_input).
Proof.
  intros Hd. unfold encode_document.
  apply avoids_bind; [apply HS|]. intros h.
  destruct (doc_self_attn_flag _); [|apply avoids_ret].
  apply avoids_bind; [apply avoids_attr; auto|]. intros sa.
  repeat avoids_step.
Qed.

Lemma avoids_encode_question self training ex xq_emb :
  question_merge_supported (question_merge (config self)) = true ->
  (question_merge (config self) = "self_attn" -> is_Some (self_attn self)) ->
  safe _ (encode_question L self training ex xq_emb).
Proof.
  intros Hs Ha. unfold encode_question.
  apply avoids_bind; [apply HS|]. intros h.
  apply avoids_bind; [|intros ?; apply HS].
  destruct (String.eqb_spec (question_merge (config self)) "avg") as [|Havg];
    [apply HS|].
  destruct (String.eqb_spec (question_merge (config self)) "self_attn") as [Hsa|Hsa].
  - apply avoids_bind; [apply avoids_attr; auto|]. intros sa. apply HS.
  - exfalso. apply bool_decide_eq_true in Hs.
    apply elem_of_cons in Hs as [?|Hs]; [contradiction|].
    apply list_elem_of_singleton in Hs. contradiction.
Qed.

(** X5. A model that [__init__] returned has every sub-module that its own
    [forward] asks for: whatever the example, the modes and the state, a
    call does not end in an [AttributeError] for a missing sub-module or in
    the unbound merge weights of an unknown merge policy (the layers raising
    none of their own). *)
Theorem forward_finds_its_modules cfg w c (s0 c1 : CtorState (R:=R)) m
    training gr ex (s s' : St) e :
  DrQA_init Inits cfg w c s0 = (Ok m, c1) ->
  forward bernoulli L m training gr ex s = (Raise e, s') ->
  structural_error e = false.
Proof.
  intros Hi. apply DrQA_init_ok in Hi as (cls & _ & Hs & _ & _ & _ & Hm & _).
  destruct Hm as (Hc & _ & Hcl & Hq & Hdl & Hql & _ & _ & Hds & Hsa & _ & _).
  revert s e s'. change (safe _ (forward bernoulli L m training gr ex)).
  unfold forward. apply avoids_bind.
  - unfold forward_start.
    apply avoids_bind; [apply avoids_embed_words|]. intros [xq0 xd0].
    apply avoids_bind.
    { apply avoids_embed_chars. rewrite Hc, Hcl. intros Hpos.
      destruct (Z.eqb_spec (char_embed cfg) 0); [lia | cbn; eauto]. }
    intros [xq1 xd1].
    apply avoids_bind.
    { apply avoids_augment_document. rewrite Hc, Hq. intros ->. eauto. }
    intros d0.
    apply avoids_bind.
    { apply avoids_project_inputs. rewrite Hc, Hdl, Hql. intros ->. eauto. }
    intros [d1 xq2].
    apply avoids_bind.
    { apply avoids_encode_document. rewrite Hc, Hds. intros ->. eauto. }
    intros dh.
    apply avoids_bind.
    { apply avoids_encode_question; rewrite Hc; [exact Hs|].
      rewrite Hsa. intros ->. cbn. eauto. }
    intros qh.
    apply avoids_bind; [apply HS|]. intros ss. apply avoids_ret.
  - intros [[dh qh] ss]. repeat avoids_step.
Qed.

End Safe.

(** *** The keys of the example *)

(** X6. A call that returns has found every key its configuration makes it
    read: the features when [num_features] is positive, and with
    [char_embed] positive the five character keys. With one of them absent
    the call raises. *)
Theorem forward_reads_its_keys self training gr ex out (s s' : St) :
  forward bernoulli L self training gr ex s = (Ok out, s') ->
  (0 < num_features (config self) -> is_Some (xd_f ex)) /\
  (0 < char_embed (config self) ->
   is_Some (c_emb ex) /\ is_Some (c_emb_mask ex) /\ is_Some (c_layer_lookup ex) /\
   is_Some (xqc ex) /\ is_Some (xdc ex)).
Proof.
  intros Hr.
  apply forward_ok_inv in Hr as (dh & qh & ss & s1 & q & se & Hs & _).
  apply forward_start_ok_inv in Hs
    as (xq0 & xd0 & sa & xq1 & xd1 & sb & drnn0 & sc & drnn1 & xq2 & sd & se' & sf
        & _ & H2 & H3 & _).
  split.
  - intros Hn. apply Z.ltb_lt in Hn. unfold augment_document in H3.
    apply bind_ok_inv in H3 as (d0 & t & _ & H3). rewrite Hn in H3.
    apply bind_ok_inv in H3 as (f & t' & Hk & _).
    apply key_ok_inv in Hk as [-> _]. eauto.
  - intros Hc. apply Z.ltb_lt in Hc. unfold embed_chars in H2. rewrite Hc in H2.
    monad_inv H2.
    repeat match goal with Hk : _ = Some _ |- _ => rewrite Hk; clear Hk end.
    repeat split; eauto.
Qed.

(** X7. A call reads nothing else of the example: two examples that agree
    on the keys read under the configuration give the same computation.
    With [num_features] not positive the features are not looked at, with
    [char_embed] not positive none of the character keys is. *)
Theorem forward_ignores_unread_keys self training gr ex ex' :
  same_read_keys (config self) ex ex' ->
  forward bernoulli L self training gr ex' = forward bernoulli L self training gr ex.
Proof.
  destruct ex, ex'. unfold same_read_keys. cbn.
  intros (-> & -> & -> & -> & -> & -> & Hf & Hc).
  unfold forward, forward_start, embed_words, embed_chars, augment_document,
    encode_document, encode_question. cbn.
  destruct (Z.ltb_spec 0 (num_features (config self))) as [Hn|Hn],
           (Z.ltb_spec 0 (char_embed (config self))) as [Hp|Hp];
    try (rewrite (Hf Hn)); try (destruct (Hc Hp) as (-> & -> & -> & -> & ->));
    reflexivity.
Qed.

(** *** The rows a slice assignment writes *)

Lemma lengths_Forall2 {A B} (t : list (list A)) (t' : list (list B)) :
  lengths t = lengths t' -> Forall2 (fun a a' => length a = length a') t t'.
Proof.
  unfold lengths. revert t'. induction t as [|a t IH]; intros [|a' t']; cbn;
    try discriminate; [constructor|].
  intros [= Ha Ht]. constructor; auto.
Qed.

Lemma zip_res_ext_l {A A' B C} (P : A -> A' -> Prop) (f : A -> B -> Res C)
    (f' : A' -> B -> Res C) t t' ys :
  (forall a a' b, P a a' -> f a b = f' a' b) ->
  Forall2 P t t' -> zip_res f t ys = zip_res f' t' ys.
Proof.
  intros Hf Ht. revert ys. induction Ht as [|a a' t t' Ha _ IH]; intros [|y ys];
    cbn; try reflexivity.
  rewrite (Hf _ _ _ Ha), IH. reflexivity.
Qed.

Lemma map_res_ext_l {A A' C} (P : A -> A' -> Prop) (f : A -> Res C)
    (f' : A' -> Res C) t t' :
  (forall a a', P a a' -> f a = f' a') ->
  Forall2 P t t' -> map_res f t = map_res f' t'.
Proof.
  intros Hf. induction 1 as [|a a' t t' Ha _ IH]; cbn; [reflexivity|].
  rewrite (Hf _ _ Ha), IH. reflexivity.
Qed.

Lemma expand_to_ext_l {A A' B C} (P : A -> A' -> Prop) (f : A -> B -> Res C)
    (f' : A' -> B -> Res C) t t' src :
  (forall a a' b, P a a' -> f a b = f' a' b) ->
  Forall2 P t t' -> expand_to f t src = expand_to f' t' src.
Proof.
  intros Hf Ht. unfold expand_to. rewrite (Forall2_length _ _ _ Ht).
  destruct (Nat.eqb _ _); [exact (zip_res_ext_l P _ _ _ _ _ Hf Ht)|].
  destruct src as [|y [|]]; try reflexivity.
  apply (map_res_ext_l P); [|exact Ht]. intros a a' Ha. apply Hf, Ha.
Qed.

(** The rows written by a slice assignment depend on the shape of the
    slice only. *)
Lemma expand_to_shape_only (t t' x : list (list R)) :
  lengths t = lengths t' ->
  expand_to (expand_to (fun _ v => Ok v)) t x
  = expand_to (expand_to (fun _ v => Ok v)) t' x.
Proof.
  intros Hl. apply (expand_to_ext_l (fun a a' => length a = length a'));
    [|apply lengths_Forall2, Hl].
  intros a a' b Ha.
  apply (expand_to_ext_l (fun _ _ => True)); [reflexivity|].
  apply Forall2_true; auto.
Qed.

Lemma zip_res_ok_lengths (t x rest : list (list R)) :
  zip_res (expand_to (fun _ v => Ok v)) t x = Ok rest -> lengths rest = lengths t.
Proof.
  intros Hz. apply Forall2_lengths.
  eapply zip_res_ok_Forall2; [|exact Hz]. cbn. intros a b z Hab.
  unfold expand_to in Hab. destruct (Nat.eqb _ _).
  - destruct (zip_res_ok_length _ _ _ _ Hab). assumption.
  - destruct b as [|y [|]]; try discriminate.
    apply Forall2_length with (P := fun _ _ => True).
    eapply map_res_ok_Forall2; [|exact Hab]. auto.
Qed.

(** The rows written have the shape of the slice. *)
Lemma expand_to_ok_lengths (t x rest : list (list R)) :
  expand_to (expand_to (fun _ v => Ok v)) t x = Ok rest -> lengths rest = lengths t.
Proof.
  unfold expand_to at 1. destruct (Nat.eqb _ _); [apply zip_res_ok_lengths|].
  destruct x as [|y [|]]; try discriminate. intros Hm.
  apply Forall2_lengths.
  eapply map_res_ok_Forall2; [|exact Hm]. cbn. intros a z Ha.
  unfold expand_to in Ha. destruct (Nat.eqb _ _).
  - destruct (zip_res_ok_length _ _ _ _ Ha). assumption.
  - destruct y as [|v [|]]; try discriminate.
    apply Forall2_length with (P := fun _ _ => True).
    eapply map_res_ok_Forall2; [|exact Ha]. auto.
Qed.

(** *** The heap, whatever the outcome *)

Lemma heap_sim_refl gr lk (h : gmap loc (Param (R:=R))) : heap_sim gr lk h h.
Proof. split; [reflexivity|]. destruct (h !! lk); auto. Qed.

Lemma heap_sim_trans gr lk (h1 h2 h3 : gmap loc (Param (R:=R))) :
  heap_sim gr lk h1 h2 -> heap_sim gr lk h2 h3 -> heap_sim gr lk h1 h3.
Proof.
  intros [F1 S1] [F2 S2]. split.
  - intros l Hl. rewrite F2, F1 by exact Hl. reflexivity.
  - destruct (h1 !! lk), (h2 !! lk), (h3 !! lk); try contradiction; auto.
    destruct S1 as (G1 & ? & ?), S2 as (G2 & ? & ?).
    split; [|split; congruence].
    destruct G2 as [[E1 E2]|G2]; [|right; exact G2].
    destruct G1 as [[E3 E4]|(? & ? & ?)]; [left; split; congruence|].
    right. repeat split; congruence.
Qed.

Abbreviation within A := (runs_within (R:=R) (Rng:=Rng) (A:=A)).

Lemma within_keeps {A} gr lk (c : M St A) : keeps _ c -> within _ (heap_sim gr lk) c.
Proof. intros Hk s. rewrite Hk. apply heap_sim_refl. Qed.

Lemma within_bind {A B} gr lk (c : M St A) (f : A -> M St B) :
  within _ (heap_sim gr lk) c -> (forall a, within _ (heap_sim gr lk) (f a)) ->
  within _ (heap_sim gr lk) (c ≫= f).
Proof.
  intros Hc Hf s. rewrite bind_run. specialize (Hc s).
  destruct (c s) as [[a|e] s1]; cbn in *; [|exact Hc].
  eapply heap_sim_trans; [exact Hc | apply Hf].
Qed.

(** The slice assignment keeps row 0 and the shape, and the flags too
    unless it is recorded by autograd. *)
Lemma within_Embedding_assign gr e x xg :
  within _ (heap_sim gr (weight e))
         (Embedding_assign_rows_from_1 (Rng := Rng) gr e x xg).
Proof.
  intros s. rewrite Embedding_assign_run.
  destruct (f_heap s !! weight e) as [p|] eqn:Hp; [|apply heap_sim_refl].
  destruct (expand_to _ (drop 1 (data p)) x) as [rest|err] eqn:He;
    [|apply heap_sim_refl].
  destruct (gr && requires_grad p && negb (grad_fn p)); [apply heap_sim_refl|].
  cbn. split; [intros l Hl; apply lookup_insert_ne; auto|].
  rewrite Hp, lookup_insert_eq. cbn. split; [|split].
  - destruct gr, xg; cbn; rewrite ?orb_true_r, ?orb_false_r; auto.
  - apply expand_to_ok_lengths in He.
    destruct (data p) as [|row0 rows]; cbn in *.
    + destruct rest; [auto | discriminate].
    + reflexivity.
  - apply expand_to_ok_lengths in He.
    destruct (data p) as [|row0 rows]; cbn in *.
    + destruct rest; [auto | discriminate].
    + exact He.
Qed.

Lemma lengths_take_drop {A} (d d' : list (list A)) :
  take 1 d' = take 1 d -> lengths (drop 1 d') = lengths (drop 1 d) ->
  lengths d' = lengths d.
Proof.
  intros Ht Hd. rewrite <- (take_drop 1 d), <- (take_drop 1 d').
  unfold lengths in *. rewrite !map_app, Ht, Hd. reflexivity.
Qed.

Section Writes.
Hypothesis HF : layers_write_nothing L.

Ltac keeps_heap_step :=
  first
    [ apply keeps_heap_ret | apply keeps_heap_raise | apply keeps_heap_lift_res
    | apply keeps_heap_lift_rand | apply keeps_heap_key | apply keeps_heap_attr
    | apply keeps_heap_read_param | apply keeps_heap_Embedding_forward
    | apply keeps_heap_F_dropout | apply HF
    | apply keeps_heap_bind; [|intros ?]
    | match goal with
      | |- keeps_heap (if ?b then _ else _) => destruct b
      | |- keeps_heap (match ?p with pair _ _ => _ end) => destruct p
      end ].

Lemma within_embed_chars lk self training gr ex xq_emb xd_emb :
  c_layer_lookup ex = Some lk ->
  within _ (heap_sim gr (weight lk)) (embed_chars L self training gr ex xq_emb xd_emb).
Proof.
  intros Hlk. unfold embed_chars. rewrite Hlk.
  destruct (0 <? _); [|apply within_keeps, keeps_heap_ret].
  apply within_bind; [apply within_keeps, keeps_heap_attr|]. intros cl.
  apply within_bind; [apply within_keeps, keeps_heap_key|]. intros ce.
  apply within_bind; [apply within_keeps, keeps_heap_key|]. intros cm.
  apply within_bind; [apply within_keeps, HF|]. intros [xc xg].
  cbn [key]. rewrite bind_ret_l.
  apply within_bind; [apply within_Embedding_assign|]. intros [].
  apply within_keeps. repeat keeps_heap_step.
Qed.

Lemma keeps_heap_embed_chars_no_lookup self training gr ex xq_emb xd_emb :
  c_layer_lookup ex = None ->
  keeps _ (embed_chars L self training gr ex xq_emb xd_emb).
Proof.
  intros Hlk. unfold embed_chars. rewrite Hlk.
  destruct (0 <? _); [|apply keeps_heap_ret].
  apply keeps_heap_bind; [apply keeps_heap_attr|]. intros cl.
  apply keeps_heap_bind; [apply keeps_heap_key|]. intros ce.
  apply keeps_heap_bind; [apply keeps_heap_key|]. intros cm.
  apply keeps_heap_bind; [apply HF|]. intros [xc xg].
  cbn [key]. rewrite bind_raise_l. apply keeps_heap_raise.
Qed.

(** The stages of [forward] but for the character embeddings write to no
    parameter. *)
Lemma keeps_heap_forward_but_chars self training (ex : Example (R:=R))
    (chars : Tensor3 -> Tensor3 -> M St (Tensor3 * Tensor3)) :
  (forall xq xd, keeps _ (chars xq xd)) ->
  keeps _ ('(xq_emb, xd_emb) ← embed_words L self training ex;
           '(xq_emb, xd_emb) ← chars xq_emb xd_emb;
           drnn_input ← augment_document L self training ex xq_emb xd_emb;
           '(drnn_input, xq_emb) ←
             project_inputs bernoulli L self training drnn_input xq_emb;
           doc_hiddens ← encode_document L self training ex drnn_input;
           question_hidden ← encode_question L self training ex xq_emb;
           start_scores ← BilinearSeqAttn_forward L "start_attn" (start_attn self)
                            training doc_hiddens question_hidden (xd_mask ex);
           mret (doc_hiddens, question_hidden, start_scores)).
Proof.
  intros Hc.
  unfold embed_words, augment_document, project_inputs, encode_document,
    encode_question.
  repeat first [ apply Hc | keeps_heap_step ].
Qed.

Lemma within_forward lk self training gr ex :
  c_layer_lookup ex = Some lk ->
  within _ (heap_sim gr (weight lk)) (forward bernoulli L self training gr ex).
Proof.
  intros Hlk. unfold forward.
  apply within_bind.
  - unfold forward_start.
    apply within_bind.
    { apply within_keeps. unfold embed_words. repeat keeps_heap_step. }
    intros [xq0 xd0].
    apply within_bind; [apply within_embed_chars, Hlk|]. intros [xq1 xd1].
    apply within_keeps.
    unfold augment_document, project_inputs, encode_document, encode_question.
    repeat keeps_heap_step.
  - intros [[dh qh] ss]. apply within_keeps. repeat keeps_heap_step.
Qed.

Lemma keeps_heap_forward_no_lookup self training gr ex :
  c_layer_lookup ex = None -> keeps _ (forward bernoulli L self training gr ex).
Proof.
  intros Hlk. unfold forward, forward_start.
  apply keeps_heap_bind; [|intros [[dh qh] ss]; repeat keeps_heap_step].
  apply keeps_heap_forward_but_chars. intros xq xd.
  apply keeps_heap_embed_chars_no_lookup, Hlk.
Qed.

(** X8. Whatever a call does, return or raise, it writes to no parameter
    but the weight of the example's lookup embedding (the layers writing to
    none), and it creates and removes no parameter. Of that weight it keeps
    the first row and the shape. The flags of the weight are kept as well,
    unless the call runs in grad mode: then the weight may have come to
    require grad, with a [grad_fn]. In particular the call never changes
    the weights of the model's word embedding, unless that is the lookup
    embedding it was handed. *)
Theorem forward_writes_only_lookup_rows self training gr ex (s : St) :
  (forall l, (forall lk, c_layer_lookup ex = Some lk -> l <> weight lk) ->
     f_heap (forward bernoulli L self training gr ex s).2 !! l = f_heap s !! l) /\
  (forall l,
     f_heap (forward bernoulli L self training gr ex s).2 !! l = None <->
     f_heap s !! l = None) /\
  (forall l p p',
     f_heap s !! l = Some p ->
     f_heap (forward bernoulli L self training gr ex s).2 !! l = Some p' ->
     take 1 (data p') = take 1 (data p) /\
     lengths (data p') = lengths (data p) /\
     ((requires_grad p' = requires_grad p /\ grad_fn p' = grad_fn p) \/
      (gr = true /\ requires_grad p' = true /\ grad_fn p' = true))).
Proof.
  destruct (c_layer_lookup ex) as [lk|] eqn:Hlk.
  - destruct (within_forward lk self training gr ex Hlk s) as [Hframe Hsim].
    split; [intros l Hl; apply Hframe, (Hl lk eq_refl)|].
    split.
    + intros l. destruct (decide (l = weight lk)) as [->|Hne].
      * destruct (f_heap s !! weight lk) as [p|],
          (f_heap (forward bernoulli L self training gr ex s).2 !! weight lk) as [p'|];
          try contradiction; [split; discriminate | tauto].
      * rewrite (Hframe _ Hne). tauto.
    + intros l p p' Hp Hp'. destruct (decide (l = weight lk)) as [->|Hne].
      * rewrite Hp, Hp' in Hsim. destruct Hsim as (Hg & Ht & Hd).
        split; [exact Ht|]. split; [exact (lengths_take_drop _ _ Ht Hd) | exact Hg].
      * rewrite (Hframe _ Hne), Hp in Hp'. injection Hp' as <-. auto.
  - rewrite (keeps_heap_forward_no_lookup self training gr ex Hlk s).
    split; [reflexivity|]. split; [tauto|].
    intros l p p' Hp Hp'. rewrite Hp in Hp'. injection Hp' as <-. auto.
Qed.

End Writes.

(** *** The width the end scorer is built for *)

Lemma Forall_zip_with_both {A B C} (P : A -> Prop) (Q : B -> Prop) (T : C -> Prop)
    (f : A -> B -> C) xs ys :
  (forall x y, P x -> Q y -> T (f x y)) ->
  Forall P xs -> Forall Q ys -> Forall T (zip_with f xs ys).
Proof.
  intros Hf Hx. revert ys. induction Hx as [|x xs Hx _ IH]; intros ys Hy;
    destruct Hy as [|y ys Hy Hys]; cbn; constructor; auto.
Qed.

Lemma length_sum_axis0 (wd : nat) (rows : list (list R)) :
  rows <> [] -> Forall (fun r => length r = wd) rows ->
  length (sum_axis0 rows) = wd.
Proof.
  intros Hne Hr. destruct rows as [|r rows]; [contradiction|].
  unfold sum_axis0. rewrite length_map, length_seq. inversion Hr; auto.
Qed.

(** X9. The end scorer is built for the question vector that [forward]
    hands it: if the document representation has the width the start
    scorer was built for, over at least one position, and the question
    summary has the width the start scorer expects, then the vector for
    the end scorer has in every example the width [y_size] of the end
    scorer, with or without span dependency; and both scorers are built
    for the same document width. *)
Theorem end_scorer_gets_its_width cfg w c (s0 c1 : CtorState (R:=R)) m
    dh qh ss q (b l wd : nat) :
  DrQA_init Inits cfg w c s0 = (Ok m, c1) ->
  shape3 b l wd dh -> shape2 b l ss -> (0 < l)%nat ->
  Z.of_nat wd = x_size (start_attn m) ->
  width2 (y_size (start_attn m)) qh ->
  end_question_vector m dh qh ss = Ok q ->
  x_size (end_attn m) = x_size (start_attn m) /\
  width2 (y_size (end_attn m)) q.
Proof.
  intros Hi Hd Hs Hl Hwd Hq Hr.
  apply DrQA_init_ok in Hi as (cls & _ & _ & _ & _ & _ & Hm & _).
  destruct Hm as (Hc & _ & _ & _ & _ & _ & _ & _ & _ & _ & Hsa & Hea).
  assert (Hx : x_size (end_attn m) = x_size (start_attn m))
    by (rewrite Hsa, Hea; reflexivity).
  assert (Hy : y_size (end_attn m)
               = if span_dependency cfg
                 then y_size (start_attn m) + x_size (start_attn m)
                 else y_size (start_attn m))
    by (rewrite Hsa, Hea; reflexivity).
  clear Hsa Hea. split; [exact Hx|]. rewrite Hy.
  unfold end_question_vector in Hr. rewrite Hc in Hr.
  destruct (span_dependency cfg); [|injection Hr as <-; exact Hq].
  rewrite (mul3_unsqueeze_ok b l wd) in Hr by assumption. cbn in Hr.
  unfold cat1 in Hr. destruct (zip_res_ok_length _ _ _ _ Hr) as [Hlen _].
  rewrite (zip_res_Forall2 _ app) in Hr
    by (apply Forall2_true; [reflexivity | exact Hlen]).
  injection Hr as <-. unfold width2.
  apply (Forall_zip_with_both
           (fun u => Z.of_nat (length u) = y_size (start_attn m))
           (fun v => length v = wd));
    [| exact Hq |].
  - intros u v Hu Hv. rewrite length_app, Nat2Z.inj_add, Hu, Hv, Hwd. reflexivity.
  - unfold sum1. apply Forall_map.
    destruct Hd as [Hb Hd], Hs as [Hb' Hs].
    apply (Forall_zip_with_both (shape2 l wd) (fun ps => length ps = l));
      [| exact Hd | exact Hs].
    intros doc ps [Hdl Hdw] Hps. apply length_sum_axis0.
    + destruct doc, ps; cbn in *; try lia. discriminate.
    + apply (Forall_zip_with_l (fun r => length r = wd)); [|exact Hdw].
      intros d p Hd'. rewrite length_map. exact Hd'.
Qed.

(** *** The widths the encoders are built for *)

Lemma zip_res_ok_Forall_both {A B C} (P : A -> Prop) (Q : B -> Prop) (T : C -> Prop)
    (f : A -> B -> Res C) xs ys zs :
  (forall x y z, P x -> Q y -> f x y = Ok z -> T z) ->
  Forall P xs -> Forall Q ys -> zip_res f xs ys = Ok zs -> Forall T zs.
Proof.
  intros Hf Hx. revert ys zs. induction Hx as [|x xs Hx _ IH]; intros ys zs Hy;
    destruct Hy as [|y ys Hy Hys]; cbn; try discriminate.
  - intros [= <-]. constructor.
  - destruct (f x y) as [z|] eqn:Hz; cbn; [|discriminate].
    destruct (zip_res f xs ys) as [zs'|] eqn:Hzs; cbn; [|discriminate].
    intros [= <-]. constructor; eauto.
Qed.

Lemma map_res_ok_Forall {A B} (T : B -> Prop) (f : A -> Res B) xs ys :
  (forall x y, f x = Ok y -> T y) -> map_res f xs = Ok ys -> Forall T ys.
Proof.
  intros Hf. revert ys. induction xs as [|x xs IH]; intros ys; cbn.
  - intros [= <-]. constructor.
  - destruct (f x) as [y|] eqn:Hy; cbn; [|discriminate].
    destruct (map_res f xs) as [ys'|]; cbn; [|discriminate].
    intros [= <-]. constructor; eauto.
Qed.

Lemma width3_cat2 wa wb (a b t : list (list (list R))) :
  cat2 a b = Ok t -> width3 wa a -> width3 wb b -> width3 (wa + wb) t.
Proof.
  unfold cat2, width3. intros Hr Ha Hb.
  eapply (zip_res_ok_Forall_both (width2 wa) (width2 wb)); [|exact Ha|exact Hb|exact Hr].
  cbn. intros x y z Hx Hy Hz. unfold width2 in *.
  eapply (zip_res_ok_Forall_both _ _ _ _ _ _ _ _ Hx Hy Hz). Unshelve.
  cbn. intros u v r Hu Hv [= <-]. rewrite length_app. lia.
Qed.

Lemma width3_F_relu wd (t : list (list (list R))) :
  width3 wd t -> width3 wd (F_relu t).
Proof.
  unfold width3, width2, F_relu. intros Ht. apply Forall_map.
  eapply Forall_impl; [exact Ht|]. cbn. intros r Hr. apply Forall_map.
  eapply Forall_impl; [exact Hr|]. cbn. intros v Hv. rewrite length_map. exact Hv.
Qed.

Lemma width3_same_lengths wd (y x : list (list (list R))) :
  Forall2 (Forall2 (fun vy vx => length vy = length vx)) y x ->
  width3 wd x -> width3 wd y.
Proof.
  unfold width3, width2. intros Hyx Hx. revert Hx.
  induction Hyx as [|ry rx y x Hr _ IH]; intros Hx; [constructor|].
  inversion Hx as [|? ? Hrx Hx']; subst. constructor; [|auto].
  clear IH Hx Hx'. induction Hr as [|vy vx ry rx Hv _ IH]; [constructor|].
  inversion Hrx; subst. constructor; [lia | auto].
Qed.

Lemma width3_F_dropout wd x p training y (s s' : St) :
  F_dropout bernoulli x p training s = (Ok y, s') -> width3 wd x -> width3 wd y.
Proof.
  destruct training.
  - intros Hr. apply F_dropout_train_ok in Hr. apply width3_same_lengths.
    eapply Forall2_impl; [exact Hr|]. cbn. intros a b Hab.
    eapply Forall2_impl; [exact Hab|]. cbn. intros u v Huv.
    eapply Forall2_length; eauto.
  - rewrite F_dropout_eval. destruct (negb _); [discriminate|].
    intros Hr. apply ret_ok_inv in Hr as [-> _]. auto.
Qed.

(** The vectors an embedding returns are rows of its weight. *)
Lemma width3_Embedding_forward wd e input p t (s s' : St) :
  f_heap s !! weight e = Some p -> width2 wd (data p) ->
  Embedding_forward e input s = (Ok t, s') -> width3 wd t.
Proof.
  intros Hp Hw. unfold Embedding_forward. intros Hr.
  apply bind_ok_inv in Hr as (p' & s1 & Hp' & Hr).
  apply read_param_ok_inv in Hp' as [Hp' ->]. rewrite Hp in Hp'. injection Hp' as <-.
  apply lift_res_ok_inv in Hr as [Hr _]. unfold width3.
  eapply map_res_ok_Forall; [|exact Hr]. cbn. intros ids row Hrow.
  eapply map_res_ok_Forall; [|exact Hrow]. cbn. intros i v Hv.
  unfold embedding_row in Hv. destruct (_ <? _); [discriminate|].
  destruct (data p !! Z.to_nat i) as [r|] eqn:Hl; [|discriminate].
  injection Hv as <-. unfold width2 in Hw. rewrite Forall_forall in Hw.
  apply Hw. eapply list_elem_of_lookup_2; eauto.
Qed.

(** The slice assignment keeps the width of the weight. *)
Lemma width2_assigned wd (d rest x : list (list R)) :
  width2 wd d ->
  expand_to (expand_to (fun _ v => Ok v)) (drop 1 d) x = Ok rest ->
  width2 wd (take 1 d ++ rest).
Proof.
  intros Hd He. apply expand_to_ok_lengths in He. unfold width2 in *.
  apply Forall_app. split; [apply Forall_take, Hd|].
  assert (Hdrop : Forall (fun v => Z.of_nat (length v) = wd) (drop 1 d))
    by apply Forall_drop, Hd.
  revert He Hdrop. generalize (drop 1 d). unfold lengths.
  induction rest as [|r rest IH]; intros [|t ts]; cbn; try discriminate;
    [constructor|].
  intros [= Hr Hl] Ht. inversion Ht; subst. constructor; [lia | eauto].
Qed.

Section Widths.
Hypothesis HW : layer_widths L.
Hypothesis HF : layers_write_nothing L.

Lemma width3_embed_words wd self training ex p xq0 xd0 (s sa : St) :
  f_heap s !! weight (w_embedding self) = Some p -> width2 wd (data p) ->
  embed_words L self training ex s = (Ok (xq0, xd0), sa) ->
  width3 wd xq0 /\ width3 wd xd0.
Proof.
  destruct HW as (Hdrop & _). intros Hp Hw. unfold embed_words. intros Hr.
  apply bind_ok_inv in Hr as (q0 & s1 & Hq0 & Hr).
  assert (Hs1 : f_heap s1 = f_heap s)
    by exact (keeps_heap_run _ _ _ _ (keeps_heap_Embedding_forward _ _) Hq0).
  apply bind_ok_inv in Hr as (d0 & s2 & Hd0 & Hr).
  apply bind_ok_inv in Hr as (q1 & s3 & Hq1 & Hr).
  apply bind_ok_inv in Hr as (d1 & s4 & Hd1 & Hr).
  apply ret_ok_inv in Hr as [E _]. injection E as -> ->.
  split.
  - eapply Hdrop; [exact Hq1|]. eapply width3_Embedding_forward; eauto.
  - eapply Hdrop; [exact Hd1|].
    eapply (width3_Embedding_forward _ _ _ p); [|exact Hw|exact Hd0].
    rewrite Hs1. exact Hp.
Qed.

Lemma width3_embed_chars wd self training gr ex xq0 xd0 xq1 xd1 (s s' : St) :
  0 <= char_embed (config self) ->
  (forall lk p, c_layer_lookup ex = Some lk -> f_heap s !! weight lk = Some p ->
                width2 (char_embed (config self)) (data p)) ->
  width3 wd xq0 -> width3 wd xd0 ->
  embed_chars L self training gr ex xq0 xd0 s = (Ok (xq1, xd1), s') ->
  width3 (wd + char_embed (config self)) xq1 /\
  width3 (wd + char_embed (config self)) xd1.
Proof.
  intros Hnn Hlkw Hq Hd. unfold embed_chars.
  destruct (Z.ltb_spec 0 (char_embed (config self))) as [Hpos|Hle].
  - intros Hr.
    apply bind_ok_inv in Hr as (cl & s1 & Hcl & Hr).
    apply attr_ok_inv in Hcl as [Hcl ->].
    apply bind_ok_inv in Hr as (ce & s1 & Hce & Hr).
    apply key_ok_inv in Hce as [Hce ->].
    apply bind_ok_inv in Hr as (cm & s1 & Hcm & Hr).
    apply key_ok_inv in Hcm as [Hcm ->].
    apply bind_ok_inv in Hr as ([xc_rep xg] & s1 & Hx & Hr).
    assert (Hh1 : f_heap s1 = f_heap s)
      by (eapply keeps_heap_run; [|exact Hx]; apply HF).
    apply bind_ok_inv in Hr as (lookup & s2 & Hlk & Hr).
    apply key_ok_inv in Hlk as [Hlk ->].
    apply bind_ok_inv in Hr as ([] & s2 & Hw & Hr).
    apply Embedding_assign_ok_inv in Hw as (p & rest & Hp & He & _ & Hs2).
    rewrite Hh1 in Hp.
    assert (Hwp : width2 (char_embed (config self)) (take 1 (data p) ++ rest))
      by (eapply width2_assigned; [eapply Hlkw; eauto | exact He]).
    apply bind_ok_inv in Hr as (lookup1 & s3 & Hlk1 & Hr).
    apply key_ok_inv in Hlk1 as [Hlk1 ->].
    rewrite Hlk in Hlk1. injection Hlk1 as <-.
    apply bind_ok_inv in Hr as (qc & s3 & Hqc & Hr).
    apply key_ok_inv in Hqc as [Hqc ->].
    apply bind_ok_inv in Hr as (xqc_emb & s3 & Hqe & Hr).
    assert (Hs3 : f_heap s3 = f_heap s2)
      by exact (keeps_heap_run _ _ _ _ (keeps_heap_Embedding_forward _ _) Hqe).
    apply bind_ok_inv in Hr as (lookup2 & s4 & Hlk2 & Hr).
    apply key_ok_inv in Hlk2 as [Hlk2 ->].
    rewrite Hlk in Hlk2. injection Hlk2 as <-.
    apply bind_ok_inv in Hr as (dc & s4 & Hdc & Hr).
    apply key_ok_inv in Hdc as [Hdc ->].
    apply bind_ok_inv in Hr as (xdc_emb & s4 & Hde & Hr).
    apply bind_ok_inv in Hr as (q1 & s5 & Hq1 & Hr).
    apply lift_res_ok_inv in Hq1 as [Hq1 ->].
    apply bind_ok_inv in Hr as (d1 & s5 & Hd1 & Hr).
    apply lift_res_ok_inv in Hd1 as [Hd1 ->].
    apply ret_ok_inv in Hr as [E _]. injection E as -> ->.
    assert (Hp' : f_heap s2 !! weight lookup
                  = Some {| data := take 1 (data p) ++ rest;
                            requires_grad := requires_grad p || gr && xg;
                            grad_fn := grad_fn p || gr && xg |})
      by (rewrite Hs2; apply lookup_insert_eq).
    split.
    + eapply width3_cat2; [exact Hq1 | exact Hq |].
      eapply width3_Embedding_forward; [exact Hp' | exact Hwp | exact Hqe].
    + eapply width3_cat2; [exact Hd1 | exact Hd |].
      eapply width3_Embedding_forward;
        [rewrite Hs3; exact Hp' | exact Hwp | exact Hde].
  - intros Hr. apply ret_ok_inv in Hr as [E _]. injection E as -> ->.
    assert (char_embed (config self) = 0) as -> by lia.
    rewrite Z.add_0_r. auto.
Qed.

Lemma width3_augment_document wd self training ex xq1 xd1 drnn0 (s s' : St) :
  0 <= num_features (config self) ->
  (forall f, xd_f ex = Some f -> width3 (num_features (config self)) f) ->
  (forall qm, qemb_match self = Some qm -> sam_input_size qm = wd) ->
  width3 wd xd1 ->
  augment_document L self training ex xq1 xd1 s = (Ok drnn0, s') ->
  width3 (if use_qemb (config self)
          then wd + num_features (config self) + wd
          else wd + num_features (config self)) drnn0.
Proof.
  destruct HW as (_ & Hmatch & _). intros Hnn Hf Hqm Hd.
  unfold augment_document. intros Hr.
  apply bind_ok_inv in Hr as (d0 & s1 & H1 & Hr).
  assert (Hd0 : width3 (if use_qemb (config self) then wd + wd else wd) d0).
  { destruct (use_qemb _).
    - apply bind_ok_inv in H1 as (qm & s2 & Hq & H1).
      apply attr_ok_inv in Hq as [Hq ->].
      apply bind_ok_inv in H1 as (z & s3 & Hz & H1).
      apply lift_res_ok_inv in H1 as [H1 _].
      eapply width3_cat2; [exact H1 | exact Hd |].
      rewrite <- (Hqm _ Hq). eapply Hmatch; exact Hz.
    - apply ret_ok_inv in H1 as [-> _]. exact Hd. }
  revert Hr. destruct (Z.ltb_spec 0 (num_features (config self))) as [Hpos|Hle];
    intros Hr.
  - apply bind_ok_inv in Hr as (f & s2 & Hk & Hr).
    apply key_ok_inv in Hk as [Hk ->].
    apply lift_res_ok_inv in Hr as [Hr _].
    pose proof (width3_cat2 _ _ _ _ _ Hr Hd0 (Hf _ Hk)) as Hw.
    destruct (use_qemb _);
      (replace (wd + num_features (config self) + wd)
         with (wd + wd + num_features (config self)) by lia); exact Hw.
  - apply ret_ok_inv in Hr as [-> _].
    assert (num_features (config self) = 0) as -> by lia.
    destruct (use_qemb _); rewrite ?Z.add_0_r; exact Hd0.
Qed.

Lemma width3_project_inputs wq wdoc self training drnn0 xq1 drnn1 xq2 (s s' : St) :
  (resize_rnn_input (config self) = true ->
   exists dl ql, doc_linear self = Some dl /\ q_linear self = Some ql /\
                 out_features dl = hidden_size (config self) /\
                 out_features ql = hidden_size (config self)) ->
  width3 wdoc drnn0 -> width3 wq xq1 ->
  project_inputs bernoulli L self training drnn0 xq1 s = (Ok (drnn1, xq2), s') ->
  width3 (if resize_rnn_input (config self) then hidden_size (config self) else wdoc)
         drnn1 /\
  width3 (if resize_rnn_input (config self) then hidden_size (config self) else wq)
         xq2.
Proof.
  destruct HW as (_ & _ & Hlin). intros Hres Hd Hq. unfold project_inputs.
  destruct (resize_rnn_input _).
  - destruct (Hres eq_refl) as (dl0 & ql0 & Hdl & Hql & Hod & Hoq).
    rewrite Hdl, Hql. cbn [attr]. rewrite !bind_ret_l. intros Hr.
    apply bind_ok_inv in Hr as (d & s2 & H2 & Hr). rewrite bind_ret_l in Hr.
    apply bind_ok_inv in Hr as (q & s4 & H4 & Hr).
    apply Hlin in H2, H4. rewrite Hod in H2. rewrite Hoq in H4.
    apply width3_F_relu in H2, H4.
    revert Hr. destruct (negb _); intros Hr.
    + apply bind_ok_inv in Hr as (d' & s5 & H5 & Hr).
      apply bind_ok_inv in Hr as (q' & s6 & H6 & Hr).
      apply ret_ok_inv in Hr as [E _]. injection E as -> ->.
      split; eapply width3_F_dropout; eauto.
    + apply ret_ok_inv in Hr as [E _]. injection E as -> ->. auto.
  - intros Hr. apply ret_ok_inv in Hr as [E _]. injection E as -> ->. auto.
Qed.

(** X10. The encoders are built for what [forward] feeds them. Take a
    model that [__init__] returned, with [char_embed] and [num_features]
    not negative, and an example whose tensors have the declared widths:
    the word embedding's rows [embedding_dim], the lookup table's rows
    [char_embed], the features [num_features]. In a call that returns, the
    document encoder is run on vectors of its [input_size] and the question
    encoder on vectors of its own, whatever combination of character
    embeddings, question matcher, features and projection is switched on
    (the layers returning the widths they are built for, and writing to no
    parameter). *)
Theorem encoders_get_their_widths cfg w c (s0 c1 : CtorState (R:=R)) m
    training gr ex out (s s' : St) :
  DrQA_init Inits cfg w c s0 = (Ok m, c1) ->
  0 <= char_embed cfg -> 0 <= num_features cfg ->
  (exists p, f_heap s !! weight w = Some p /\ width2 (embedding_dim w) (data p)) ->
  (forall lk p, c_layer_lookup ex = Some lk -> f_heap s !! weight lk = Some p ->
                width2 (char_embed cfg) (data p)) ->
  (forall f, xd_f ex = Some f -> width3 (num_features cfg) f) ->
  forward bernoulli L m training gr ex s = (Ok out, s') ->
  exists xq0 xd0 sa xq1 xd1 sb drnn0 sc drnn_input xq_emb sd h1 t1 dh se h2 t2,
    embed_words L m training ex s = (Ok (xq0, xd0), sa) /\
    embed_chars L m training gr ex xq0 xd0 sa = (Ok (xq1, xd1), sb) /\
    augment_document L m training ex xq1 xd1 sb = (Ok drnn0, sc) /\
    project_inputs bernoulli L m training drnn0 xq1 sc = (Ok (drnn_input, xq_emb), sd) /\
    StackedBRNN_forward L "doc_rnn" (doc_rnn m) training drnn_input (xd_mask ex) sd
      = (Ok h1, t1) /\
    width3 (brnn_input_size (doc_rnn m)) drnn_input /\
    encode_document L m training ex drnn_input sd = (Ok dh, se) /\
    StackedBRNN_forward L "question_rnn" (question_rnn m) training xq_emb
                        (xq_mask ex) se = (Ok h2, t2) /\
    width3 (brnn_input_size (question_rnn m)) xq_emb.
Proof.
  intros Hi Hce Hnf (p & Hp & Hpw) Hlk Hf Hr.
  apply DrQA_init_ok in Hi as (cls & _ & _ & _ & _ & _ & Hm & _).
  destruct Hm as (Hc & Hw & _ & Hqm & Hdl & Hql & Hdr & Hqr & _).
  apply forward_ok_inv in Hr as (dh & qh & ss & s1 & q & se & Hs & _).
  apply forward_start_ok_inv in Hs
    as (xq0 & xd0 & sa & xq1 & xd1 & sb & drnn0 & sc & drnn1 & xq2 & sd & se' & sf
        & H1 & H2 & H3 & H4 & H5 & H6 & _).
  assert (Hsa : f_heap sa = f_heap s).
  { eapply keeps_heap_run; [|exact H1]. unfold embed_words.
    apply keeps_heap_bind; [apply keeps_heap_Embedding_forward|]. intros ?.
    apply keeps_heap_bind; [apply keeps_heap_Embedding_forward|]. intros ?.
    apply keeps_heap_bind; [apply HF|]. intros ?.
    apply keeps_heap_bind; [apply HF|]. intros ?. apply keeps_heap_ret. }
  rewrite <- Hw in Hp.
  destruct (width3_embed_words _ _ _ _ _ _ _ _ _ Hp Hpw H1) as [Wq0 Wd0].
  rewrite <- Hc in Hce, Hnf, Hlk, Hf.
  assert (Hlk' : forall lk p0, c_layer_lookup ex = Some lk ->
                   f_heap sa !! weight lk = Some p0 ->
                   width2 (char_embed (config m)) (data p0))
    by (intros lk p0 Hl Hp0; rewrite Hsa in Hp0; eauto).
  destruct (width3_embed_chars _ _ _ _ _ _ _ _ _ _ _ Hce Hlk' Wq0 Wd0 H2) as [Wq1 Wd1].
  assert (Hsam : forall qm, qemb_match m = Some qm ->
                   sam_input_size qm = embedding_dim w + char_embed (config m)).
  { rewrite Hqm, Hc. destruct (use_qemb cfg); intros qm [= <-]. reflexivity. }
  pose proof (width3_augment_document _ _ _ _ _ _ _ _ _ Hnf Hf Hsam Wd1 H3) as Wd.
  assert (Hres : resize_rnn_input (config m) = true ->
                 exists dl ql, doc_linear m = Some dl /\ q_linear m = Some ql /\
                   out_features dl = hidden_size (config m) /\
                   out_features ql = hidden_size (config m)).
  { rewrite Hdl, Hql, Hc. intros ->. eauto 10. }
  destruct (width3_project_inputs _ _ _ _ _ _ _ _ _ _ Hres Wd Wq1 H4) as [Wd2 Wq2].
  pose proof H5 as H5'.
  unfold encode_document in H5. apply bind_ok_inv in H5 as (h1 & t1 & Hh1 & _).
  unfold encode_question in H6. apply bind_ok_inv in H6 as (h2 & t2 & Hh2 & _).
  exists xq0, xd0, sa, xq1, xd1, sb, drnn0, sc, drnn1, xq2, sd, h1, t1, dh, se', h2, t2.
  repeat (split; [assumption|]).
  split; [|split; [exact H5'|split; [exact Hh2|]]].
  - rewrite Hdr. cbn. rewrite Hc in Wd2. exact Wd2.
  - rewrite Hqr. cbn. rewrite Hc in Wq2. exact Wq2.
Qed.

End Widths.

(** *** A second call after the first *)

Lemma reads_not_bind {A B} lk (c : M St A) (f : A -> M St B) :
  reads_not lk c -> keeps _ c -> (forall a, reads_not lk (f a)) ->
  reads_not lk (c ≫= f).
Proof.
  intros Hc Hk Hf s1 s2 Hs. rewrite !bind_run.
  pose proof (Hc s1 s2 Hs) as Hr. pose proof (Hk s1) as K1. pose proof (Hk s2) as K2.
  destruct (c s1) as [r1 t1], (c s2) as [r2 t2]. cbn in *. subst r2.
  destruct r1 as [a|e]; [|reflexivity].
  apply Hf. intros l Hl. rewrite K1, K2. auto.
Qed.

Lemma reads_not_ret {A} lk (a : A) : reads_not (R := R) lk (mret (M := M St) a).
Proof. intros s1 s2 _. reflexivity. Qed.

Lemma reads_not_lift_res {A} lk (r : Res A) :
  reads_not (R := R) (Rng := Rng) lk (lift_res r).
Proof. intros s1 s2 _. reflexivity. Qed.

(** Reading a parameter other than the one the heaps differ at. *)
Lemma reads_not_read_param lk l :
  l <> lk -> reads_not lk (read_param (R := R) (Rng := Rng) l).
Proof.
  intros Hne s1 s2 Hs. unfold read_param.
  rewrite (Hs _ Hne). destruct (f_heap s2 !! l); reflexivity.
Qed.

Lemma reads_not_Embedding_forward lk e input :
  weight e <> lk -> reads_not lk (Embedding_forward (R := R) (Rng := Rng) e input).
Proof.
  intros Hne. unfold Embedding_forward.
  apply reads_not_bind;
    [apply reads_not_read_param, Hne | apply keeps_heap_read_param|].
  intros p. apply reads_not_lift_res.
Qed.

Section Twice.
Hypothesis HL : eval_deterministic L.
Hypothesis HF : layers_write_nothing L.

Lemma reads_not_embed_words lk self ex :
  weight (w_embedding self) <> lk ->
  (forall x p axes, reads_not lk (layers_dropout L x p axes false)) ->
  reads_not lk (embed_words L self false ex).
Proof.
  intros Hne Hd. unfold embed_words.
  apply reads_not_bind;
    [apply reads_not_Embedding_forward, Hne | apply keeps_heap_Embedding_forward|].
  intros xq0.
  apply reads_not_bind;
    [apply reads_not_Embedding_forward, Hne | apply keeps_heap_Embedding_forward|].
  intros xd0.
  apply reads_not_bind; [apply Hd | apply HF|]. intros xq1.
  apply reads_not_bind; [apply Hd | apply HF|]. intros xd1.
  apply reads_not_ret.
Qed.

Lemma indep_forward_tail self ex xq1 xd1 :
  rng_independent (after_chars self false ex xq1 xd1
                   ≫= fun '(dh, qh, ss) => after_start self false ex dh qh ss).
Proof.
  apply indep_bind; [apply indep_after_chars, HL|]. intros [[dh qh] ss].
  apply indep_forward_end, HL.
Qed.

(** The slice that was written is written again, and nothing changes. *)
Lemma Embedding_assign_again gr e x xg p rest (t : St) :
  expand_to (expand_to (fun _ v => Ok v)) (drop 1 (data p)) x = Ok rest ->
  gr && requires_grad p && negb (grad_fn p) = false ->
  f_heap t !! weight e = Some {| data := take 1 (data p) ++ rest;
                                 requires_grad := requires_grad p || gr && xg;
                                 grad_fn := grad_fn p || gr && xg |} ->
  Embedding_assign_rows_from_1 gr e x xg t
  = (Ok tt, {| rng := rng t; f_heap := f_heap t |}).
Proof.
  intros He Hchk Ht. rewrite Embedding_assign_run, Ht. cbn [data requires_grad grad_fn].
  pose proof (expand_to_ok_lengths _ _ _ He) as Hl.
  assert (Hd : lengths (drop 1 (take 1 (data p) ++ rest)) = lengths (drop 1 (data p))
               /\ take 1 (take 1 (data p) ++ rest) = take 1 (data p)).
  { destruct (data p) as [|row0 rows]; cbn in *.
    - destruct rest; [auto | discriminate].
    - auto. }
  destruct Hd as [Hd Htk].
  rewrite (expand_to_shape_only _ _ x Hd), He, Htk.
  assert (Hc : gr && (requires_grad p || gr && xg) && negb (grad_fn p || gr && xg)
               = false).
  { destruct gr, xg, (requires_grad p), (grad_fn p); cbn in *; congruence. }
  rewrite Hc. f_equal. f_equal.
  rewrite <- !orb_assoc, !orb_diag. apply insert_id. exact Ht.
Qed.

Ltac plain_indep_step :=
  first
    [ apply indep_ret | apply indep_raise | apply indep_lift_res
    | apply indep_key | apply indep_attr | apply indep_Embedding_forward
    | apply indep_bind; [|intros ?] ].

Ltac plain_keeps_step :=
  first
    [ apply keeps_heap_ret | apply keeps_heap_raise | apply keeps_heap_lift_res
    | apply keeps_heap_key | apply keeps_heap_attr
    | apply keeps_heap_Embedding_forward
    | apply keeps_heap_bind; [|intros ?] ].

(** The character stage once more, from the heap the first pass left. *)
Lemma embed_chars_again self gr ex xq0 xd0 r (sa sb ta : St) :
  (0 <? char_embed (config self)) = true ->
  (forall lk cl ce cm, c_layer_lookup ex = Some lk -> char_layer self = Some cl ->
     reads_not (weight lk) (CharEmbeddingLayer_forward L cl false gr ce cm)) ->
  embed_chars L self false gr ex xq0 xd0 sa = (Ok r, sb) ->
  f_heap ta = f_heap sb ->
  (embed_chars L self false gr ex xq0 xd0 ta).1 = Ok r /\
  f_heap (embed_chars L self false gr ex xq0 xd0 ta).2 = f_heap sb.
Proof.
  intros Hc Hrd. unfold embed_chars. rewrite Hc. intros Hr Hta.
  apply bind_ok_inv in Hr as (cl & s1 & Hcl & Hr).
  apply attr_ok_inv in Hcl as [Hcl ->].
  apply bind_ok_inv in Hr as (ce & s1 & Hce & Hr).
  apply key_ok_inv in Hce as [Hce ->].
  apply bind_ok_inv in Hr as (cm & s1 & Hcm & Hr).
  apply key_ok_inv in Hcm as [Hcm ->].
  apply bind_ok_inv in Hr as ([xc xg] & s1 & Hx & Hr).
  apply bind_ok_inv in Hr as (lookup & s2 & Hlk & Hr).
  apply key_ok_inv in Hlk as [Hlk ->].
  apply bind_ok_inv in Hr as ([] & s2 & Hw & Hr).
  apply Embedding_assign_ok_inv in Hw as (p & rest & Hp & He & Hchk & Hs2).
  assert (Hh1 : f_heap s1 = f_heap sa)
    by (eapply keeps_heap_run; [|exact Hx]; apply HF).
  rewrite Hlk in Hr.
  match type of Hr with ?T _ = _ => set (tl := T) in Hr end.
  assert (Htk : keeps _ tl) by (subst tl; cbv beta; repeat plain_keeps_step).
  assert (Hti : indep _ tl) by (subst tl; cbv beta; repeat plain_indep_step).
  assert (Hsb : f_heap sb = f_heap s2) by (exact (keeps_heap_run _ _ _ _ Htk Hr)).
  rewrite Hh1 in Hp, Hs2.
  pose proof (Hrd lookup cl ce cm Hlk Hcl ta sa) as Hrx.
  rewrite Hx in Hrx. cbn [fst] in Hrx.
  rewrite Hcl, Hce, Hcm. cbn [attr key]. rewrite ?bind_ret_l.
  rewrite (bind_run (CharEmbeddingLayer_forward _ _ _ _ _ _)).
  destruct (CharEmbeddingLayer_forward L cl false gr ce cm ta) as [rx t1] eqn:Ex.
  assert (Hh2 : f_heap t1 = f_heap ta)
    by (eapply keeps_heap_run; [|exact Ex]; apply HF).
  cbn [fst] in Hrx. rewrite Hrx.
  2:{ intros l Hl. rewrite Hta, Hsb, Hs2. apply lookup_insert_ne. congruence. }
  cbv beta iota. rewrite Hlk. cbn [key]. rewrite ?bind_ret_l.
  rewrite (bind_run (Embedding_assign_rows_from_1 _ _ _ _)).
  rewrite (Embedding_assign_again gr lookup xc xg p rest t1 He Hchk).
  2:{ rewrite Hh2, Hta, Hsb, Hs2. apply lookup_insert_eq. }
  cbv beta iota.
  destruct (Hti {| rng := rng t1; f_heap := f_heap t1 |} s2) as [Ha Hb].
  { cbn. rewrite Hh2, Hta, Hsb. reflexivity. }
  rewrite Hr in Ha, Hb. exact (conj Ha Hb).
Qed.

(** X11. In evaluation mode a second call of [forward] on the same example
    returns what the first returned and leaves the heap as the first left
    it, when the layers write to no parameter and, with character
    embeddings on, the lookup table is not read before it is written: its
    weight is not the word embedding's, and neither dropout nor the
    character layer read it. *)
Theorem forward_eval_twice self gr ex out (s s1 : St) :
  ((0 <? char_embed (config self)) = true ->
   forall lk, c_layer_lookup ex = Some lk ->
     weight (w_embedding self) <> weight lk /\
     (forall x p axes, reads_not (weight lk) (layers_dropout L x p axes false)) /\
     (forall cl ce cm, char_layer self = Some cl ->
        reads_not (weight lk)
                  (CharEmbeddingLayer_forward L cl false gr ce cm))) ->
  forward bernoulli L self false gr ex s = (Ok out, s1) ->
  (forward bernoulli L self false gr ex s1).1 = Ok out /\
  f_heap (forward bernoulli L self false gr ex s1).2 = f_heap s1.
Proof.
  intros Hlkp Hr.
  destruct (0 <? char_embed (config self)) eqn:Hc.
  - specialize (Hlkp eq_refl).
    pose proof Hr as Hst.
    apply forward_stages in Hst
      as (xq0 & xd0 & sa & xq1 & xd1 & sb & drnn0 & sc & drnn1 & xq2 & sd & dh & se
          & qh & sf & s2 & q & H1 & H2 & _).
    pose proof (forward_after_chars _ _ _ _ _ _ _ _ _ _ _ H1 H2) as Hfa.
    rewrite Hr in Hfa. symmetry in Hfa.
    assert (Hsa : f_heap sa = f_heap s)
      by (exact (keeps_heap_run _ _ _ _ (keeps_heap_embed_words HF _ _ _) H1)).
    assert (Hs1 : f_heap s1 = f_heap sb).
    { eapply keeps_heap_run; [|exact Hfa].
      apply (keeps_heap_forward_tail HF). }
    pose proof H2 as H2'.
    apply (embed_chars_ok_inv HF _ _ _ _ _ _ _ _ _ Hc) in H2'
      as (cl & ce & cm & lk & xc & xg & sx & p & rest & Hcl & Hce & Hcm & Hlk & Hx
          & Hp & He & Hchk & Hsb).
    destruct (Hlkp lk Hlk) as (Hne & Hd & Hcr).
    pose proof (reads_not_embed_words (weight lk) self ex Hne Hd s1 s) as Hw.
    rewrite H1 in Hw. cbn [fst] in Hw.
    destruct (embed_words L self false ex s1) as [rw ta] eqn:Ew.
    cbn [fst] in Hw. rewrite Hw in Ew.
    2:{ intros l Hl. rewrite Hs1, Hsb, Hsa. apply lookup_insert_ne. congruence. }
    assert (Hta : f_heap ta = f_heap sb).
    { rewrite <- Hs1.
      exact (keeps_heap_run _ _ _ _ (keeps_heap_embed_words HF _ _ _) Ew). }
    destruct (embed_chars_again self gr ex xq0 xd0 (xq1, xd1) sa sb ta Hc) as [Ha Hb];
      auto.
    { intros lk' cl' ce' cm' Hlk' Hcl'. destruct (Hlkp lk' Hlk') as (_ & _ & Hcr').
      apply Hcr', Hcl'. }
    destruct (embed_chars L self false gr ex xq0 xd0 ta) as [rc tb] eqn:Ec.
    cbn [fst snd] in Ha, Hb. subst rc.
    rewrite (forward_after_chars _ _ _ _ _ _ _ _ _ _ _ Ew Ec).
    destruct (indep_forward_tail self ex xq1 xd1 tb sb Hb) as [Hi1 Hi2].
    rewrite Hfa in Hi1, Hi2. cbn [fst snd] in Hi1, Hi2.
    rewrite Hi2. auto.
  - assert (Hk : keeps _ (forward bernoulli L self false gr ex)).
    { apply (keeps_heap_forward_off HF). exact Hc. }
    pose proof (keeps_heap_run _ _ _ _ Hk Hr) as Hh.
    destruct (indep_forward HL self gr ex s1 s Hh) as [Ha Hb].
    rewrite Hr in Ha, Hb. cbn [fst snd] in Ha, Hb.
    split; [exact Ha|]. apply Hk.
Qed.

End Twice.

End Forward.

(** *** The constructor on the small instance *)

Lemma toy_init_run :
  DrQA_init toy_inits toy_config toy_w_embedding (Some toy_c_embedding) toy_ctor_state
  = (Ok toy_model,
     (DrQA_init toy_inits toy_config toy_w_embedding (Some toy_c_embedding)
                toy_ctor_state).2).
Proof. vm_compute. reflexivity. Qed.


(** The error of an unsupported [question_merge] is not always the first:
    with a negative [hidden_size] on top, [nn.Linear] refuses to build
    [doc_linear], and the merge policy is never looked at. *)
Lemma DrQA_init_bogus_after_negative_size :
  let r := DrQA_init toy_inits
             (with_hidden_size (-1) (with_question_merge "bogus" toy_config))
             toy_w_embedding (Some toy_c_embedding) toy_ctor_state in
  r.1 = Raise (RuntimeError "Trying to create tensor with negative dimension") /\
  map fst (c_built r.2) = ["char_layer"; "qemb_match"].
Proof. vm_compute. split; reflexivity. Qed.


Lemma DrQA_init_widths_witness :
  exists m s',
    DrQA_init toy_inits toy_config toy_w_embedding (Some toy_c_embedding)
              toy_ctor_state = (Ok m, s') /\
    sam_input_size <$> qemb_match m = Some 3 /\
    in_features <$> q_linear m = Some 3 /\
    in_features <$> doc_linear m = Some 7 /\
    out_features <$> doc_linear m = Some 2 /\
    out_features <$> q_linear m = Some 2 /\
    brnn_input_size (doc_rnn m) = 2 /\
    brnn_input_size (question_rnn m) = 2 /\
    sam_input_size <$> doc_self_attn m = Some 4 /\
    lsa_input_size <$> self_attn m = None /\
    x_size (start_attn m) = 8 /\
    y_size (start_attn m) = 4 /\
    x_size (end_attn m) = 8 /\
    y_size (end_attn m) = 12.
Proof.
  apply (DrQA_init_widths toy_inits toy_config toy_w_embedding
           (Some toy_c_embedding) toy_ctor_state nn_LSTM);
    [reflexivity | reflexivity | reflexivity | repeat constructor].
Defined.

(** *** The forward pass on the small instance *)

Lemma Qmult_comm_eq (x y : Q) : s_mul x y = s_mul y x.
Proof.
  destruct x, y. unfold s_mul, Q_scalar, Qmult. cbn.
  f_equal; [apply Z.mul_comm | apply Pos.mul_comm].
Qed.

Lemma Q_counts_exactly n : counts_exactly (R := Q) n.
Proof.
  split; [reflexivity|].
  split; intros k _; unfold s_add, s_of_nat, s_one, s_zero, Q_scalar, Qplus, inject_Z;
    cbn [Qnum Qden]; (apply (f_equal2 Qmake); [lia | reflexivity]).
Qed.

Lemma lengths_map_map {A B} (f : A -> B) (x : list (list A)) :
  lengths (map (map f) x) = lengths x.
Proof.
  unfold lengths. rewrite map_map. apply map_ext. intros r. apply length_map.
Qed.

Lemma lift_rand_const_indep {A} (c : Rand (Rng:=list bool) A) r :
  (forall g, (c g).1 = r) -> rng_independent (R:=Q) (lift_rand c).
Proof.
  intros Hc s1 s2 Hh. unfold lift_rand.
  pose proof (Hc (rng s1)) as H1. pose proof (Hc (rng s2)) as H2.
  destruct (c (rng s1)), (c (rng s2)). cbn in *. subst. auto.
Qed.

Lemma toy_char_layer_keeps cl tr gr ce cm : keeps_heap (toy_char_layer cl tr gr ce cm).
Proof.
  unfold toy_char_layer. destruct (cel_char_embedding cl); [|apply keeps_heap_raise].
  apply keeps_heap_bind; [apply keeps_heap_read_param|]. intros p.
  apply keeps_heap_bind; [apply keeps_heap_lift_res|]. intros chars.
  apply keeps_heap_ret.
Qed.

Lemma toy_layers_write_nothing : layers_write_nothing toy_layers.
Proof.
  repeat apply conj; cbn; intros;
    first [ apply keeps_heap_lift_rand | apply keeps_heap_lift_res
          | apply toy_char_layer_keeps ].
Qed.

Lemma toy_eval_deterministic : eval_deterministic toy_layers.
Proof.
  repeat apply conj; cbn;
    try (intros; apply indep_lift_res);
    try (intros; eapply lift_rand_const_indep; intros g; reflexivity).
  intros cl gr ce cm.
  unfold toy_char_layer. destruct (cel_char_embedding cl); [|apply indep_raise].
  apply indep_bind; [apply indep_read_param|]. intros p.
  apply indep_bind; [apply indep_lift_res|]. intros chars.
  apply indep_ret.
Qed.

Lemma toy_keeps_lengths : keeps_lengths toy_layers.
Proof.
  repeat apply conj;
    cbn [layers_dropout Linear_forward StackedBRNN_forward BilinearSeqAttn_forward
         toy_layers].
  - intros x p axes tr s y s' Hr. apply lift_rand_ok_inv in Hr as [Hr _].
    revert Hr. unfold toy_dropout.
    destruct tr; [destruct (toy_bernoulli _ _) as [[] ?]|]; intros [= <- _];
      try reflexivity.
    unfold lengths. rewrite map_map. apply map_ext. intros r. apply length_map.
  - intros n l x s y s'. unfold lift_res, toy_linear.
    destruct (width_is _ x); [|discriminate].
    intros [= <- _]. apply lengths_map_map.
  - intros n m tr x k s y s' Hr. apply lift_rand_ok_inv in Hr as [Hr _].
    revert Hr. unfold toy_brnn.
    destruct (width_is _ x); [|discriminate]. intros [= <- _].
    apply lengths_map_map.
  - intros n m tr x q k s y s' Hr. apply lift_rand_ok_inv in Hr as [Hr _].
    revert Hr. unfold toy_bilinear_seq_attn.
    destruct (_ && _); [|discriminate]. intros [= Hz _].
    apply Forall2_lengths.
    eapply zip_res_ok_Forall2; [|exact Hz]. cbn.
    intros xb yb z [= <-]. apply length_map.
Qed.

Lemma toy_forward_run :
  forward toy_bernoulli toy_layers toy_model false true toy_example toy_state
  = (Ok toy_output, toy_final_state).
Proof. vm_compute. reflexivity. Qed.

(** C4, as stated, fails: a call in evaluation mode overwrites rows 1 and 2
    of the lookup weight that came with the example, and, the encodings
    requiring grad, makes the weight require grad. *)
Lemma forward_overwrites_lookup_rows :
  (forward toy_bernoulli toy_layers toy_model false true toy_example toy_state).1
    = Ok toy_output /\
  f_heap toy_state !! weight toy_lookup
    = Some {| data := [[0]; [9]; [9]]%Q; requires_grad := false; grad_fn := false |} /\
  f_heap toy_final_state !! weight toy_lookup
    = Some {| data := [[0]; [3]; [3]]%Q; requires_grad := true; grad_fn := true |} /\
  f_heap toy_final_state <> f_heap toy_state.
Proof.
  assert (Hb : f_heap toy_state !! weight toy_lookup
               = Some {| data := [[0]; [9]; [9]]%Q; requires_grad := false;
                         grad_fn := false |}) by (vm_compute; reflexivity).
  assert (Ha : f_heap toy_final_state !! weight toy_lookup
               = Some {| data := [[0]; [3]; [3]]%Q; requires_grad := true;
                         grad_fn := true |}) by (vm_compute; reflexivity).
  split; [vm_compute; reflexivity|]. split; [exact Hb|]. split; [exact Ha|].
  intros E. rewrite E, Hb in Ha. discriminate.
Qed.

(** With a lookup table as [nn.Embedding] creates it, a trainable leaf,
    the call is refused in grad mode. *)
Lemma forward_refuses_trainable_lookup :
  (forward toy_bernoulli toy_layers toy_model false true toy_example
           toy_state_trainable_lookup).1
  = Raise (RuntimeError "a view of a leaf Variable that requires grad is being used in an in-place operation.").
Proof. vm_compute. reflexivity. Qed.

Lemma end_scorer_question_vector_witness :
  exists dh qh q sf s1,
    BilinearSeqAttn_forward toy_layers "start_attn" (start_attn toy_model) false dh qh
                            (xd_mask toy_example) sf
      = (Ok (score_s toy_output), s1) /\
    BilinearSeqAttn_forward toy_layers "end_attn" (end_attn toy_model) false dh q
                            (xd_mask toy_example) s1
      = (Ok (score_e toy_output), toy_final_state) /\
    (span_dependency (config toy_model) = true ->
     forall b l w,
       shape3 b l w dh -> shape2 b l (score_s toy_output) -> (0 < l)%nat ->
       q = zip_with app qh
             (zip_with (spec_expected_document w) dh (score_s toy_output))).
Proof.
  destruct (end_scorer_question_vector toy_bernoulli toy_layers toy_model false true
              toy_example toy_output toy_state toy_final_state
              Qmult_comm_eq toy_forward_run)
    as (xq0 & xd0 & sa & xq1 & xd1 & sb & drnn0 & sc & drnn1 & xq2 & sd & dh & se
        & qh & sf & s1 & q & _ & _ & _ & _ & _ & _ & H7 & H8 & _ & Hq).
  exists dh, qh, q, sf, s1. split; [exact H7|]. split; [exact H8 | exact Hq].
Defined.

(** On the toy run the shapes match, and the question vector of the end
    scorer is the summary followed by the expected document vector. *)
Lemma toy_end_question_vector :
  match (forward_start toy_bernoulli toy_layers toy_model false true toy_example
                       toy_state).1 with
  | Ok (dh, qh, ss) =>
      shape3 2 4 8 dh /\ shape2 2 4 ss /\
      end_question_vector toy_model dh qh ss
      = Ok (zip_with app qh (zip_with (spec_expected_document 8) dh ss))
  | Raise _ => False
  end.
Proof.
  vm_compute. split; [|split]; [| |reflexivity]; repeat constructor.
Qed.

(** A second call in evaluation mode on the toy instance. *)
Lemma toy_forward_twice :
  (forward toy_bernoulli toy_layers toy_model false true toy_example
           toy_final_state).1
  = Ok toy_output.
Proof. vm_compute. reflexivity. Qed.

Lemma forward_writes_lookup_weight_witness :
  exists (xc_rep : list (list Q)) xg (p : Param (R:=Q)) rest,
    f_heap toy_state !! weight toy_lookup = Some p /\
    expand_to (expand_to (fun _ v => Ok v)) (drop 1 (data p)) xc_rep = Ok rest /\
    (lengths xc_rep = lengths (drop 1 (data p)) -> rest = xc_rep) /\
    f_heap toy_final_state !! weight toy_lookup
      = Some {| data := (take 1 (data p) ++ rest)%list;
                requires_grad := requires_grad p || true && xg;
                grad_fn := grad_fn p || true && xg |} /\
    (forall l, l <> weight toy_lookup ->
               f_heap toy_final_state !! l = f_heap toy_state !! l).
Proof.
  destruct (forward_writes_lookup_weight toy_bernoulli toy_layers
              toy_layers_write_nothing toy_model false true
              toy_example toy_output toy_state toy_final_state toy_forward_run)
    as [_ Hw].
  destruct (Hw eq_refl)
    as (cl & ce & cm & lookup & xq0 & xd0 & sa & xc_rep & xg & sb & p & rest
        & _ & _ & _ & Hlk & _ & _ & Hp & He & Hs & _ & Hf & Hframe).
  injection Hlk as <-.
  exists xc_rep, xg, p, rest. repeat split; assumption.
Defined.

Lemma forward_returns_witness :
  out_targets toy_output = [1; 3] /\
  chunk_target_acc toy_output = Qdiv (inject_Z 1) (inject_Z 2) /\
  chunk_any_acc toy_output = chunk_target_acc toy_output /\
  exists dh qh q sf s1,
    BilinearSeqAttn_forward toy_layers "start_attn" (start_attn toy_model) false dh qh
                            (xd_mask toy_example) sf
      = (Ok (score_s toy_output), s1) /\
    end_question_vector toy_model dh qh (score_s toy_output) = Ok q /\
    BilinearSeqAttn_forward toy_layers "end_attn" (end_attn toy_model) false dh q
                            (xd_mask toy_example) s1
      = (Ok (score_e toy_output), toy_final_state).
Proof.
  destruct (forward_returns toy_bernoulli toy_layers toy_model false true toy_example
              toy_output toy_state toy_final_state (Q_counts_exactly _)
              toy_forward_run)
    as (Ht & Hc & Ha & xq0 & xd0 & sa & xq1 & xd1 & sb & drnn0 & sc & drnn1 & xq2
        & sd & dh & se & qh & sf & s1 & q & _ & _ & _ & _ & _ & _ & H7 & Hq & H8).
  split; [exact Ht|]. split; [exact Hc|]. split; [exact Ha|].
  exists dh, qh, q, sf, s1. repeat split; assumption.
Defined.

Lemma toy_update_skips_frozen (h : gmap loc (Param (R:=Q))) l p :
  h !! l = Some p -> requires_grad p = false -> toy_update h !! l = Some p.
Proof.
  intros Hl Hg. unfold toy_update. rewrite lookup_fmap, Hl. cbn. rewrite Hg.
  reflexivity.
Qed.

Lemma fix_embeddings_excludes_word_embedding_witness :
  (forall l, l ∈ Embedding_parameters toy_w_embedding ->
             l ∈ DrQA_parameters (fun _ => []) toy_model) /\
  (fix_embeddings toy_config = true ->
   forall l p, l ∈ Embedding_parameters toy_w_embedding ->
     c_heap toy_ctor_state !! l = Some p ->
     f_heap toy_state !! l = Some (set_requires_grad false p) /\
     toy_update (f_heap toy_state) !! l = Some (set_requires_grad false p)) /\
  (fix_embeddings toy_config = false ->
   f_heap toy_state = c_heap toy_ctor_state /\
   forall l p, l ∈ Embedding_parameters toy_w_embedding ->
     c_heap toy_ctor_state !! l = Some p ->
     requires_grad p = true ->
     exists update' : gmap loc (Param (R:=Q)) -> gmap loc (Param (R:=Q)),
       (forall h l p, h !! l = Some p -> requires_grad p = false ->
                      update' h !! l = Some p) /\
       exists p', update' (f_heap toy_state) !! l = Some p' /\ data p' <> data p).
Proof.
  apply (fix_embeddings_excludes_word_embedding toy_inits toy_config toy_w_embedding
           (Some toy_c_embedding) toy_ctor_state toy_model
           (DrQA_init toy_inits toy_config toy_w_embedding (Some toy_c_embedding)
                      toy_ctor_state).2
           (fun _ => []) toy_update).
  - exact toy_init_run.
  - exact toy_update_skips_frozen.
Defined.

Lemma fix_embeddings_freezes_only_word_embedding_witness :
  (forall l p, l ∈ Embedding_parameters toy_w_embedding ->
               f_heap toy_state !! l = Some p -> requires_grad p = false) /\
  (forall l, l ∉ Embedding_parameters toy_w_embedding ->
             f_heap toy_state !! l = c_heap toy_ctor_state !! l) /\
  (char_embed toy_config <> 0 ->
   exists cl, char_layer toy_model = Some cl /\
     cel_char_embedding cl = Some toy_c_embedding /\
     forall ce p, Some toy_c_embedding = Some ce -> weight ce <> weight toy_w_embedding ->
       c_heap toy_ctor_state !! weight ce = Some p -> requires_grad p = true ->
       f_heap toy_state !! weight ce = Some p).
Proof.
  apply (fix_embeddings_freezes_only_word_embedding toy_inits toy_config
           toy_w_embedding (Some toy_c_embedding) toy_ctor_state toy_model
           (DrQA_init toy_inits toy_config toy_w_embedding (Some toy_c_embedding)
                      toy_ctor_state).2).
  - exact toy_init_run.
  - reflexivity.
Defined.

Lemma forward_eval_deterministic_witness :
  (forward toy_bernoulli toy_layers toy_model false true toy_example
           (toy_fwd_state [false; true])).1
  = (forward toy_bernoulli toy_layers toy_model false true toy_example toy_state).1 /\
  f_heap (forward toy_bernoulli toy_layers toy_model false true toy_example
                  (toy_fwd_state [false; true])).2
  = f_heap (forward toy_bernoulli toy_layers toy_model false true toy_example
                    toy_state).2.
Proof.
  apply (forward_eval_deterministic toy_bernoulli toy_layers toy_eval_deterministic
           toy_model true toy_example (toy_fwd_state [false; true]) toy_state).
  reflexivity.
Defined.

(** In training mode the generator matters: the same call from two
    generator states gives different start scores. *)
Lemma forward_training_depends_on_rng :
  (forward toy_bernoulli toy_layers toy_model true true toy_example
           (toy_fwd_state [false; true])).1
  <> (forward toy_bernoulli toy_layers toy_model true true toy_example toy_state).1.
Proof. vm_compute. discriminate. Qed.

Lemma span_dependency_keeps_shapes_witness :
  forward_start toy_bernoulli toy_layers toy_model false true toy_example toy_state
    = forward_start toy_bernoulli toy_layers toy_model_no_sd false true toy_example
                    toy_state /\
  score_s toy_output = score_s toy_output_no_sd /\
  out_targets toy_output = out_targets toy_output_no_sd /\
  chunk_target_acc toy_output = chunk_target_acc toy_output_no_sd /\
  chunk_any_acc toy_output = chunk_any_acc toy_output_no_sd /\
  shape2 2 4 (score_s toy_output) /\ shape2 2 4 (score_e toy_output) /\
  shape2 2 4 (score_s toy_output_no_sd) /\ shape2 2 4 (score_e toy_output_no_sd).
Proof.
  apply (span_dependency_keeps_shapes toy_inits toy_bernoulli toy_layers
           toy_keeps_lengths
           toy_config toy_w_embedding (Some toy_c_embedding) toy_ctor_state
           toy_model toy_model_no_sd
           (DrQA_init toy_inits (with_span_dependency true toy_config) toy_w_embedding
                      (Some toy_c_embedding) toy_ctor_state).2
           (DrQA_init toy_inits (with_span_dependency false toy_config) toy_w_embedding
                      (Some toy_c_embedding) toy_ctor_state).2
           false true toy_example toy_state toy_output toy_output_no_sd
           toy_final_state
           (forward toy_bernoulli toy_layers toy_model_no_sd false true toy_example
                    toy_state).2).
  - vm_compute. reflexivity.
  - vm_compute. reflexivity.
  - exact toy_forward_run.
  - vm_compute. reflexivity.
  - split; [reflexivity | repeat constructor].
Defined.

Lemma projection_dropout_uses_default_p_witness :
  (Qle_bool (dropout_ff (config toy_model)) 0 = false ->
   forall p, Qle_bool p 0 = false ->
     project_inputs toy_bernoulli toy_layers
       (with_config (with_dropout_ff p (config toy_model)) toy_model) true
       [[[1; 2; 3; 4; 5; 6; 7]]]%Q [[[1; 2; 3]]]%Q
     = project_inputs toy_bernoulli toy_layers toy_model true
         [[[1; 2; 3; 4; 5; 6; 7]]]%Q [[[1; 2; 3]]]%Q) /\
  (forall (s s' : FwdState (R:=Q) (Rng:=list bool)) d' q',
     project_inputs toy_bernoulli toy_layers toy_model true
       [[[1; 2; 3; 4; 5; 6; 7]]]%Q [[[1; 2; 3]]]%Q s = (Ok (d', q'), s') ->
     exists dl ql d s1 q s2,
       doc_linear toy_model = Some dl /\ q_linear toy_model = Some ql /\
       Linear_forward toy_layers "doc_linear" dl [[[1; 2; 3; 4; 5; 6; 7]]]%Q s
         = (Ok d, s1) /\
       Linear_forward toy_layers "q_linear" ql [[[1; 2; 3]]]%Q s1 = (Ok q, s2) /\
       (if negb (Qle_bool (dropout_ff (config toy_model)) 0) && true
        then
          let doc := spec_dropout toy_bernoulli (1 # 2) (F_relu d) (rng s2) in
          let question := spec_dropout toy_bernoulli (1 # 2) (F_relu q) doc.2 in
          d' = doc.1 /\ q' = question.1 /\ rng s' = question.2 /\
          f_heap s' = f_heap s2 /\
          dropped_from (1 # 2) d' (F_relu d) /\ dropped_from (1 # 2) q' (F_relu q)
        else d' = F_relu d /\ q' = F_relu q /\ s' = s2)).
Proof.
  exact (projection_dropout_uses_default_p toy_bernoulli toy_layers toy_model true
           [[[1; 2; 3; 4; 5; 6; 7]]]%Q [[[1; 2; 3]]]%Q eq_refl).
Defined.

(** The projection stage of the toy model in training mode: with the
    generator handing out [false; true; ...] the first element is zeroed
    and the others are doubled. *)
Lemma toy_projection_run :
  (project_inputs toy_bernoulli toy_layers toy_model true
     [[[1; 2; 3; 4; 5; 6; 7]]]%Q [[[1; 2; 3]]]%Q
     (toy_fwd_state [false; true; true; true])).1
  = Ok ([[[0; 28 / (1 # 2)]]]%Q, [[[6 / (1 # 2); 6 / (1 # 2)]]]%Q).
Proof. vm_compute. reflexivity. Qed.

(** *** The further properties on the small instance *)

Lemma DrQA_init_unknown_rnn_type_witness :
  exists s',
    DrQA_init toy_inits (with_rnn_type "transformer" toy_config) toy_w_embedding
              (Some toy_c_embedding) toy_ctor_state
      = (Raise (KeyError "transformer"), s') /\
    map fst (c_built s') = ["char_layer"; "qemb_match"; "doc_linear"; "q_linear"].
Proof.
  destruct (DrQA_init_unknown_rnn_type toy_inits
              (with_rnn_type "transformer" toy_config)
              toy_w_embedding (Some toy_c_embedding) toy_ctor_state)
    as [_ Hk].
  - intros Hin.
    repeat (apply elem_of_cons in Hin as [? | Hin]; [discriminate|]).
    apply elem_of_nil in Hin. exact Hin.
  - destruct (Hk eq_refl) as (s' & Hr & _ & Hb & _).
    + repeat constructor.
    + exists s'. split; [exact Hr | exact Hb].
Defined.

Lemma DrQA_init_structure_witness :
  is_Some (char_layer toy_model) /\ is_Some (qemb_match toy_model) /\
  is_Some (doc_linear toy_model) /\ is_Some (q_linear toy_model) /\
  is_Some (doc_self_attn toy_model) /\ ~ is_Some (self_attn toy_model) /\
  map fst (c_built (DrQA_init toy_inits toy_config toy_w_embedding
                              (Some toy_c_embedding) toy_ctor_state).2)
  = ["char_layer"; "qemb_match"; "doc_linear"; "q_linear"; "doc_rnn";
     "question_rnn"; "doc_self_attn"; "start_attn"; "end_attn"].
Proof.
  destruct (DrQA_init_structure toy_inits toy_config toy_w_embedding
              (Some toy_c_embedding) toy_ctor_state toy_model _ toy_init_run)
    as (_ & _ & Hb & Hc & Hq & Hd & Hl & Hs & Ha & _).
  split; [apply Hc; discriminate|]. split; [apply Hq; reflexivity|].
  split; [apply Hd; reflexivity|]. split; [apply Hl; reflexivity|].
  split; [apply Hs; reflexivity|]. split.
  - intros Hsa. apply Ha in Hsa. discriminate.
  - rewrite Hb. reflexivity.
Defined.

Lemma DrQA_init_raise_has_frozen_witness :
  c_heap (DrQA_init toy_inits (with_question_merge "bogus" toy_config)
                    toy_w_embedding (Some toy_c_embedding) toy_ctor_state).2
    !! 1%positive
  = Some {| data := [[0; 0]; [1; 2]; [3; 4]]%Q; requires_grad := false;
            grad_fn := false |}.
Proof.
  destruct (DrQA_init_raise_has_frozen toy_inits
              (with_question_merge "bogus" toy_config)
              toy_w_embedding (Some toy_c_embedding) toy_ctor_state
              (NotImplementedError "question_merge = bogus")
              (DrQA_init toy_inits (with_question_merge "bogus" toy_config)
                         toy_w_embedding (Some toy_c_embedding) toy_ctor_state).2)
    as (_ & Hw & _).
  - vm_compute. reflexivity.
  - reflexivity.
  - exact (Hw eq_refl).
Defined.

Lemma avoids_lift_rand_of {A} (c : Rand (Rng:=list bool) A) :
  (forall g, res_avoids (c g).1) -> avoids (R:=Q) (lift_rand c).
Proof.
  intros Hc s e s'. unfold lift_rand. specialize (Hc (rng s)).
  destruct (c (rng s)) as [r g]. intros [= -> _]. apply Hc. reflexivity.
Qed.

Lemma toy_char_layer_avoids cl tr gr ce cm : avoids (toy_char_layer cl tr gr ce cm).
Proof.
  unfold toy_char_layer. destruct (cel_char_embedding cl).
  - apply avoids_bind; [apply avoids_read_param|]. intros p.
    apply avoids_bind; [|intros chars; apply avoids_ret].
    apply avoids_lift_res.
    apply res_avoids_map_res. intros row. apply res_avoids_map_res. intros i.
    unfold embedding_row. destruct (_ <? _)%Z; [intros ? [= <-]; reflexivity|].
    destruct (_ !! _); [apply res_avoids_ok | intros ? [= <-]; reflexivity].
  - intros s e s' [= <- _]. reflexivity.
Qed.

Lemma toy_layers_avoid : layers_avoid_structural_errors toy_layers.
Proof.
  repeat apply conj; cbn.
  - intros x p axes tr. apply avoids_lift_rand_of. intros g e. unfold toy_dropout.
    destruct tr; [destruct (toy_bernoulli _ g)|]; intros [=].
  - apply toy_char_layer_avoids.
  - intros n m tr x y k. apply avoids_lift_rand_of. intros g e.
    unfold toy_seq_attn_match. cbn [fst].
    destruct (_ && _); [|intros [= <-]; reflexivity].
    revert e. apply res_avoids_zip_res. intros ? ? ? [=].
  - intros n m tr x k. apply avoids_lift_rand_of. intros g e. unfold toy_brnn.
    cbn [fst]. destruct (width_is _ _); intros [= <-]. reflexivity.
  - intros m tr x k. apply avoids_lift_rand_of. intros g e.
    unfold toy_linear_seq_attn. cbn [fst].
    destruct (width_is _ _); intros [= <-]. reflexivity.
  - intros n m tr x y k. apply avoids_lift_rand_of. intros g e.
    unfold toy_bilinear_seq_attn. cbn [fst].
    destruct (_ && _); [|intros [= <-]; reflexivity].
    revert e. apply res_avoids_zip_res. intros ? ? ? [=].
  - intros x k. apply avoids_lift_res. intros e [=].
  - intros x ws. apply avoids_lift_res. unfold toy_weighted_avg.
    apply res_avoids_zip_res. intros xb wb.
    apply res_avoids_bind; [|intros ? ? [=]].
    apply res_avoids_zip_res. intros ? ? ? [=].
  - intros n l x. apply avoids_lift_res. intros e. unfold toy_linear.
    destruct (width_is _ _); intros [= <-]. reflexivity.
Qed.

Lemma forward_finds_its_modules_witness :
  (forward toy_bernoulli toy_layers toy_model false true toy_example_no_features
           toy_state).1 = Raise (KeyError "xd_f") /\
  structural_error (KeyError "xd_f") = false.
Proof.
  assert (Hr : forward toy_bernoulli toy_layers toy_model false true
                 toy_example_no_features toy_state
               = (Raise (KeyError "xd_f"),
                  (forward toy_bernoulli toy_layers toy_model false true
                           toy_example_no_features toy_state).2))
    by (vm_compute; reflexivity).
  split; [rewrite Hr; reflexivity|].
  exact (forward_finds_its_modules toy_inits toy_bernoulli toy_layers toy_layers_avoid
           toy_config toy_w_embedding (Some toy_c_embedding) toy_ctor_state _
           toy_model false true toy_example_no_features toy_state _ _
           toy_init_run Hr).
Defined.

Lemma forward_reads_its_keys_witness :
  (0 < num_features (config toy_model) -> is_Some (xd_f toy_example)) /\
  (0 < char_embed (config toy_model) ->
   is_Some (c_emb toy_example) /\ is_Some (c_emb_mask toy_example) /\
   is_Some (c_layer_lookup toy_example) /\
   is_Some (xqc toy_example) /\ is_Some (xdc toy_example)).
Proof.
  exact (forward_reads_its_keys toy_bernoulli toy_layers toy_model false true
           toy_example toy_output toy_state toy_final_state toy_forward_run).
Defined.

Lemma forward_ignores_unread_keys_witness :
  forward toy_bernoulli toy_layers
          (with_config (with_num_features 0 toy_config) toy_model) true true
          toy_example_no_features
  = forward toy_bernoulli toy_layers
            (with_config (with_num_features 0 toy_config) toy_model) true true
            toy_example.
Proof.
  apply (forward_ignores_unread_keys toy_bernoulli toy_layers
           (with_config (with_num_features 0 toy_config) toy_model) true true
           toy_example toy_example_no_features).
  unfold same_read_keys. cbn. repeat split; try reflexivity. lia.
Defined.

Lemma forward_writes_only_lookup_rows_witness :
  f_heap toy_final_state !! weight toy_w_embedding
    = f_heap toy_state !! weight toy_w_embedding /\
  forall p p' : Param (R:=Q),
    f_heap toy_state !! weight toy_lookup = Some p ->
    f_heap toy_final_state !! weight toy_lookup = Some p' ->
    take 1 (data p') = take 1 (data p) /\ lengths (data p') = lengths (data p).
Proof.
  destruct (forward_writes_only_lookup_rows toy_bernoulli toy_layers
              toy_layers_write_nothing toy_model false true toy_example toy_state)
    as (Hf & _ & Hp).
  split.
  - apply Hf. intros lk [= <-]. discriminate.
  - intros p p' H1 H2. destruct (Hp _ p p' H1 H2) as (Ht & Hl & _). auto.
Defined.

Lemma toy_start_run :
  (forward_start toy_bernoulli toy_layers toy_model false true toy_example
                 toy_state).1
  = Ok toy_start.
Proof. vm_compute. reflexivity. Qed.

Lemma end_scorer_gets_its_width_witness :
  x_size (end_attn toy_model) = 8 /\ width2 12 toy_end_vector.
Proof.
  apply (end_scorer_gets_its_width toy_inits toy_config toy_w_embedding
           (Some toy_c_embedding) toy_ctor_state
           (DrQA_init toy_inits toy_config toy_w_embedding (Some toy_c_embedding)
                      toy_ctor_state).2
           toy_model toy_start.1.1 toy_start.1.2 toy_start.2 toy_end_vector
           2%nat 4%nat 8%nat).
  - exact toy_init_run.
  - split; [reflexivity|]. repeat constructor.
  - split; [reflexivity|]. repeat constructor.
  - lia.
  - reflexivity.
  - repeat constructor.
  - vm_compute. reflexivity.
Defined.

Lemma width_is_spec (n : Z) (t : list (list (list Q))) :
  width_is n t = true -> width3 n t.
Proof.
  unfold width_is, width3, width2. intros Hw.
  apply Forall_forall. intros r Hr.
  apply Forall_forall. intros v Hv.
  rewrite forallb_forall in Hw. apply list_elem_of_In in Hr. specialize (Hw _ Hr).
  rewrite forallb_forall in Hw. apply list_elem_of_In in Hv. specialize (Hw _ Hv).
  apply Z.eqb_eq. exact Hw.
Qed.

Lemma toy_layer_widths : layer_widths toy_layers_strict.
Proof.
  unfold layer_widths, toy_layers_strict.
  cbn [layers_dropout SeqAttnMatch_forward Linear_forward toy_layers].
  repeat apply conj.
  - intros x p axes tr s y s' w Hr. apply lift_rand_ok_inv in Hr as [Hr _].
    revert Hr. unfold toy_dropout.
    destruct tr; [destruct (toy_bernoulli _ _) as [[] ?]|]; intros [= <- _];
      auto.
    intros Hx. unfold width3, width2 in *. apply Forall_map.
    eapply Forall_impl; [exact Hx|]. cbn. intros r Hr. apply Forall_map.
    eapply Forall_impl; [exact Hr|]. cbn. intros v Hv. rewrite length_map. exact Hv.
  - intros n m tr x y k s z s' Hr. apply lift_rand_ok_inv in Hr as [Hr _].
    revert Hr. unfold toy_seq_attn_match_strict.
    destruct (toy_seq_attn_match n m tr x y k _) as [[z0|] g0]; [|discriminate].
    destruct (width_is _ z0) eqn:Hw; intros [= <- _]. apply width_is_spec, Hw.
  - intros n l x s y s'. unfold lift_res, toy_linear_strict.
    destruct (toy_linear n l x) as [y0|]; [|discriminate].
    destruct (width_is _ y0) eqn:Hw; intros [= <- _]. apply width_is_spec, Hw.
Qed.

Lemma toy_layers_strict_write_nothing : layers_write_nothing toy_layers_strict.
Proof.
  repeat apply conj; cbn; intros;
    first [ apply keeps_heap_lift_rand | apply keeps_heap_lift_res
          | apply toy_char_layer_keeps ].
Qed.

Lemma encoders_get_their_widths_witness :
  exists drnn_input xq_emb sd se h1 h2 t1 t2,
    StackedBRNN_forward toy_layers_strict "doc_rnn" (doc_rnn toy_model) false
                        drnn_input (xd_mask toy_example) sd = (Ok h1, t1) /\
    width3 2 drnn_input /\
    StackedBRNN_forward toy_layers_strict "question_rnn" (question_rnn toy_model)
                        false xq_emb (xq_mask toy_example) se = (Ok h2, t2) /\
    width3 2 xq_emb.
Proof.
  destruct (encoders_get_their_widths toy_inits toy_bernoulli toy_layers_strict
              toy_layer_widths toy_layers_strict_write_nothing
              toy_config toy_w_embedding (Some toy_c_embedding) toy_ctor_state
              (DrQA_init toy_inits toy_config toy_w_embedding (Some toy_c_embedding)
                         toy_ctor_state).2
              toy_model false true toy_example toy_output toy_state
              (forward toy_bernoulli toy_layers_strict toy_model false true
                       toy_example toy_state).2)
    as (xq0 & xd0 & sa & xq1 & xd1 & sb & drnn0 & sc & drnn_input & xq_emb & sd
        & h1 & t1 & dh & se & h2 & t2 & _ & _ & _ & _ & Hd & Hdw & _ & Hq & Hqw).
  - exact toy_init_run.
  - cbn. lia.
  - cbn. lia.
  - eexists. split; [vm_compute; reflexivity|]. repeat constructor.
  - intros lk p [= <-] Hp. vm_compute in Hp. injection Hp as <-.
    repeat constructor.
  - intros f [= <-]. repeat constructor.
  - vm_compute. reflexivity.
  - exists drnn_input, xq_emb, sd, se, h1, h2, t1, t2. auto.
Defined.

Lemma reads_not_lift_rand_const {A} lk (c : Rand (Rng:=list bool) A) r :
  (forall g, (c g).1 = r) -> reads_not (R:=Q) lk (lift_rand c).
Proof.
  intros Hc s1 s2 _. unfold lift_rand.
  pose proof (Hc (rng s1)) as H1. pose proof (Hc (rng s2)) as H2.
  destruct (c (rng s1)), (c (rng s2)). cbn in *. congruence.
Qed.

Lemma toy_char_layer_reads_not lk cl tr gr ce cm :
  (forall e, cel_char_embedding cl = Some e -> weight e <> lk) ->
  reads_not lk (toy_char_layer cl tr gr ce cm).
Proof.
  intros Hne. unfold toy_char_layer.
  destruct (cel_char_embedding cl) as [e|]; [|intros s1 s2 _; reflexivity].
  apply reads_not_bind;
    [apply reads_not_read_param, Hne; reflexivity | apply keeps_heap_read_param|].
  intros p.
  apply reads_not_bind; [apply reads_not_lift_res | apply keeps_heap_lift_res|].
  intros chars. apply reads_not_ret.
Qed.

Lemma forward_eval_twice_witness :
  (forward toy_bernoulli toy_layers toy_model false true toy_example
           toy_final_state).1 = Ok toy_output /\
  f_heap (forward toy_bernoulli toy_layers toy_model false true toy_example
                  toy_final_state).2 = f_heap toy_final_state.
Proof.
  apply (forward_eval_twice toy_bernoulli toy_layers toy_eval_deterministic
           toy_layers_write_nothing
           toy_model true toy_example toy_output toy_state toy_final_state).
  - intros _ lk [= <-]. split; [discriminate|]. split.
    + intros x p axes.
      apply (reads_not_lift_rand_const _ _ (Ok x)). intros g. reflexivity.
    + intros cl ce cm [= <-]. apply toy_char_layer_reads_not.
      intros e [= <-]. discriminate.
  - exact toy_forward_run.
Defined.

(** The lookup table must not be read before it is written: with the
    character embedding of the model as lookup table, the character layer
    of the second call reads what the first call wrote, and the two calls
    return different scores. *)
Lemma forward_twice_aliased_lookup :
  let first := forward toy_bernoulli toy_layers toy_model false false
                       toy_example_aliased toy_state in
  (exists out, first.1 = Ok out) /\
  (forward toy_bernoulli toy_layers toy_model false false toy_example_aliased
           first.2).1 <> first.1.
Proof.
  vm_compute. split; [eexists; reflexivity | discriminate].
Qed.
